(** * HybridJoin ETL: the streaming join of [Hybrid-Join.py]

    A shallow embedding of the [HybridJoinBatch] class: the reference store
    loaded by [load_master_data], the per-record join chain of
    [hybridjoin_thread], the batch writer [flush_batch], and the two threads
    ([stream_reader_thread], [hybridjoin_thread]) as an interleaving
    transition system over the object's attributes. *)

From Stdlib Require Import ZArith Ascii String List Bool Lia.
From Stdlib Require Import Floats.SpecFloat.
From stdpp Require Import base option list strings gmap.

Open Scope Z_scope.

(** ** Python floats

    A Python [float] is an IEEE-754 binary64 value.  [spec_float] with
    precision 53 and maximal exponent 1024 is exactly that format. *)

Module PyFloat.

Definition float : Type := spec_float.

Definition prec : Z := 53.
Definition emax : Z := 1024.

(** [0.0] *)
Definition zero : float := S754_zero false.

(** [x * y] on two floats. *)
Definition mul (x y : float) : float := SFmul prec emax x y.

(** [x == y] on two floats (so that [-0.0 == 0.0], and NaN equals nothing). *)
Definition eqb (x y : float) : bool := SFeqb x y.

(** [math.isnan] / the test behind [pd.isna] on a float cell. *)
Definition is_nan (x : float) : bool :=
  match x with S754_nan => true | _ => false end.

(** Conversion of a Python [int] to a [float], as performed by [float(n)] and
    by [n * x] with [x] a float: round to nearest, ties to even; when the
    rounded value does not fit a double CPython raises [OverflowError]
    ("int too large to convert to float"), here [None]. *)
Definition of_int (n : Z) : option float :=
  match binary_normalize prec emax n 0 false with
  | S754_infinity _ => None
  | f => Some f
  end.

(** [n * x] with [n] an [int] and [x] a [float]. *)
Definition int_mul (n : Z) (x : float) : option float :=
  match of_int n with
  | Some nf => Some (mul nf x)
  | None => None
  end.

(** [int(x)] on a float: truncation toward zero; [ValueError] on NaN and
    [OverflowError] on an infinity, both [None]. *)
Definition to_int (x : float) : option Z :=
  match x with
  | S754_zero _ => Some 0
  | S754_finite s m e =>
      let a := if 0 <=? e then Z.shiftl (Zpos m) e else Z.shiftr (Zpos m) (- e) in
      Some (if s then - a else a)
  | S754_infinity _ => None
  | S754_nan => None
  end.

End PyFloat.

(** ** Python text helpers *)

Definition code (c : ascii) : Z := Z.of_N (N_of_ascii c).

(** ASCII decimal digit and its value. *)
Definition digit (c : ascii) : option Z :=
  if (48 <=? code c) && (code c <=? 57) then Some (code c - 48) else None.

(** The ASCII characters [str.strip()] removes: tab, line feed, vertical tab,
    form feed, carriage return, the separators 0x1c-0x1f and the space. *)
Definition is_space (c : ascii) : bool :=
  ((9 <=? code c) && (code c <=? 13)) || ((28 <=? code c) && (code c <=? 32)).

Fixpoint lstrip (l : list ascii) : list ascii :=
  match l with
  | c :: l' => if is_space c then lstrip l' else l
  | [] => []
  end.

(** [s.strip()] *)
Definition strip (s : string) : string :=
  string_of_list_ascii
    (rev (lstrip (rev (lstrip (list_ascii_of_string s))))).

(** *** [datetime.strptime(s, '%Y-%m-%d')] followed by
        [int(date_obj.strftime('%Y%m%d'))]

    [strptime] matches the text against the pattern the format compiles to,
    [(\d\d\d\d)-(1[0-2]|0[1-9]|[1-9])-(3[01]|[12]\d|0[1-9]|[1-9]| [1-9])],
    rejects text left over after the match, and then builds the date, which
    rejects year 0 and days past the end of the month.  Every failure is a
    [ValueError], here [None].  Texts are ASCII: a digit is one of 0-9. *)

Definition is_leap (y : Z) : bool :=
  ((y mod 4 =? 0) && negb (y mod 100 =? 0)) || (y mod 400 =? 0).

Definition days_in_month (y m : Z) : Z :=
  if m =? 2 then (if is_leap y then 29 else 28)
  else if (m =? 4) || (m =? 6) || (m =? 9) || (m =? 11) then 30
  else 31.

(** The month group followed by the dash: the two-digit alternatives come
    first, the single digit matches only when the dash is next. *)
Definition parse_month (l : list ascii) : option (Z * list ascii) :=
  match l with
  | c1 :: c2 :: "-"%char :: rest =>
      match digit c1, digit c2 with
      | Some 1, Some d => if d <=? 2 then Some (10 + d, rest) else None
      | Some 0, Some d => if 1 <=? d then Some (d, rest) else None
      | _, _ => None
      end
  | c1 :: "-"%char :: rest =>
      match digit c1 with
      | Some d => if 1 <=? d then Some (d, rest) else None
      | None => None
      end
  | _ => None
  end.

(** The day group: the first alternative that matches a prefix wins and the
    whole text must be consumed. *)
Definition parse_day (l : list ascii) : option Z :=
  match l with
  | [c1; c2] =>
      match digit c1, digit c2 with
      | Some 3, Some d => if d <=? 1 then Some (30 + d) else None
      | Some 1, Some d => Some (10 + d)
      | Some 2, Some d => Some (20 + d)
      | Some 0, Some d => if 1 <=? d then Some d else None
      | None, Some d => if (code c1 =? 32) && (1 <=? d) then Some d else None
      | _, _ => None
      end
  | [c1] =>
      match digit c1 with
      | Some d => if 1 <=? d then Some d else None
      | None => None
      end
  | _ => None
  end.

Definition strptime_ymd (s : string) : option (Z * Z * Z) :=
  match list_ascii_of_string s with
  | y1 :: y2 :: y3 :: y4 :: "-"%char :: rest =>
      match digit y1, digit y2, digit y3, digit y4 with
      | Some a, Some b, Some c, Some d =>
          let year := 1000 * a + 100 * b + 10 * c + d in
          match parse_month rest with
          | Some (month, rest') =>
              match parse_day rest' with
              | Some day =>
                  if (1 <=? year) && (day <=? days_in_month year month)
                  then Some (year, month, day) else None
              | None => None
              end
          | None => None
          end
      | _, _, _, _ => None
      end
  | _ => None
  end.

(** [int(date_obj.strftime('%Y%m%d'))] *)
Definition date_id_of (ymd : Z * Z * Z) : Z :=
  let '(y, m, d) := ymd in y * 10000 + m * 100 + d.

(** ** Data model *)

Import PyFloat.

(** A cell of a pandas row as [read_csv] delivers it: an integer, a float
    (NaN for a missing value) or the text of a column that did not parse as
    numbers. *)
Inductive cell :=
| CInt (z : Z)
| CFloat (f : float)
| CStr (s : string).

(** [pd.notna(x)] *)
Definition pd_notna (x : cell) : bool :=
  match x with
  | CFloat f => negb (is_nan f)
  | _ => true
  end.

(** The dictionary [stream_reader_thread] builds for a row. *)
Record Transaction := {
  order_id : string;
  customer_id : string;
  product_id : string;
  quantity : Z;
  date : string
}.

(** A row of [dim_customer], as the dictionary cursor returns it. *)
Record CustomerRecord := {
  c_customer_id : string;
  c_gender : string;
  c_age : string;
  c_occupation : string;
  c_city_category : string;
  c_stay_in_current_city_years : string;
  c_marital_status : string
}.

(** The dictionary [load_master_data] stores per product. *)
Record ProductRecord := {
  p_product_id : string;
  p_product_category : string;
  p_price : float;
  p_store_id : string;
  p_supplier_id : string
}.

(** The tuple [values] appended to [insert_batch]. *)
Record JoinedRecord := {
  j_order_id : string;
  j_customer_id : string;
  j_product_id : string;
  j_date_id : Z;
  j_store_id : string;
  j_supplier_id : string;
  j_quantity : Z;
  j_unit_price : float;
  j_total_amount : float
}.

(** A row of [product_master_data.csv]; the text fields hold what [str]
    makes of the cell. *)
Record product_row := {
  pr_Product_ID : string;
  pr_Product_Category : string;
  pr_price : cell;
  pr_storeID : string;
  pr_supplierID : string
}.

(** A row of the transaction feed; the text fields hold what [str] makes of
    the cell. *)
Record feed_row := {
  f_orderID : string;
  f_Customer_ID : string;
  f_Product_ID : string;
  f_quantity : cell;
  f_date : string
}.

(** What the chunk iterator yields: the rows of a chunk, or an exception. *)
Inductive chunk :=
| ChunkRows (rows : list feed_row)
| ChunkError.

(** The feed: [None] when [pd.read_csv] cannot open it. *)
Definition feed : Type := option (list chunk).

(** What the warehouse connection was asked to do by one [flush_batch] call:
    [executemany] and [commit] of a batch, or a failure followed by the
    [rollback] attempt. *)
Inductive db_event :=
| Committed (batch : list JoinedRecord)
| RolledBack (batch : list JoinedRecord).

Definition event_batch (e : db_event) : list JoinedRecord :=
  match e with Committed b => b | RolledBack b => b end.

(** The rows of [fact_sales] the connection has committed. *)
Definition fact_sales (log : list db_event) : list JoinedRecord :=
  concat (map (fun e => match e with Committed b => b | RolledBack _ => [] end) log).

(** Every record handed to the connection, in call order. *)
Definition flushed (log : list db_event) : list JoinedRecord :=
  concat (map event_batch log).

(** The attributes of a [HybridJoinBatch] object ([db_config] apart; [db_conn]
    is the history of the connection). *)
Record HybridJoinBatch := {
  batch_size : Z;
  stream_buffer : list Transaction;
  insert_batch : list JoinedRecord;
  total_stream_tuples : nat;
  total_joined_tuples : nat;
  total_loaded_tuples : nat;
  total_skipped : nat;
  stream_complete : bool;
  running : bool;
  join_ready : bool;
  customer_master : gmap string CustomerRecord;
  product_master : gmap string ProductRecord;
  valid_dates : gset Z;
  db_conn : list db_event
}.

(** [queue.Queue(maxsize=10000)] *)
Definition maxsize : Z := 10000.

(** [__init__], which leaves the three stores empty; they are arguments here
    so that the same function gives the object as [load_master_data] leaves
    it, which is how [run] hands it to the threads. *)
Definition new_HybridJoinBatch (bs : Z)
    (cm : gmap string CustomerRecord) (pm : gmap string ProductRecord)
    (vd : gset Z) : HybridJoinBatch :=
  {| batch_size := bs; stream_buffer := []; insert_batch := [];
     total_stream_tuples := 0; total_joined_tuples := 0;
     total_loaded_tuples := 0; total_skipped := 0;
     stream_complete := false; running := true; join_ready := false;
     customer_master := cm; product_master := pm; valid_dates := vd;
     db_conn := [] |}.

(** Attribute assignments. *)
Definition set_stream_buffer (q : list Transaction) (s : HybridJoinBatch) :=
  {| batch_size := batch_size s; stream_buffer := q; insert_batch := insert_batch s;
     total_stream_tuples := total_stream_tuples s;
     total_joined_tuples := total_joined_tuples s;
     total_loaded_tuples := total_loaded_tuples s; total_skipped := total_skipped s;
     stream_complete := stream_complete s; running := running s;
     join_ready := join_ready s; customer_master := customer_master s;
     product_master := product_master s; valid_dates := valid_dates s;
     db_conn := db_conn s |}.

Definition set_insert_batch (b : list JoinedRecord) (s : HybridJoinBatch) :=
  {| batch_size := batch_size s; stream_buffer := stream_buffer s; insert_batch := b;
     total_stream_tuples := total_stream_tuples s;
     total_joined_tuples := total_joined_tuples s;
     total_loaded_tuples := total_loaded_tuples s; total_skipped := total_skipped s;
     stream_complete := stream_complete s; running := running s;
     join_ready := join_ready s; customer_master := customer_master s;
     product_master := product_master s; valid_dates := valid_dates s;
     db_conn := db_conn s |}.

Definition set_total_stream_tuples (n : nat) (s : HybridJoinBatch) :=
  {| batch_size := batch_size s; stream_buffer := stream_buffer s;
     insert_batch := insert_batch s; total_stream_tuples := n;
     total_joined_tuples := total_joined_tuples s;
     total_loaded_tuples := total_loaded_tuples s; total_skipped := total_skipped s;
     stream_complete := stream_complete s; running := running s;
     join_ready := join_ready s; customer_master := customer_master s;
     product_master := product_master s; valid_dates := valid_dates s;
     db_conn := db_conn s |}.

Definition set_total_joined_tuples (n : nat) (s : HybridJoinBatch) :=
  {| batch_size := batch_size s; stream_buffer := stream_buffer s;
     insert_batch := insert_batch s; total_stream_tuples := total_stream_tuples s;
     total_joined_tuples := n;
     total_loaded_tuples := total_loaded_tuples s; total_skipped := total_skipped s;
     stream_complete := stream_complete s; running := running s;
     join_ready := join_ready s; customer_master := customer_master s;
     product_master := product_master s; valid_dates := valid_dates s;
     db_conn := db_conn s |}.

Definition set_total_loaded_tuples (n : nat) (s : HybridJoinBatch) :=
  {| batch_size := batch_size s; stream_buffer := stream_buffer s;
     insert_batch := insert_batch s; total_stream_tuples := total_stream_tuples s;
     total_joined_tuples := total_joined_tuples s;
     total_loaded_tuples := n; total_skipped := total_skipped s;
     stream_complete := stream_complete s; running := running s;
     join_ready := join_ready s; customer_master := customer_master s;
     product_master := product_master s; valid_dates := valid_dates s;
     db_conn := db_conn s |}.

Definition set_total_skipped (n : nat) (s : HybridJoinBatch) :=
  {| batch_size := batch_size s; stream_buffer := stream_buffer s;
     insert_batch := insert_batch s; total_stream_tuples := total_stream_tuples s;
     total_joined_tuples := total_joined_tuples s;
     total_loaded_tuples := total_loaded_tuples s; total_skipped := n;
     stream_complete := stream_complete s; running := running s;
     join_ready := join_ready s; customer_master := customer_master s;
     product_master := product_master s; valid_dates := valid_dates s;
     db_conn := db_conn s |}.

Definition set_stream_complete (b : bool) (s : HybridJoinBatch) :=
  {| batch_size := batch_size s; stream_buffer := stream_buffer s;
     insert_batch := insert_batch s; total_stream_tuples := total_stream_tuples s;
     total_joined_tuples := total_joined_tuples s;
     total_loaded_tuples := total_loaded_tuples s; total_skipped := total_skipped s;
     stream_complete := b; running := running s;
     join_ready := join_ready s; customer_master := customer_master s;
     product_master := product_master s; valid_dates := valid_dates s;
     db_conn := db_conn s |}.

Definition set_running (b : bool) (s : HybridJoinBatch) :=
  {| batch_size := batch_size s; stream_buffer := stream_buffer s;
     insert_batch := insert_batch s; total_stream_tuples := total_stream_tuples s;
     total_joined_tuples := total_joined_tuples s;
     total_loaded_tuples := total_loaded_tuples s; total_skipped := total_skipped s;
     stream_complete := stream_complete s; running := b;
     join_ready := join_ready s; customer_master := customer_master s;
     product_master := product_master s; valid_dates := valid_dates s;
     db_conn := db_conn s |}.

Definition set_join_ready (b : bool) (s : HybridJoinBatch) :=
  {| batch_size := batch_size s; stream_buffer := stream_buffer s;
     insert_batch := insert_batch s; total_stream_tuples := total_stream_tuples s;
     total_joined_tuples := total_joined_tuples s;
     total_loaded_tuples := total_loaded_tuples s; total_skipped := total_skipped s;
     stream_complete := stream_complete s; running := running s;
     join_ready := b; customer_master := customer_master s;
     product_master := product_master s; valid_dates := valid_dates s;
     db_conn := db_conn s |}.

Definition set_db_conn (l : list db_event) (s : HybridJoinBatch) :=
  {| batch_size := batch_size s; stream_buffer := stream_buffer s;
     insert_batch := insert_batch s; total_stream_tuples := total_stream_tuples s;
     total_joined_tuples := total_joined_tuples s;
     total_loaded_tuples := total_loaded_tuples s; total_skipped := total_skipped s;
     stream_complete := stream_complete s; running := running s;
     join_ready := join_ready s; customer_master := customer_master s;
     product_master := product_master s; valid_dates := valid_dates s;
     db_conn := l |}.

(** ** Per-record join chain and batch writer *)

(** The accesses to the reference store the loop body makes for one record,
    in program order. *)
Inductive probe :=
| ProbeCustomer      (* customer_id not in self.customer_master *)
| ProbeProduct       (* product_id not in self.product_master *)
| ParseDate          (* datetime.strptime(...), int(strftime(...)) *)
| ProbeDate.         (* date_id not in self.valid_dates *)

(** How the loop body leaves a popped record: appended to the batch, counted
    as skipped, or an exception that no handler of the loop catches. *)
Inductive join_outcome :=
| Joined (r : JoinedRecord)
| Skipped
| Raised.

(** Lines 229-272 of [hybridjoin_thread]: the lookups, the date conversion
    and the construction of [values], with the probes made on the way.  The
    date conversion sits in a [try] whose bare [except] skips the record;
    [quantity * unit_price] sits in none, and the loop's only handler is for
    [queue.Empty], so its [OverflowError] ends the thread. *)
Definition join_chain (s : HybridJoinBatch) (t : Transaction)
    : list probe * join_outcome :=
  match customer_master s !! customer_id t with
  | None => ([ProbeCustomer], Skipped)
  | Some _ =>
      match product_master s !! product_id t with
      | None => ([ProbeCustomer; ProbeProduct], Skipped)
      | Some product_data =>
          match strptime_ymd (date t) with
          | None => ([ProbeCustomer; ProbeProduct; ParseDate], Skipped)
          | Some ymd =>
              let date_id := date_id_of ymd in
              if bool_decide (date_id ∈ valid_dates s) then
                let unit_price := p_price product_data in
                match int_mul (quantity t) unit_price with
                | None =>
                    ([ProbeCustomer; ProbeProduct; ParseDate; ProbeDate], Raised)
                | Some total_amount =>
                    ([ProbeCustomer; ProbeProduct; ParseDate; ProbeDate],
                     Joined {| j_order_id := order_id t;
                               j_customer_id := customer_id t;
                               j_product_id := product_id t;
                               j_date_id := date_id;
                               j_store_id := p_store_id product_data;
                               j_supplier_id := p_supplier_id product_data;
                               j_quantity := quantity t;
                               j_unit_price := unit_price;
                               j_total_amount := total_amount |})
                end
              else ([ProbeCustomer; ProbeProduct; ParseDate; ProbeDate], Skipped)
          end
      end
  end.

Definition join_record (s : HybridJoinBatch) (t : Transaction) : join_outcome :=
  snd (join_chain s t).

(** [flush_batch].  [db_ok] tells whether [executemany] and [commit] go
    through on the connection; it is consulted only when the batch is not
    empty.  Returns the method's result and the object afterwards. *)
Definition flush_batch (db_ok : bool) (s : HybridJoinBatch) : nat * HybridJoinBatch :=
  match insert_batch s with
  | [] => (0%nat, s)
  | _ :: _ =>
      if db_ok then
        let s1 := set_db_conn (db_conn s ++ [Committed (insert_batch s)]) s in
        let count := length (insert_batch s1) in
        let s2 := set_total_loaded_tuples (total_loaded_tuples s1 + count) s1 in
        (count, set_insert_batch [] s2)
      else
        let s1 := set_db_conn (db_conn s ++ [RolledBack (insert_batch s)]) s in
        (0%nat, set_insert_batch [] s1)
  end.

(** Lines 274-279: append, count, and flush at the threshold. *)
Definition append_joined (r : JoinedRecord) (s : HybridJoinBatch) : HybridJoinBatch :=
  let s1 := set_insert_batch (insert_batch s ++ [r]) s in
  set_total_joined_tuples (total_joined_tuples s1 + 1) s1.

Definition flush_if_full (db_ok : bool) (s : HybridJoinBatch) : HybridJoinBatch :=
  if batch_size s <=? Z.of_nat (length (insert_batch s))
  then snd (flush_batch db_ok s) else s.

(** The loop body for a record [get] returned (lines 229-279); [None] when
    an exception leaves the loop. *)
Definition join_body (db_ok : bool) (t : Transaction) (s : HybridJoinBatch)
    : option HybridJoinBatch :=
  match join_record s t with
  | Skipped => Some (set_total_skipped (total_skipped s + 1) s)
  | Raised => None
  | Joined r => Some (flush_if_full db_ok (append_joined r s))
  end.

(** ** Loading the reference store and reading the feed *)

Section Conversions.

(** Python's [int(text)] and [float(text)]; [None] is the [ValueError]. *)
Variable int_of_str : string -> option Z.
Variable float_of_str : string -> option float.

(** [int(x)] on a cell. *)
Definition py_int (x : cell) : option Z :=
  match x with
  | CInt z => Some z
  | CFloat f => to_int f
  | CStr s => int_of_str s
  end.

(** [float(x)] on a cell. *)
Definition py_float (x : cell) : option float :=
  match x with
  | CInt z => of_int z
  | CFloat f => Some f
  | CStr s => float_of_str s
  end.

(** The dictionary built for one product row (lines 124-131); [None] when
    [float] raises. *)
Definition product_of_row (row : product_row) : option ProductRecord :=
  let product_id := strip (pr_Product_ID row) in
  match (if pd_notna (pr_price row) then py_float (pr_price row) else Some zero) with
  | Some price =>
      Some {| p_product_id := product_id;
              p_product_category := strip (pr_Product_Category row);
              p_price := price;
              p_store_id := strip (pr_storeID row);
              p_supplier_id := strip (pr_supplierID row) |}
  | None => None
  end.

(** The loop over the product rows: [false] when a row raised, with the map
    as filled so far. *)
Fixpoint load_products (rows : list product_row) (m : gmap string ProductRecord)
    : bool * gmap string ProductRecord :=
  match rows with
  | [] => (true, m)
  | row :: rows' =>
      match product_of_row row with
      | Some p => load_products rows' (<[p_product_id p := p]> m)
      | None => (false, m)
      end
  end.

Definition load_customers (rows : list CustomerRecord)
    (m : gmap string CustomerRecord) : gmap string CustomerRecord :=
  foldl (fun m row => <[c_customer_id row := row]> m) m rows.

(** [load_master_data] on the rows of [dim_customer], the [date_id]s of
    [dim_date] and the rows of the product file ([None] when [pd.read_csv]
    raises on it).  Returns the method's result and the object afterwards. *)
Definition load_master_data (customers : list CustomerRecord) (dates : list Z)
    (products : option (list product_row)) (s : HybridJoinBatch)
    : bool * HybridJoinBatch :=
  let cm := load_customers customers (customer_master s) in
  let vd : gset Z := list_to_set dates in
  let '(ok, pm) :=
    match products with
    | Some rows => load_products rows (product_master s)
    | None => (false, product_master s)
    end in
  (ok,
   {| batch_size := batch_size s; stream_buffer := stream_buffer s;
      insert_batch := insert_batch s; total_stream_tuples := total_stream_tuples s;
      total_joined_tuples := total_joined_tuples s;
      total_loaded_tuples := total_loaded_tuples s; total_skipped := total_skipped s;
      stream_complete := stream_complete s; running := running s;
      join_ready := join_ready s; customer_master := cm;
      product_master := pm; valid_dates := vd;
      db_conn := db_conn s |}).

(** Lines 159-165; [None] when [int] raises. *)
Definition transaction_of_row (row : feed_row) : option Transaction :=
  match py_int (f_quantity row) with
  | Some q =>
      Some {| order_id := f_orderID row;
              customer_id := f_Customer_ID row;
              product_id := strip (f_Product_ID row);
              quantity := q;
              date := f_date row |}
  | None => None
  end.

End Conversions.

(** ** The two threads

    [stream_reader_thread] and [hybridjoin_thread] run concurrently on the
    same object.  Each is cut into steps at its accesses to shared
    attributes; a run is an interleaving of such steps, chosen by a schedule,
    together with the interrupt that clears [running]. *)

(** Where [stream_reader_thread] stands, with what is left of the feed. *)
Inductive reader_pc :=
| RWait (f : feed)
    (* self.join_ready.wait(), then pd.read_csv *)
| RNextChunk (cs : list chunk)
    (* for chunk_num, chunk in enumerate(chunk_iterator) *)
| RNextRow (rows : list feed_row) (cs : list chunk)
    (* for _, row in chunk.iterrows() *)
| RPut (t : Transaction) (rows : list feed_row) (cs : list chunk)
    (* self.stream_buffer.put(transaction) *)
| RCount (rows : list feed_row) (cs : list chunk)
    (* self.total_stream_tuples += 1 *)
| RFinally
    (* finally: self.stream_complete = True *)
| RDone.

(** Where [hybridjoin_thread] stands. *)
Inductive join_pc :=
| JStart        (* self.join_ready.set() *)
| JLoop         (* while self.running *)
| JGet          (* self.stream_buffer.get(timeout=0.5) *)
| JExcept       (* except queue.Empty: if self.stream_complete *)
| JCheckEmpty   (* if self.stream_buffer.empty(): break *)
| JFinal        (* the final flush after the loop *)
| JDone         (* the method has returned *)
| JCrashed.     (* an uncaught exception has ended the thread *)

(** The object, the two threads, and the records [get] has returned so far
    (the local counter [processed] is the length of [popped]; no step reads
    it). *)
Record System := {
  self : HybridJoinBatch;
  reader : reader_pc;
  joiner : join_pc;
  popped : list Transaction
}.

Definition processed (σ : System) : nat := length (popped σ).

(** [if self.insert_batch: self.flush_batch()] *)
Definition flush_if_nonempty (db_ok : bool) (s : HybridJoinBatch) : HybridJoinBatch :=
  match insert_batch s with
  | [] => s
  | _ :: _ => snd (flush_batch db_ok s)
  end.

Section Threads.

Variable int_of_str : string -> option Z.

(** One step of [stream_reader_thread]; [None] when it is blocked or has
    returned. *)
Definition stream_reader_thread_step (σ : System) : option System :=
  let s := self σ in
  let goto pc := Some {| self := s; reader := pc; joiner := joiner σ; popped := popped σ |} in
  match reader σ with
  | RWait f =>
      if join_ready s then
        match f with
        | Some cs => goto (RNextChunk cs)
        | None => goto RFinally
        end
      else None
  | RNextChunk [] => goto RFinally
  | RNextChunk (ChunkError :: _) => goto RFinally
  | RNextChunk (ChunkRows rows :: cs) =>
      if running s then goto (RNextRow rows cs) else goto RFinally
  | RNextRow [] cs => goto (RNextChunk cs)
  | RNextRow (row :: rows) cs =>
      if running s then
        match transaction_of_row int_of_str row with
        | Some t => goto (RPut t rows cs)
        | None => goto RFinally
        end
      else goto (RNextChunk cs)
  | RPut t rows cs =>
      if Z.of_nat (length (stream_buffer s)) <? maxsize then
        Some {| self := set_stream_buffer (stream_buffer s ++ [t]) s;
                reader := RCount rows cs; joiner := joiner σ; popped := popped σ |}
      else None
  | RCount rows cs =>
      Some {| self := set_total_stream_tuples (total_stream_tuples s + 1) s;
              reader := RNextRow rows cs; joiner := joiner σ; popped := popped σ |}
  | RFinally =>
      Some {| self := set_stream_complete true s;
              reader := RDone; joiner := joiner σ; popped := popped σ |}
  | RDone => None
  end.

(** One step of [hybridjoin_thread]; [db_ok] is the fate of the database
    transaction, should this step flush.  [None] when the thread has ended. *)
Definition hybridjoin_thread_step (db_ok : bool) (σ : System) : option System :=
  let s := self σ in
  let goto s' pc := Some {| self := s'; reader := reader σ; joiner := pc; popped := popped σ |} in
  match joiner σ with
  | JStart => goto (set_join_ready true s) JLoop
  | JLoop => if running s then goto s JGet else goto s JFinal
  | JGet =>
      match stream_buffer s with
      | t :: q =>
          let s1 := set_stream_buffer q s in
          match join_body db_ok t s1 with
          | Some s2 =>
              Some {| self := s2; reader := reader σ; joiner := JLoop;
                      popped := popped σ ++ [t] |}
          | None =>
              Some {| self := s1; reader := reader σ; joiner := JCrashed;
                      popped := popped σ ++ [t] |}
          end
      | [] => goto s JExcept
      end
  | JExcept =>
      if stream_complete s then goto (flush_if_nonempty db_ok s) JCheckEmpty
      else goto s JLoop
  | JCheckEmpty =>
      match stream_buffer s with
      | [] => goto s JFinal
      | _ :: _ => goto s JLoop
      end
  | JFinal => goto (flush_if_nonempty db_ok s) JDone
  | JDone => None
  | JCrashed => None
  end.

(** What the scheduler and the environment can do next. *)
Inductive action :=
| Reader                   (* the reader thread runs one step *)
| Join (db_ok : bool)      (* the join thread runs one step *)
| Interrupt.               (* KeyboardInterrupt in run: self.running = False *)

Definition step (a : action) (σ : System) : option System :=
  match a with
  | Reader => stream_reader_thread_step σ
  | Join db_ok => hybridjoin_thread_step db_ok σ
  | Interrupt =>
      Some {| self := set_running false (self σ); reader := reader σ;
              joiner := joiner σ; popped := popped σ |}
  end.

(** A run along a schedule; [None] when the schedule asks a thread to move
    that cannot. *)
Fixpoint run_schedule (sched : list action) (σ : System) : option System :=
  match sched with
  | [] => Some σ
  | a :: sched' =>
      match step a σ with
      | Some σ' => run_schedule sched' σ'
      | None => None
      end
  end.

(** The two threads right after [run] has started them on object [s]. *)
Definition start (s : HybridJoinBatch) (f : feed) : System :=
  {| self := s; reader := RWait f; joiner := JStart; popped := [] |}.

(** The transactions the reader enqueues when it is left to run: the rows in
    feed order up to the first row or chunk that raises. *)
Fixpoint rows_transactions (rows : list feed_row) : list Transaction * bool :=
  match rows with
  | [] => ([], true)
  | row :: rows' =>
      match transaction_of_row int_of_str row with
      | Some t => let '(ts, ok) := rows_transactions rows' in (t :: ts, ok)
      | None => ([], false)
      end
  end.

Fixpoint chunks_transactions (cs : list chunk) : list Transaction :=
  match cs with
  | [] => []
  | ChunkError :: _ => []
  | ChunkRows rows :: cs' =>
      let '(ts, ok) := rows_transactions rows in
      if ok then ts ++ chunks_transactions cs' else ts
  end.

Definition reader_transactions (f : feed) : list Transaction :=
  match f with
  | Some cs => chunks_transactions cs
  | None => []
  end.

(** What the reader at [pc] has still to enqueue when it is left to run. *)
Definition pending (pc : reader_pc) : list Transaction :=
  match pc with
  | RWait f => reader_transactions f
  | RNextChunk cs => chunks_transactions cs
  | RNextRow rows cs => chunks_transactions (ChunkRows rows :: cs)
  | RPut t rows cs => t :: chunks_transactions (ChunkRows rows :: cs)
  | RCount rows cs => chunks_transactions (ChunkRows rows :: cs)
  | RFinally => []
  | RDone => []
  end.

End Threads.

(** The records the join chain turns a list of transactions into. *)
Definition joined_records (s : HybridJoinBatch) (ts : list Transaction)
    : list JoinedRecord :=
  flat_map (fun t => match join_record s t with Joined r => [r] | _ => [] end) ts.

Definition is_joined (o : join_outcome) : bool :=
  match o with Joined _ => true | _ => false end.
Definition is_skipped (o : join_outcome) : bool :=
  match o with Skipped => true | _ => false end.
Definition is_raised (o : join_outcome) : bool :=
  match o with Raised => true | _ => false end.

Definition count_outcome (p : join_outcome -> bool) (s : HybridJoinBatch)
    (ts : list Transaction) : nat :=
  length (filter (fun t => p (join_record s t) = true) ts).

(** The order of the probes of a record that passes every test. *)
Definition all_probes : list probe :=
  [ProbeCustomer; ProbeProduct; ParseDate; ProbeDate].

(** The transaction in flight between its construction and its [put]. *)
Definition inflight (pc : reader_pc) : list Transaction :=
  match pc with
  | RPut t _ _ => [t]
  | _ => []
  end.

Definition counting (pc : reader_pc) : nat :=
  match pc with
  | RCount _ _ => 1%nat
  | _ => 0%nat
  end.

Definition returned (pc : reader_pc) : bool :=
  match pc with
  | RDone => true
  | _ => false
  end.

Definition crashed (pc : join_pc) : nat :=
  match pc with
  | JCrashed => 1%nat
  | _ => 0%nat
  end.

(** The join thread is past its loop: by the [while] test or the [break],
    after which it runs the final flush and returns, or by an exception that
    no handler catches. *)
Definition left_loop (pc : join_pc) : bool :=
  match pc with
  | JFinal | JDone | JCrashed => true
  | _ => false
  end.

(** ** The specification's wording, for comparison *)

(** What the specification says of a valid transaction: a transaction whose
    three keys are present is turned into a record whose total is quantity
    times unit price. *)
Definition valid_transaction_joins (s : HybridJoinBatch) (t : Transaction) : Prop :=
  forall p ymd,
    is_Some (customer_master s !! customer_id t) ->
    product_master s !! product_id t = Some p ->
    strptime_ymd (date t) = Some ymd ->
    date_id_of ymd ∈ valid_dates s ->
    exists r, join_record s t = Joined r /\
              int_mul (quantity t) (p_price p) = Some (j_total_amount r).

(** The transactions of a reader that skips: a malformed row (and a chunk
    that cannot be read) is left out and the remaining rows are read. *)
Definition skipping_transactions (int_of_str : string -> option Z) (fd : feed)
    : list Transaction :=
  match fd with
  | Some cs =>
      flat_map (fun c => match c with
                         | ChunkRows rows => omap (transaction_of_row int_of_str) rows
                         | ChunkError => []
                         end) cs
  | None => []
  end.

(** What the specification says of the reader: when it has returned from a
    run that was not interrupted, every row that parses has been enqueued. *)
Definition malformed_rows_are_skipped (int_of_str : string -> option Z)
    (s : HybridJoinBatch) (fd : feed) : Prop :=
  forall sched σ,
    run_schedule int_of_str sched (start s fd) = Some σ ->
    reader σ = RDone -> running (self σ) = true ->
    popped σ ++ stream_buffer (self σ) = skipping_transactions int_of_str fd.

(** What the specification says of the counters: whatever record is popped,
    one of the two counters goes up by one. *)
Definition every_pop_is_counted (σ : System) : Prop :=
  forall db_ok t q σ',
    joiner σ = JGet -> stream_buffer (self σ) = t :: q ->
    hybridjoin_thread_step db_ok σ = Some σ' ->
    (total_joined_tuples (self σ') = (total_joined_tuples (self σ) + 1)%nat /\
     total_skipped (self σ') = total_skipped (self σ)) \/
    (total_joined_tuples (self σ') = total_joined_tuples (self σ) /\
     total_skipped (self σ') = (total_skipped (self σ) + 1)%nat).

(** What the specification says of the counters at the end: when the
    stream is drained, the reader has returned and the channel is empty,
    everything read is counted as joined or as skipped. *)
Definition drained_run_is_counted (σ : System) : Prop :=
  reader σ = RDone -> stream_buffer (self σ) = [] ->
  (joiner σ = JDone \/ joiner σ = JCrashed) ->
  total_stream_tuples (self σ) =
  (total_joined_tuples (self σ) + total_skipped (self σ))%nat.

(** What the specification says of the end of the loop: absent a
    cancellation, a step of the join thread leaves the loop only at an
    observation at which the completion flag is true and the channel is
    empty; and once the thread has ended no joined record is left in the
    accumulator. *)
Definition loop_ends_at_a_drained_observation (σ : System) : Prop :=
  forall db_ok σ',
    running (self σ) = true ->
    hybridjoin_thread_step db_ok σ = Some σ' ->
    left_loop (joiner σ) = false -> left_loop (joiner σ') = true ->
    stream_complete (self σ) = true /\ stream_buffer (self σ) = [].

Definition nothing_left_unflushed (σ : System) : Prop :=
  joiner σ = JDone \/ joiner σ = JCrashed -> insert_batch (self σ) = [].


(** * Properties *)

(** ** Rounding an integer never gives NaN *)

Lemma shr_1_nonneg mrs : 0 <= shr_m mrs -> 0 <= shr_m (shr_1 mrs).
Proof.
  destruct mrs as [m r s]. simpl. destruct m as [|p|p]; simpl; try lia.
  - destruct p; simpl; lia.
Qed.

Lemma iter_pos_shr_1_nonneg p mrs :
  0 <= shr_m mrs -> 0 <= shr_m (SpecFloat.iter_pos shr_1 p mrs).
Proof.
  revert mrs. induction p as [p IH|p IH|]; simpl; intros mrs H.
  - apply IH, IH, shr_1_nonneg, H.
  - apply IH, IH, H.
  - apply shr_1_nonneg, H.
Qed.

Lemma shr_fexp_nonneg prec emax m e l :
  0 <= m -> 0 <= shr_m (fst (shr_fexp prec emax m e l)).
Proof.
  intros H. unfold shr_fexp, shr.
  assert (0 <= shr_m (shr_record_of_loc m l)) by (destruct l as [|[]]; exact H).
  destruct (fexp prec emax (Zdigits2 m + e) - e); simpl; try assumption.
  apply iter_pos_shr_1_nonneg. assumption.
Qed.

Lemma round_nearest_even_nonneg m l : 0 <= m -> 0 <= round_nearest_even m l.
Proof.
  intros H. unfold round_nearest_even. destruct l as [|[]]; try lia.
  destruct (Z.even m); lia.
Qed.

Lemma binary_round_aux_not_nan prec emax sx mx ex lx :
  0 <= mx -> binary_round_aux prec emax sx mx ex lx <> S754_nan.
Proof.
  intros H. unfold binary_round_aux.
  pose proof (shr_fexp_nonneg prec emax mx ex lx H) as H1.
  destruct (shr_fexp prec emax mx ex lx) as [mrs' e']. simpl in H1.
  pose proof (shr_fexp_nonneg prec emax
                (round_nearest_even (shr_m mrs') (loc_of_shr_record mrs')) e' loc_Exact
                (round_nearest_even_nonneg _ _ H1)) as H2.
  destruct (shr_fexp prec emax _ e' loc_Exact) as [mrs'' e'']. simpl in H2.
  destruct (shr_m mrs'') as [|p|p]; try discriminate.
  - destruct (e'' <=? emax - prec); discriminate.
  - lia.
Qed.

Lemma binary_normalize_not_nan prec emax m e szero :
  binary_normalize prec emax m e szero <> S754_nan.
Proof.
  unfold binary_normalize, binary_round. destruct m as [|p|p]; try discriminate.
  - destruct (shl_align p e _) as [mz ez]. apply binary_round_aux_not_nan. lia.
  - destruct (shl_align p e _) as [mz ez]. apply binary_round_aux_not_nan. lia.
Qed.

(** ** The batch writer *)

Lemma flush_batch_clears db_ok s : insert_batch (snd (flush_batch db_ok s)) = [].
Proof.
  unfold flush_batch. destruct (insert_batch s) eqn:E; [exact E|].
  destruct db_ok; reflexivity.
Qed.

Lemma flush_if_nonempty_eq db_ok s : flush_if_nonempty db_ok s = snd (flush_batch db_ok s).
Proof.
  unfold flush_if_nonempty, flush_batch. destruct (insert_batch s); reflexivity.
Qed.

Lemma flush_if_nonempty_clears db_ok s : insert_batch (flush_if_nonempty db_ok s) = [].
Proof. rewrite flush_if_nonempty_eq. apply flush_batch_clears. Qed.

Lemma flushed_app l1 l2 : flushed (l1 ++ l2) = flushed l1 ++ flushed l2.
Proof. unfold flushed. rewrite map_app, concat_app. reflexivity. Qed.

Lemma fact_sales_app l1 l2 : fact_sales (l1 ++ l2) = fact_sales l1 ++ fact_sales l2.
Proof. unfold fact_sales. rewrite map_app, concat_app. reflexivity. Qed.

(** A flush moves the batch to the connection and touches nothing else that
    the join reads. *)
Lemma flush_batch_effect db_ok s :
  let s' := snd (flush_batch db_ok s) in
  flushed (db_conn s') = flushed (db_conn s) ++ insert_batch s /\
  fact_sales (db_conn s') =
    fact_sales (db_conn s) ++ (if db_ok then insert_batch s else []) /\
  total_loaded_tuples s' =
    (total_loaded_tuples s + (if db_ok then length (insert_batch s) else 0))%nat /\
  batch_size s' = batch_size s /\ stream_buffer s' = stream_buffer s /\
  total_stream_tuples s' = total_stream_tuples s /\
  total_joined_tuples s' = total_joined_tuples s /\
  total_skipped s' = total_skipped s /\
  stream_complete s' = stream_complete s /\ running s' = running s /\
  join_ready s' = join_ready s /\ customer_master s' = customer_master s /\
  product_master s' = product_master s /\ valid_dates s' = valid_dates s.
Proof.
  destruct s as [bs q b]; unfold flush_batch; simpl.
  destruct b as [|r b]; simpl.
  - destruct db_ok; repeat split; rewrite ?app_nil_r; try done; lia.
  - destruct db_ok; simpl; rewrite flushed_app, fact_sales_app;
      repeat split; unfold flushed, fact_sales; simpl;
      rewrite ?app_nil_r; try done; lia.
Qed.

(** C9.  Calling [flush_batch] with an empty [insert_batch] returns 0 and
    leaves the object as it was: the loaded counter, the accumulator and the
    connection (no database operation is recorded), whatever the database
    would have answered. *)
Theorem flush_batch_empty_is_noop (db_ok : bool) (s : HybridJoinBatch) :
  insert_batch s = [] ->
  flush_batch db_ok s = (0%nat, s) /\
  total_loaded_tuples (snd (flush_batch db_ok s)) = total_loaded_tuples s /\
  insert_batch (snd (flush_batch db_ok s)) = insert_batch s /\
  db_conn (snd (flush_batch db_ok s)) = db_conn s.
Proof.
  intros E. unfold flush_batch. rewrite E. simpl. rewrite E. auto.
Qed.

(** ** The join chain *)

Lemma join_chain_store s s' t :
  customer_master s' = customer_master s ->
  product_master s' = product_master s ->
  valid_dates s' = valid_dates s ->
  join_chain s' t = join_chain s t.
Proof. unfold join_chain. intros -> -> ->. reflexivity. Qed.

Lemma join_record_store s s' t :
  customer_master s' = customer_master s ->
  product_master s' = product_master s ->
  valid_dates s' = valid_dates s ->
  join_record s' t = join_record s t.
Proof. intros. unfold join_record. f_equal. by apply join_chain_store. Qed.

(** C6.  The chain probes the customer map, then the product map, then
    parses the date and probes the valid-date set, and stops at the first
    failure: after a customer miss nothing else is probed, after a product
    miss the date is not looked at, and a date that does not parse and a date
    missing from the set both end in the same outcome, [Skipped]. *)
Theorem join_chain_short_circuits (s : HybridJoinBatch) (t : Transaction) :
  fst (join_chain s t) `prefix_of` all_probes /\
  (customer_master s !! customer_id t = None ->
     join_chain s t = ([ProbeCustomer], Skipped)) /\
  (is_Some (customer_master s !! customer_id t) ->
   product_master s !! product_id t = None ->
     join_chain s t = ([ProbeCustomer; ProbeProduct], Skipped)) /\
  (is_Some (customer_master s !! customer_id t) ->
   is_Some (product_master s !! product_id t) ->
   strptime_ymd (date t) = None ->
     join_chain s t = ([ProbeCustomer; ProbeProduct; ParseDate], Skipped)) /\
  (is_Some (customer_master s !! customer_id t) ->
   is_Some (product_master s !! product_id t) ->
   forall ymd, strptime_ymd (date t) = Some ymd ->
   date_id_of ymd ∉ valid_dates s ->
     join_chain s t = (all_probes, Skipped)) /\
  (join_record s t <> Skipped -> fst (join_chain s t) = all_probes).
Proof.
  unfold join_record, join_chain, all_probes.
  destruct (customer_master s !! customer_id t) as [c|] eqn:Ec.
  2:{ split; [by exists [ProbeProduct; ParseDate; ProbeDate]|].
      repeat split; try done; intros [? ?]; done. }
  destruct (product_master s !! product_id t) as [p|] eqn:Ep.
  2:{ split; [by exists [ParseDate; ProbeDate]|].
      repeat split; try done; intros _ [? ?]; done. }
  destruct (strptime_ymd (date t)) as [ymd|] eqn:Ed.
  2:{ split; [by exists [ProbeDate]|]. repeat split; try done. }
  case_bool_decide as Hin.
  - destruct (int_mul (quantity t) (p_price p)); simpl;
      (split; [by exists []|]); repeat split; try done;
      intros _ _ ymd' [= <-] Hn; done.
  - split; [by exists []|]. repeat split; try done.
Qed.

Lemma append_joined_store r s :
  customer_master (append_joined r s) = customer_master s /\
  product_master (append_joined r s) = product_master s /\
  valid_dates (append_joined r s) = valid_dates s /\
  batch_size (append_joined r s) = batch_size s.
Proof. done. Qed.

Lemma flush_if_full_effect db_ok s :
  let s' := flush_if_full db_ok s in
  flushed (db_conn s') ++ insert_batch s' = flushed (db_conn s) ++ insert_batch s /\
  batch_size s' = batch_size s /\ stream_buffer s' = stream_buffer s /\
  total_stream_tuples s' = total_stream_tuples s /\
  total_joined_tuples s' = total_joined_tuples s /\
  total_skipped s' = total_skipped s /\
  stream_complete s' = stream_complete s /\ running s' = running s /\
  join_ready s' = join_ready s /\ customer_master s' = customer_master s /\
  product_master s' = product_master s /\ valid_dates s' = valid_dates s.
Proof.
  unfold flush_if_full.
  destruct (batch_size s <=? Z.of_nat (length (insert_batch s))); [|done].
  pose proof (flush_batch_effect db_ok s) as H. simpl in H.
  destruct H as (Hf & _ & _ & H). simpl.
  rewrite flush_batch_clears, app_nil_r. split; [exact Hf|]. tauto.
Qed.

(** C5.  A flush of a non-empty batch that fails returns 0, leaves the
    loaded counter and the committed rows as they were, has attempted the
    rollback, and empties the accumulator; the accumulator is empty after
    every call of [flush_batch], the loop body that ran the failed flush does
    not raise, and a record appended afterwards is committed by the next
    successful flush. *)
Theorem flush_batch_failure_discards (s : HybridJoinBatch) :
  insert_batch s <> [] ->
  fst (flush_batch false s) = 0%nat /\
  total_loaded_tuples (snd (flush_batch false s)) = total_loaded_tuples s /\
  insert_batch (snd (flush_batch false s)) = [] /\
  db_conn (snd (flush_batch false s)) = db_conn s ++ [RolledBack (insert_batch s)] /\
  fact_sales (db_conn (snd (flush_batch false s))) = fact_sales (db_conn s) /\
  (forall db_ok s0, insert_batch (snd (flush_batch db_ok s0)) = []) /\
  (forall t s0, join_record s0 t <> Raised -> is_Some (join_body false t s0)) /\
  (forall r,
     let s1 := append_joined r (snd (flush_batch false s)) in
     fst (flush_batch true s1) = 1%nat /\
     fact_sales (db_conn (snd (flush_batch true s1))) = fact_sales (db_conn s) ++ [r] /\
     total_loaded_tuples (snd (flush_batch true s1)) = (total_loaded_tuples s + 1)%nat).
Proof.
  intros Hne.
  assert (Hcl : forall db_ok s0, insert_batch (snd (flush_batch db_ok s0)) = [])
    by (intros; apply flush_batch_clears).
  assert (Hf : flush_batch false s =
               (0%nat, set_insert_batch []
                         (set_db_conn (db_conn s ++ [RolledBack (insert_batch s)]) s))).
  { unfold flush_batch. destruct (insert_batch s); [done|reflexivity]. }
  rewrite Hf. simpl.
  repeat split; try done.
  - rewrite fact_sales_app. unfold fact_sales at 2. simpl. by rewrite app_nil_r.
  - intros t s0 Hr. unfold join_body. destruct (join_record s0 t); eauto. done.
  - rewrite fact_sales_app, fact_sales_app. unfold fact_sales at 2 3. simpl.
    by rewrite !app_nil_r.
Qed.

(** C1, amended.  A transaction whose customer id and product id are keys of
    the two maps, whose date parses to a member of the valid-date set, and
    whose quantity times the unit price can be computed (the quantity fits a
    float) is joined: the chain yields exactly one record, its total is that
    product, and the loop body adds this one record, and nothing else, to
    what is accumulated or handed to the connection, counting it as joined. *)
Theorem join_valid_transaction (s : HybridJoinBatch) (t : Transaction)
    (p : ProductRecord) (ymd : Z * Z * Z) (total : float) :
  is_Some (customer_master s !! customer_id t) ->
  product_master s !! product_id t = Some p ->
  strptime_ymd (date t) = Some ymd ->
  date_id_of ymd ∈ valid_dates s ->
  int_mul (quantity t) (p_price p) = Some total ->
  exists r,
    join_record s t = Joined r /\
    joined_records s [t] = [r] /\
    j_total_amount r = total /\
    j_unit_price r = p_price p /\ j_quantity r = quantity t /\
    j_date_id r = date_id_of ymd /\ j_order_id r = order_id t /\
    forall db_ok, exists s',
      join_body db_ok t s = Some s' /\
      flushed (db_conn s') ++ insert_batch s' =
        flushed (db_conn s) ++ insert_batch s ++ [r] /\
      total_joined_tuples s' = (total_joined_tuples s + 1)%nat /\
      total_skipped s' = total_skipped s.
Proof.
  intros [c Hc] Hp Hd Hv Hm.
  assert (Hj : join_record s t =
    Joined {| j_order_id := order_id t; j_customer_id := customer_id t;
              j_product_id := product_id t; j_date_id := date_id_of ymd;
              j_store_id := p_store_id p; j_supplier_id := p_supplier_id p;
              j_quantity := quantity t; j_unit_price := p_price p;
              j_total_amount := total |}).
  { unfold join_record, join_chain. rewrite Hc, Hp, Hd.
    rewrite bool_decide_true by done. rewrite Hm. reflexivity. }
  eexists. split; [exact Hj|].
  unfold joined_records. simpl. rewrite Hj. simpl.
  repeat split; try done.
  intros db_ok. unfold join_body. rewrite Hj. eexists. split; [reflexivity|].
  pose proof (flush_if_full_effect db_ok (append_joined
    {| j_order_id := order_id t; j_customer_id := customer_id t;
       j_product_id := product_id t; j_date_id := date_id_of ymd;
       j_store_id := p_store_id p; j_supplier_id := p_supplier_id p;
       j_quantity := quantity t; j_unit_price := p_price p;
       j_total_amount := total |} s)) as H.
  simpl in H. destruct H as (H1 & _ & _ & _ & H2 & H3 & _).
  rewrite H1, H2, H3. done.
Qed.

Lemma flush_batch_loaded db_ok s :
  total_loaded_tuples s = length (fact_sales (db_conn s)) ->
  total_loaded_tuples (snd (flush_batch db_ok s)) =
  length (fact_sales (db_conn (snd (flush_batch db_ok s)))).
Proof.
  intros H. pose proof (flush_batch_effect db_ok s) as E. simpl in E.
  destruct E as (_ & -> & -> & _). rewrite length_app, H.
  destruct db_ok; simpl; lia.
Qed.

Lemma flush_if_nonempty_loaded db_ok s :
  total_loaded_tuples s = length (fact_sales (db_conn s)) ->
  total_loaded_tuples (flush_if_nonempty db_ok s) =
  length (fact_sales (db_conn (flush_if_nonempty db_ok s))).
Proof. rewrite flush_if_nonempty_eq. apply flush_batch_loaded. Qed.

Lemma flush_if_full_loaded db_ok s :
  total_loaded_tuples s = length (fact_sales (db_conn s)) ->
  total_loaded_tuples (flush_if_full db_ok s) =
  length (fact_sales (db_conn (flush_if_full db_ok s))).
Proof.
  unfold flush_if_full.
  destruct (batch_size s <=? Z.of_nat (length (insert_batch s))); [|done].
  apply flush_batch_loaded.
Qed.

(** After the threshold test the accumulator is below a positive threshold. *)
Lemma flush_if_full_bound db_ok s :
  0 < batch_size s ->
  Z.of_nat (length (insert_batch (flush_if_full db_ok s))) < batch_size s.
Proof.
  intros Hpos. unfold flush_if_full.
  destruct (batch_size s <=? Z.of_nat (length (insert_batch s))) eqn:E.
  - rewrite flush_batch_clears. simpl. lia.
  - lia.
Qed.

Lemma flush_if_nonempty_effect db_ok s :
  let s' := flush_if_nonempty db_ok s in
  flushed (db_conn s') ++ insert_batch s' = flushed (db_conn s) ++ insert_batch s /\
  batch_size s' = batch_size s /\ stream_buffer s' = stream_buffer s /\
  total_stream_tuples s' = total_stream_tuples s /\
  total_joined_tuples s' = total_joined_tuples s /\
  total_skipped s' = total_skipped s /\
  stream_complete s' = stream_complete s /\ running s' = running s /\
  join_ready s' = join_ready s /\ customer_master s' = customer_master s /\
  product_master s' = product_master s /\ valid_dates s' = valid_dates s.
Proof.
  simpl. rewrite flush_if_nonempty_eq.
  pose proof (flush_batch_effect db_ok s) as H. simpl in H.
  destruct H as (Hf & _ & _ & H).
  rewrite flush_batch_clears, app_nil_r. split; [exact Hf|]. tauto.
Qed.

(** ** Runs of the two threads *)

Lemma count_outcome_snoc p s ts t :
  count_outcome p s (ts ++ [t]) =
  (count_outcome p s ts + (if p (join_record s t) then 1 else 0))%nat.
Proof.
  unfold count_outcome. rewrite filter_app, length_app. f_equal.
  rewrite filter_cons, filter_nil. case_decide as E.
  - rewrite E. reflexivity.
  - destruct (p (join_record s t)); [done|reflexivity].
Qed.

Lemma joined_records_snoc s ts t :
  joined_records s (ts ++ [t]) =
  joined_records s ts ++ match join_record s t with Joined r => [r] | _ => [] end.
Proof.
  unfold joined_records. rewrite flat_map_app. simpl. by rewrite app_nil_r.
Qed.

Lemma joined_records_app s ts1 ts2 :
  joined_records s (ts1 ++ ts2) = joined_records s ts1 ++ joined_records s ts2.
Proof. unfold joined_records. apply flat_map_app. Qed.

Lemma count_outcome_total s ts :
  length ts =
  (count_outcome is_joined s ts + count_outcome is_skipped s ts
   + count_outcome is_raised s ts)%nat.
Proof.
  induction ts as [|t ts IH] using rev_ind; [done|].
  rewrite !count_outcome_snoc, length_app. simpl.
  destruct (join_record s t); simpl; lia.
Qed.

Lemma joined_records_length s ts :
  length (joined_records s ts) = count_outcome is_joined s ts.
Proof.
  induction ts as [|t ts IH] using rev_ind; [done|].
  rewrite joined_records_snoc, count_outcome_snoc, length_app, IH.
  destruct (join_record s t); simpl; lia.
Qed.

Section Runs.

Variable int_of_str : string -> option Z.
Variable bs : Z.
Variable cm : gmap string CustomerRecord.
Variable pm : gmap string ProductRecord.
Variable vd : gset Z.
Variable f : feed.

(** The object as [run] hands it to the threads. *)
Definition s0 : HybridJoinBatch := new_HybridJoinBatch bs cm pm vd.

Definition reachable (σ : System) : Prop :=
  exists sched, run_schedule int_of_str sched (start s0 f) = Some σ.

Lemma chunks_transactions_cons_some row rows cs t :
  transaction_of_row int_of_str row = Some t ->
  chunks_transactions int_of_str (ChunkRows (row :: rows) :: cs) =
  t :: chunks_transactions int_of_str (ChunkRows rows :: cs).
Proof.
  intros H. simpl. rewrite H.
  destruct (rows_transactions int_of_str rows) as [ts [|]]; reflexivity.
Qed.

Lemma chunks_transactions_cons_none row rows cs :
  transaction_of_row int_of_str row = None ->
  chunks_transactions int_of_str (ChunkRows (row :: rows) :: cs) = [].
Proof. intros H. simpl. rewrite H. reflexivity. Qed.

(** The invariant of every run. *)
Record Inv (σ : System) : Prop := {
  inv_store :
    batch_size (self σ) = bs /\ customer_master (self σ) = cm /\
    product_master (self σ) = pm /\ valid_dates (self σ) = vd;
  inv_prefix :
    exists rest,
      popped σ ++ stream_buffer (self σ) ++ inflight (reader σ) ++ rest =
      reader_transactions int_of_str f;
  inv_pending :
    running (self σ) = true ->
    popped σ ++ stream_buffer (self σ) ++ pending int_of_str (reader σ) =
    reader_transactions int_of_str f;
  inv_joined :
    total_joined_tuples (self σ) = count_outcome is_joined s0 (popped σ);
  inv_skipped :
    total_skipped (self σ) = count_outcome is_skipped s0 (popped σ);
  inv_raised :
    count_outcome is_raised s0 (popped σ) = crashed (joiner σ);
  inv_output :
    flushed (db_conn (self σ)) ++ insert_batch (self σ) =
    joined_records s0 (popped σ);
  inv_loaded :
    total_loaded_tuples (self σ) = length (fact_sales (db_conn (self σ)));
  inv_read :
    (total_stream_tuples (self σ) + counting (reader σ))%nat =
    length (popped σ ++ stream_buffer (self σ));
  inv_complete :
    stream_complete (self σ) = returned (reader σ);
  inv_check :
    joiner σ = JCheckEmpty ->
    stream_complete (self σ) = true /\ insert_batch (self σ) = [];
  inv_exit :
    joiner σ = JFinal \/ joiner σ = JDone ->
    running (self σ) = true ->
    stream_complete (self σ) = true /\ stream_buffer (self σ) = [] /\
    insert_batch (self σ) = [];
  inv_done :
    joiner σ = JDone -> insert_batch (self σ) = [];
  inv_bound :
    0 < bs -> Z.of_nat (length (insert_batch (self σ))) < bs;
  inv_capacity :
    Z.of_nat (length (stream_buffer (self σ))) <= maxsize
}.

Lemma Inv_start : Inv (start s0 f).
Proof.
  constructor; simpl; try done.
  - exists (reader_transactions int_of_str f). done.
  - intros [|]; done.
Qed.

Lemma rows_transactions_abort rows1 bad rows2 :
  transaction_of_row int_of_str bad = None ->
  rows_transactions int_of_str (rows1 ++ bad :: rows2) =
  (fst (rows_transactions int_of_str rows1), false).
Proof.
  intros Hbad. induction rows1 as [|row rows1 IH]; simpl.
  - by rewrite Hbad.
  - destruct (transaction_of_row int_of_str row); [|done].
    rewrite IH. by destruct (rows_transactions int_of_str rows1).
Qed.

Lemma rows_transactions_all rows :
  snd (rows_transactions int_of_str rows) = true ->
  fst (rows_transactions int_of_str rows) = omap (transaction_of_row int_of_str) rows.
Proof.
  induction rows as [|row rows IH]; simpl; [done|].
  destruct (transaction_of_row int_of_str row); [|done].
  destruct (rows_transactions int_of_str rows) as [ts ok]. simpl in *.
  intros ->. by rewrite IH.
Qed.

(** Nothing after the first malformed row of a chunk is enqueued. *)
Lemma chunks_transactions_abort rows1 bad rows2 cs :
  transaction_of_row int_of_str bad = None ->
  chunks_transactions int_of_str (ChunkRows (rows1 ++ bad :: rows2) :: cs) =
  fst (rows_transactions int_of_str rows1).
Proof.
  intros Hbad. unfold chunks_transactions.
  by rewrite rows_transactions_abort.
Qed.

Lemma chunks_transactions_abort_in cs1 rows1 bad rows2 cs2 :
  transaction_of_row int_of_str bad = None ->
  chunks_transactions int_of_str (cs1 ++ ChunkRows (rows1 ++ bad :: rows2) :: cs2) =
  chunks_transactions int_of_str (cs1 ++ [ChunkRows rows1]).
Proof.
  intros Hbad. induction cs1 as [|c cs1 IH].
  - rewrite !app_nil_l, chunks_transactions_abort by done. simpl.
    destruct (rows_transactions int_of_str rows1) as [ts [|]]; simpl;
      by rewrite ?app_nil_r.
  - simpl. destruct c as [rows|]; [|done].
    destruct (rows_transactions int_of_str rows) as [ts [|]]; [|done].
    by rewrite IH.
Qed.

(** When every row parses and every chunk is read, the reader enqueues all
    rows. *)
Lemma chunks_transactions_all cs :
  Forall (fun c => match c with
                   | ChunkRows rows =>
                       Forall (fun row => is_Some (transaction_of_row int_of_str row)) rows
                   | ChunkError => False
                   end) cs ->
  chunks_transactions int_of_str cs = skipping_transactions int_of_str (Some cs).
Proof.
  induction 1 as [|c cs Hc _ IH]; [done|].
  destruct c as [rows|]; [|done]. simpl in *. rewrite <- IH. clear IH.
  assert (rows_transactions int_of_str rows =
          (omap (transaction_of_row int_of_str) rows, true)) as ->; [|done].
  induction Hc as [|row rows [t Ht] _ IH]; [done|].
  simpl. by rewrite Ht, IH.
Qed.

Arguments chunks_transactions : simpl never.

Ltac close_inv :=
  try done; try tauto; try (intros; congruence);
  try (intros [?|?]; congruence); try (simpl in *; lia).

Lemma Inv_reader_step σ σ' :
  Inv σ -> stream_reader_thread_step int_of_str σ = Some σ' -> Inv σ'.
Proof.
  intros I Hs. destruct σ as [s rpc jpc pop]. destruct I; simpl in *.
  unfold stream_reader_thread_step in Hs; simpl in Hs.
  destruct rpc as [fd|cs|rows cs|t rows cs|rows cs| |].
  - (* RWait *)
    destruct (join_ready s); [|done].
    destruct fd as [cs|]; simplify_eq; constructor; simpl; close_inv.
  - destruct cs as [|[rows|] cs]; [| destruct (running s) eqn:Er |];
      simplify_eq; constructor; simpl in *; close_inv.
  - destruct rows as [|row rows].
    { simplify_eq; constructor; simpl in *; close_inv. }
    destruct (running s) eqn:Er.
    + destruct (transaction_of_row int_of_str row) as [t|] eqn:Et; simplify_eq.
      * constructor; simpl in *; close_inv.
        -- exists (chunks_transactions int_of_str (ChunkRows rows :: cs)).
           rewrite <- inv_pending0 by done.
           erewrite chunks_transactions_cons_some by done. done.
        -- intros _. rewrite <- inv_pending0 by done.
           erewrite chunks_transactions_cons_some by done. done.
      * constructor; simpl in *; close_inv.
        intros _. rewrite <- inv_pending0 by done.
        erewrite chunks_transactions_cons_none by done. done.
    + simplify_eq. constructor; simpl in *; close_inv.
  - destruct (Z.of_nat (length (stream_buffer s)) <? maxsize) eqn:El; simplify_eq.
    constructor; simpl in *; close_inv.
    + destruct inv_prefix0 as [rest Hr]. exists rest. rewrite <- Hr.
      by rewrite <- !app_assoc.
    + intros Hrun. rewrite <- inv_pending0 by done. by rewrite <- !app_assoc.
    + rewrite !length_app in *. simpl. lia.
    + intros Hj Hrun. destruct (inv_exit0 Hj Hrun) as [Hc _]. congruence.
    + rewrite length_app. simpl. lia.
  - simplify_eq. constructor; simpl in *; close_inv.
  - simplify_eq. constructor; simpl in *; close_inv.
  - done.
Qed.

Lemma join_record_s0 s t :
  customer_master s = cm -> product_master s = pm -> valid_dates s = vd ->
  join_record s t = join_record s0 t.
Proof. intros. by apply join_record_store. Qed.

Lemma Inv_joiner_step db_ok σ σ' :
  Inv σ -> hybridjoin_thread_step db_ok σ = Some σ' -> Inv σ'.
Proof.
  intros I Hs. destruct σ as [s rpc jpc pop]. destruct I; simpl in *.
  unfold hybridjoin_thread_step in Hs; simpl in Hs.
  destruct inv_store0 as (Hbs & Hcm & Hpm & Hvd).
  destruct jpc.
  - simplify_eq. constructor; simpl in *; close_inv.
  - destruct (running s) eqn:Er; simplify_eq; constructor; simpl in *; close_inv.
  - destruct (stream_buffer s) as [|t q] eqn:Eq.
    { simplify_eq. constructor; simpl in *; rewrite ?Eq; close_inv. }
    unfold join_body in Hs.
    rewrite (join_record_s0 (set_stream_buffer q s) t) in Hs by done.
    destruct (join_record s0 t) as [r| |] eqn:Ej; simplify_eq.
    + pose proof (flush_if_full_effect db_ok (append_joined r (set_stream_buffer q s))) as H.
      simpl in H. destruct H as (H1 & H2 & H3 & H4 & H5 & H6 & H7 & H8 & H9 & H10 & H11 & H12).
      constructor; simpl in *; rewrite ?H2, ?H3, ?H4, ?H5, ?H6, ?H7, ?H8, ?H9, ?H10, ?H11, ?H12;
        rewrite ?count_outcome_snoc, ?joined_records_snoc, ?Ej; simpl; close_inv.
      * destruct inv_prefix0 as [rest Hr]. exists rest. rewrite <- Hr.
        by rewrite <- !app_assoc.
      * intros Hrun. rewrite <- inv_pending0 by done. by rewrite <- !app_assoc.
      * rewrite H1. simpl. rewrite app_assoc. by rewrite inv_output0.
      * by apply flush_if_full_loaded.
      * rewrite !length_app in *. simpl in *. lia.
      * intros Hpos. rewrite <- Hbs.
        apply (flush_if_full_bound db_ok (append_joined r (set_stream_buffer q s))).
        simpl. lia.
    + constructor; simpl in *;
        rewrite ?count_outcome_snoc, ?joined_records_snoc, ?Ej; simpl;
        rewrite ?app_nil_r; close_inv.
      * destruct inv_prefix0 as [rest Hr]. exists rest. rewrite <- Hr.
        by rewrite <- !app_assoc.
      * intros Hrun. rewrite <- inv_pending0 by done. by rewrite <- !app_assoc.
      * rewrite !length_app in *. simpl in *. lia.
    + constructor; simpl in *;
        rewrite ?count_outcome_snoc, ?joined_records_snoc, ?Ej; simpl;
        rewrite ?app_nil_r; close_inv.
      * destruct inv_prefix0 as [rest Hr]. exists rest. rewrite <- Hr.
        by rewrite <- !app_assoc.
      * intros Hrun. rewrite <- inv_pending0 by done. by rewrite <- !app_assoc.
      * rewrite !length_app in *. simpl in *. lia.
  - (* JExcept *)
    destruct (stream_complete s) eqn:Ec; simplify_eq.
    + pose proof (flush_if_nonempty_effect db_ok s) as H.
      simpl in H. destruct H as (H1 & H2 & H3 & H4 & H5 & H6 & H7 & H8 & H9 & H10 & H11 & H12).
      constructor; simpl in *;
        rewrite ?H2, ?H3, ?H4, ?H5, ?H6, ?H7, ?H8, ?H9, ?H10, ?H11, ?H12,
          ?flush_if_nonempty_clears; close_inv.
      * rewrite flush_if_nonempty_clears in H1. by rewrite H1.
      * by apply flush_if_nonempty_loaded.
    + constructor; simpl in *; close_inv.
  - (* JCheckEmpty *)
    destruct (stream_buffer s) as [|t q] eqn:Eq; simplify_eq;
      constructor; simpl in *; rewrite ?Eq; close_inv.
  - (* JFinal *)
    simplify_eq.
    pose proof (flush_if_nonempty_effect db_ok s) as H.
    simpl in H. destruct H as (H1 & H2 & H3 & H4 & H5 & H6 & H7 & H8 & H9 & H10 & H11 & H12).
    constructor; simpl in *;
      rewrite ?H2, ?H3, ?H4, ?H5, ?H6, ?H7, ?H8, ?H9, ?H10, ?H11, ?H12,
        ?flush_if_nonempty_clears; close_inv.
    + rewrite flush_if_nonempty_clears in H1. by rewrite H1.
    + by apply flush_if_nonempty_loaded.
  - done.
  - done.
Qed.

Lemma Inv_step a σ σ' : Inv σ -> step int_of_str a σ = Some σ' -> Inv σ'.
Proof.
  destruct a as [|db_ok|]; simpl.
  - apply Inv_reader_step.
  - apply Inv_joiner_step.
  - intros I [= <-]. destruct σ as [s rpc jpc pop]. destruct I; simpl in *.
    constructor; simpl in *; close_inv.
Qed.

Lemma Inv_run sched σ σ' :
  Inv σ -> run_schedule int_of_str sched σ = Some σ' -> Inv σ'.
Proof.
  revert σ. induction sched as [|a sched IH]; simpl; intros σ I H.
  - by simplify_eq.
  - destruct (step int_of_str a σ) as [σ1|] eqn:Es; [|done].
    eauto using Inv_step.
Qed.

Lemma reachable_Inv σ : reachable σ -> Inv σ.
Proof. intros [sched H]. eapply Inv_run; [apply Inv_start|exact H]. Qed.

Lemma elem_of_joined_records s r ts :
  r ∈ joined_records s ts <-> exists t, t ∈ ts /\ join_record s t = Joined r.
Proof.
  unfold joined_records. rewrite list_elem_of_In, in_flat_map. split.
  - intros (t & Ht & Hr). exists t. rewrite list_elem_of_In. split; [done|].
    destruct (join_record s t); simpl in Hr; try done.
    destruct Hr as [->|[]]. done.
  - intros (t & Ht & Hr). exists t. rewrite <- list_elem_of_In. split; [done|].
    rewrite Hr. by left.
Qed.

(** C2, amended.  The reader enqueues the rows of the feed in order and
    stops at the first row that does not parse (or chunk that cannot be
    read): what has been enqueued is always a prefix of the rows before that
    point, the malformed row and the rows after it are never enqueued, and
    the completion flag is true exactly when the reader has returned, on
    whichever path it did. *)
Theorem reader_stops_at_malformed_row (σ : System) :
  reachable σ ->
  (exists rest,
     popped σ ++ stream_buffer (self σ) ++ rest = reader_transactions int_of_str f) /\
  (forall cs1 rows1 bad rows2 cs2,
     f = Some (cs1 ++ ChunkRows (rows1 ++ bad :: rows2) :: cs2) ->
     transaction_of_row int_of_str bad = None ->
     reader_transactions int_of_str f =
     chunks_transactions int_of_str (cs1 ++ [ChunkRows rows1])) /\
  (stream_complete (self σ) = true <-> reader σ = RDone) /\
  (reader σ = RDone -> running (self σ) = true ->
     popped σ ++ stream_buffer (self σ) = reader_transactions int_of_str f /\
     total_stream_tuples (self σ) = length (reader_transactions int_of_str f)).
Proof.
  intros Hr. apply reachable_Inv in Hr. destruct Hr.
  split; [|split; [|split]].
  - destruct inv_prefix0 as [rest H]. exists (inflight (reader σ) ++ rest). done.
  - intros cs1 rows1 bad rows2 cs2 -> Hbad. simpl.
    by apply chunks_transactions_abort_in.
  - rewrite inv_complete0. destruct (reader σ); simpl; split; done.
  - intros Hd Hrun. specialize (inv_pending0 Hrun). rewrite Hd in *. simpl in *.
    rewrite app_nil_r in inv_pending0. split; [done|].
    rewrite <- inv_pending0. lia.
Qed.

(** C3, amended.  Every record the join thread pops and whose loop body
    does not raise increments exactly one of the joined and the skipped
    counters, by one; the record whose loop body raises ends the thread and
    is counted in neither.  The counters always account for everything
    read: when the stream is drained, the reader returned and the channel
    empty, read = joined + skipped if the join thread was not ended by the
    exception, and read = joined + skipped + 1 if it was; a join thread that
    has returned from a run that was not interrupted has drained the
    stream.  Every record handed to the connection is the join of a popped
    transaction whose outcome is [Joined], never of a skipped one. *)
Theorem popped_records_are_counted_once (σ : System) :
  reachable σ ->
  (forall db_ok t q σ',
     joiner σ = JGet -> stream_buffer (self σ) = t :: q ->
     hybridjoin_thread_step db_ok σ = Some σ' ->
     join_record (self σ) t <> Raised ->
     popped σ' = popped σ ++ [t] /\ joiner σ' = JLoop /\
     ((total_joined_tuples (self σ') = (total_joined_tuples (self σ) + 1)%nat /\
       total_skipped (self σ') = total_skipped (self σ)) \/
      (total_joined_tuples (self σ') = total_joined_tuples (self σ) /\
       total_skipped (self σ') = (total_skipped (self σ) + 1)%nat))) /\
  (total_stream_tuples (self σ) + counting (reader σ) =
   total_joined_tuples (self σ) + total_skipped (self σ) + crashed (joiner σ)
   + length (stream_buffer (self σ)))%nat /\
  (reader σ = RDone -> stream_buffer (self σ) = [] ->
     (joiner σ <> JCrashed ->
      total_stream_tuples (self σ) =
      (total_joined_tuples (self σ) + total_skipped (self σ))%nat) /\
     (joiner σ = JCrashed ->
      total_stream_tuples (self σ) =
      (total_joined_tuples (self σ) + total_skipped (self σ) + 1)%nat)) /\
  (joiner σ = JDone -> running (self σ) = true ->
     reader σ = RDone /\ stream_buffer (self σ) = [] /\
     total_stream_tuples (self σ) =
     (total_joined_tuples (self σ) + total_skipped (self σ))%nat) /\
  total_skipped (self σ) = count_outcome is_skipped s0 (popped σ) /\
  (forall r, r ∈ flushed (db_conn (self σ)) ->
     exists t, t ∈ popped σ /\ join_record s0 t = Joined r).
Proof.
  intros Hr. apply reachable_Inv in Hr. destruct Hr.
  assert (Hcount :
    (total_stream_tuples (self σ) + counting (reader σ) =
     total_joined_tuples (self σ) + total_skipped (self σ) + crashed (joiner σ)
     + length (stream_buffer (self σ)))%nat).
  { rewrite inv_read0, length_app, (count_outcome_total s0 (popped σ)).
    rewrite inv_joined0, inv_skipped0, inv_raised0. lia. }
  split; [|split; [|split; [|split; [|split]]]].
  - intros db_ok t q σ' Hj Hq Hs Hnr.
    unfold hybridjoin_thread_step in Hs. rewrite Hj, Hq in Hs. unfold join_body in Hs.
    rewrite (join_record_store (self σ) (set_stream_buffer q (self σ))) in Hs by done.
    destruct (join_record (self σ) t) as [r| |] eqn:Ej; [| |done]; simplify_eq; simpl.
    + split; [done|]. split; [done|]. left.
      pose proof (flush_if_full_effect db_ok
                    (append_joined r (set_stream_buffer q (self σ)))) as H.
      simpl in H. destruct H as (_ & _ & _ & _ & -> & -> & _). done.
    + split; [done|]. split; [done|]. right. done.
  - exact Hcount.
  - intros Hd Hq. rewrite Hd, Hq in Hcount. simpl in Hcount. split.
    + intros Hj. destruct (joiner σ); simpl in Hcount; try done; lia.
    + intros Hj. rewrite Hj in Hcount. simpl in Hcount. lia.
  - intros Hj Hrun. destruct (inv_exit0 (or_intror Hj) Hrun) as (Hc & Hq & _).
    rewrite inv_complete0 in Hc.
    assert (reader σ = RDone) as Hd by (destruct (reader σ); done).
    rewrite Hj, Hd, Hq in Hcount. simpl in Hcount. split; [done|]. split; [done|]. lia.
  - exact inv_skipped0.
  - intros r Hin. apply elem_of_joined_records. rewrite <- inv_output0.
    apply elem_of_app. by left.
Qed.

(** C4.  With a positive threshold, the accumulator is shorter than the
    threshold in every state of a run, in particular whenever the loop body
    is about to append; right after an append it holds at most [batch_size]
    records; when the append reaches the threshold the flush that follows
    hands the whole batch to the connection and empties the accumulator,
    whether the database accepts it or not, so the next append again finds
    fewer than [batch_size] records. *)
Theorem batch_stays_below_threshold (σ : System) :
  0 < bs ->
  reachable σ ->
  Z.of_nat (length (insert_batch (self σ))) < bs /\
  forall r db_ok s,
    insert_batch s = insert_batch (self σ) -> batch_size s = bs ->
    Z.of_nat (length (insert_batch (append_joined r s))) <= bs /\
    (bs <= Z.of_nat (length (insert_batch (append_joined r s))) ->
       insert_batch (flush_if_full db_ok (append_joined r s)) = [] /\
       db_conn (flush_if_full db_ok (append_joined r s)) =
         db_conn s ++ [(if db_ok then Committed else RolledBack)
                         (insert_batch (self σ) ++ [r])]) /\
    Z.of_nat (length (insert_batch (flush_if_full db_ok (append_joined r s)))) < bs.
Proof.
  intros Hpos Hr. apply reachable_Inv in Hr. destruct Hr.
  specialize (inv_bound0 Hpos). split; [done|].
  intros r db_ok s Hb Hbs. split; [|split].
  - simpl. rewrite Hb, length_app. simpl. lia.
  - intros Hfull. unfold flush_if_full.
    change (batch_size (append_joined r s)) with (batch_size s). rewrite Hbs.
    destruct (bs <=? Z.of_nat (length (insert_batch (append_joined r s)))) eqn:E; [|lia].
    split; [apply flush_batch_clears|].
    unfold flush_batch. simpl. rewrite Hb.
    destruct (insert_batch (self σ) ++ [r]) eqn:E2.
    { by destruct (insert_batch (self σ)). }
    destruct db_ok; reflexivity.
  - rewrite <- Hbs. apply (flush_if_full_bound db_ok (append_joined r s)). simpl. lia.
Qed.

Lemma left_loop_step a σ σ' :
  left_loop (joiner σ) = true -> step int_of_str a σ = Some σ' ->
  left_loop (joiner σ') = true.
Proof.
  intros Hl. destruct a as [|db_ok|]; simpl.
  - unfold stream_reader_thread_step. intros H.
    repeat case_match; simplify_eq; done.
  - unfold hybridjoin_thread_step. destruct (joiner σ); try done. by intros [= <-].
  - by intros [= <-].
Qed.

Lemma left_loop_run sched σ σ' :
  left_loop (joiner σ) = true -> run_schedule int_of_str sched σ = Some σ' ->
  left_loop (joiner σ') = true.
Proof.
  revert σ. induction sched as [|a sched IH]; simpl; intros σ Hl H.
  - by simplify_eq.
  - destruct (step int_of_str a σ) as [σ1|] eqn:Es; [|done].
    eauto using left_loop_step.
Qed.

Lemma run_schedule_snoc sched a σ :
  run_schedule int_of_str (sched ++ [a]) σ =
  match run_schedule int_of_str sched σ with
  | Some σ1 => step int_of_str a σ1
  | None => None
  end.
Proof.
  revert σ. induction sched as [|b sched IH]; simpl; intros σ.
  - by destruct (step int_of_str a σ).
  - destruct (step int_of_str b σ); [apply IH|done].
Qed.

(** After the exception the join thread does nothing more: what the
    accumulator and the connection hold stays as it is. *)
Lemma crashed_step a σ σ' :
  joiner σ = JCrashed -> step int_of_str a σ = Some σ' ->
  joiner σ' = JCrashed /\ popped σ' = popped σ /\
  insert_batch (self σ') = insert_batch (self σ) /\
  db_conn (self σ') = db_conn (self σ).
Proof.
  intros Hj. destruct a as [|db_ok|]; simpl.
  - unfold stream_reader_thread_step. intros H.
    repeat case_match; simplify_eq; done.
  - unfold hybridjoin_thread_step. by rewrite Hj.
  - by intros [= <-].
Qed.

Lemma crashed_run sched σ σ' :
  joiner σ = JCrashed -> run_schedule int_of_str sched σ = Some σ' ->
  joiner σ' = JCrashed /\ popped σ' = popped σ /\
  insert_batch (self σ') = insert_batch (self σ) /\
  db_conn (self σ') = db_conn (self σ).
Proof.
  revert σ. induction sched as [|a sched IH]; simpl; intros σ Hj H.
  - by simplify_eq.
  - destruct (step int_of_str a σ) as [σ1|] eqn:Es; [|done].
    destruct (crashed_step _ _ _ Hj Es) as (Hj1 & H1 & H2 & H3).
    rewrite <- H1, <- H2, <- H3. by apply IH.
Qed.

(** The exception is raised by the record popped last. *)
Lemma crashed_last σ :
  reachable σ -> joiner σ = JCrashed ->
  exists ts t, popped σ = ts ++ [t] /\ join_record s0 t = Raised.
Proof.
  intros [sched H]. revert σ H.
  induction sched as [|a sched IH] using rev_ind; intros σ H Hj.
  - simpl in H. by simplify_eq.
  - rewrite run_schedule_snoc in H.
    destruct (run_schedule int_of_str sched (start s0 f)) as [σ1|] eqn:E1; [|done].
    assert (joiner σ1 = JCrashed \/ joiner σ1 <> JCrashed) as [Hj1|Hj1]
      by (destruct (joiner σ1); first [by left|by right]).
    + destruct (crashed_step _ _ _ Hj1 H) as (_ & Hp & _). rewrite Hp. by apply IH.
    + assert (Inv σ1) as I by (apply reachable_Inv; by exists sched).
      destruct (inv_store _ I) as (_ & Hc & Hp & Hv).
      destruct a as [|db_ok|]; simpl in H.
      * unfold stream_reader_thread_step in H.
        assert (joiner σ = joiner σ1) as E by (repeat case_match; simplify_eq; done).
        by rewrite E in Hj.
      * unfold hybridjoin_thread_step in H.
        destruct (joiner σ1) eqn:Ej; try (repeat case_match; by simplify_eq).
        destruct (stream_buffer (self σ1)) as [|t q] eqn:Eq; [by simplify_eq|].
        unfold join_body in H.
        destruct (join_record (set_stream_buffer q (self σ1)) t) as [r| |] eqn:Er;
          simplify_eq.
        exists (popped σ1), t. split; [done|].
        rewrite <- Er. by apply join_record_store.
      * by simplify_eq.
Qed.

(** C7, amended.  The join loop is left in one of three ways only: the
    [while] test finds [running] cleared (the interrupt); the [break] is
    taken, which happens when the emptiness test finds the channel empty in
    a state where the completion flag is true (the reader has returned) and
    the accumulator has already been flushed; or a popped record raises the
    exception that no handler catches, whatever the flag and the channel
    are.  Once left, the loop is never entered again.  After the first two
    the next step flushes what the accumulator holds, and when the thread
    has returned the accumulator is empty and every joined record has been
    handed to the connection.  After the exception there is no final flush:
    the thread is dead, and the accumulator and the connection keep for
    ever what they hold. *)
Theorem loop_ends_only_when_drained (σ : System) :
  reachable σ ->
  (forall a σ',
     step int_of_str a σ = Some σ' ->
     left_loop (joiner σ) = false -> left_loop (joiner σ') = true ->
     (joiner σ' = JFinal /\ joiner σ = JLoop /\ running (self σ) = false) \/
     (joiner σ' = JFinal /\ joiner σ = JCheckEmpty /\
      stream_complete (self σ) = true /\ stream_buffer (self σ) = [] /\
      reader σ = RDone /\ insert_batch (self σ) = []) \/
     (joiner σ' = JCrashed /\ joiner σ = JGet /\
      exists t q, stream_buffer (self σ) = t :: q /\ join_record s0 t = Raised /\
                  insert_batch (self σ') = insert_batch (self σ) /\
                  db_conn (self σ') = db_conn (self σ))) /\
  (forall sched σ',
     left_loop (joiner σ) = true -> run_schedule int_of_str sched σ = Some σ' ->
     left_loop (joiner σ') = true) /\
  (forall db_ok σ',
     joiner σ = JFinal -> hybridjoin_thread_step db_ok σ = Some σ' ->
     joiner σ' = JDone /\ insert_batch (self σ') = [] /\
     flushed (db_conn (self σ')) = flushed (db_conn (self σ)) ++ insert_batch (self σ)) /\
  (joiner σ = JDone ->
     insert_batch (self σ) = [] /\
     flushed (db_conn (self σ)) = joined_records s0 (popped σ)) /\
  (joiner σ = JCrashed ->
     (exists ts t, popped σ = ts ++ [t] /\ join_record s0 t = Raised) /\
     forall sched σ',
       run_schedule int_of_str sched σ = Some σ' ->
       joiner σ' = JCrashed /\
       insert_batch (self σ') = insert_batch (self σ) /\
       db_conn (self σ') = db_conn (self σ)).
Proof.
  intros Hr. pose proof (crashed_last σ Hr) as Hlast.
  apply reachable_Inv in Hr. destruct Hr.
  split; [|split; [|split; [|split]]].
  - intros a σ' Hs Hin Hout. destruct a as [|db_ok|]; simpl in Hs.
    + unfold stream_reader_thread_step in Hs.
      assert (joiner σ' = joiner σ) as E by (repeat case_match; simplify_eq; done).
      rewrite E, Hin in Hout. done.
    + unfold hybridjoin_thread_step in Hs.
      destruct (joiner σ) eqn:Ej; simpl in Hin; try discriminate Hin.
      * by simplify_eq.
      * destruct (running (self σ)) eqn:Er; [by simplify_eq|].
        simplify_eq. left. done.
      * destruct (stream_buffer (self σ)) as [|t q] eqn:Eq; [by simplify_eq|].
        unfold join_body in Hs.
        destruct (join_record (set_stream_buffer q (self σ)) t) as [r| |] eqn:Er;
          simplify_eq; try done.
        right. right. split; [done|]. split; [done|]. exists t, q.
        split; [done|]. split; [|done].
        destruct inv_store0 as (_ & Hc & Hp & Hv).
        rewrite <- Er. by apply join_record_store.
      * destruct (stream_complete (self σ)); by simplify_eq.
      * destruct (inv_check0 eq_refl) as [Hc Hb].
        destruct (stream_buffer (self σ)) eqn:Eq; [|by simplify_eq].
        simplify_eq.
        right. left. repeat split; try done.
        rewrite inv_complete0 in Hc. destruct (reader σ); done.
    + simplify_eq. simpl in Hout. rewrite Hin in Hout. done.
  - intros sched σ'. apply left_loop_run.
  - intros db_ok σ' Hj Hs. unfold hybridjoin_thread_step in Hs. rewrite Hj in Hs.
    simplify_eq. simpl. split; [done|].
    split; [apply flush_if_nonempty_clears|].
    pose proof (flush_if_nonempty_effect db_ok (self σ)) as H. simpl in H.
    destruct H as [H _]. rewrite flush_if_nonempty_clears, app_nil_r in H. done.
  - intros Hj. specialize (inv_done0 Hj). split; [done|].
    rewrite <- inv_output0, inv_done0, app_nil_r. done.
  - intros Hj. split; [by apply Hlast|].
    intros sched σ' Hs. destruct (crashed_run _ _ _ Hj Hs) as (H1 & _ & H2 & H3).
    done.
Qed.

Lemma fact_sales_sublist log : fact_sales log `sublist_of` flushed log.
Proof.
  induction log as [|e log IH]; [done|].
  unfold fact_sales, flushed in *. simpl. destruct e; simpl.
  - by apply sublist_app.
  - by apply sublist_inserts_l.
Qed.



End Runs.

(** ** Runs that complete

    The properties of finished runs are not vacuous: every feed has a run
    in which both threads return. *)

Section Progress.

Variable int_of_str : string -> option Z.
Variable db_ok : bool.

Lemma run_app sched1 sched2 σ :
  run_schedule int_of_str (sched1 ++ sched2) σ =
  match run_schedule int_of_str sched1 σ with
  | Some σ' => run_schedule int_of_str sched2 σ'
  | None => None
  end.
Proof.
  revert σ. induction sched1 as [|a sched1 IH]; simpl; intros σ; [done|].
  destruct (step int_of_str a σ); [apply IH|done].
Qed.










End Progress.

(** ** Products without a price *)

Lemma of_int_mul_zero q qf :
  of_int q = Some qf -> eqb (mul qf zero) zero = true.
Proof.
  unfold of_int. pose proof (binary_normalize_not_nan prec emax q 0 false) as Hn.
  destruct (binary_normalize prec emax q 0 false) as [sg|sg| |sg m e];
    intros H; simplify_eq; reflexivity.
Qed.

Section MissingPrice.

Variable float_of_str : string -> option float.

Lemma load_products_app pre rest m m' :
  load_products float_of_str (pre ++ rest) m = (true, m') ->
  exists m1, load_products float_of_str pre m = (true, m1) /\
             load_products float_of_str rest m1 = (true, m').
Proof.
  revert m. induction pre as [|row pre IH]; simpl; intros m H.
  - by exists m.
  - destruct (product_of_row float_of_str row) as [p|]; [|done]. by apply IH.
Qed.

Lemma load_products_other rows m m' k :
  load_products float_of_str rows m = (true, m') ->
  (forall row, row ∈ rows -> strip (pr_Product_ID row) <> k) ->
  m' !! k = m !! k.
Proof.
  revert m. induction rows as [|row rows IH]; simpl; intros m H Hk.
  - by simplify_eq.
  - destruct (product_of_row float_of_str row) as [p|] eqn:Ep; [|done].
    rewrite (IH _ H) by (intros; apply Hk; by right).
    apply lookup_insert_ne.
    unfold product_of_row in Ep.
    destruct (if pd_notna (pr_price row) then _ else _); simplify_eq.
    simpl. apply Hk. by left.
Qed.

(** C10.  A product row whose price cell is missing (NaN) is not rejected:
    the record built for it carries the unit price 0.0, and it is the record
    the product map holds for that id after a successful load (no later row
    of the file having the same id).  A transaction with that product id,
    a known customer and a valid date is never skipped; the record the join
    builds for it has unit price 0.0 and a total amount equal to 0, the loop
    body counts it as joined and leaves the skipped counter alone; and the
    join does build that record whenever the quantity fits a float. *)
Theorem missing_price_joins_with_zero_total
    (customers : list CustomerRecord) (dates : list Z)
    (pre : list product_row) (row : product_row) (post : list product_row)
    (s s' : HybridJoinBatch) (t : Transaction) (ymd : Z * Z * Z) :
  pd_notna (pr_price row) = false ->
  (forall row', row' ∈ post -> strip (pr_Product_ID row') <> strip (pr_Product_ID row)) ->
  load_master_data float_of_str customers dates (Some (pre ++ row :: post)) s
    = (true, s') ->
  product_id t = strip (pr_Product_ID row) ->
  is_Some (customer_master s' !! customer_id t) ->
  strptime_ymd (date t) = Some ymd ->
  date_id_of ymd ∈ valid_dates s' ->
  exists p,
    product_of_row float_of_str row = Some p /\
    p_price p = zero /\
    product_master s' !! product_id t = Some p /\
    join_record s' t <> Skipped /\
    (forall r, join_record s' t = Joined r ->
       j_unit_price r = zero /\
       eqb (j_total_amount r) zero = true /\
       forall db_ok, exists s'',
         join_body db_ok t s' = Some s'' /\
         total_joined_tuples s'' = (total_joined_tuples s' + 1)%nat /\
         total_skipped s'' = total_skipped s') /\
    (is_Some (of_int (quantity t)) -> exists r, join_record s' t = Joined r).
Proof.
  intros Hna Hpost Hload Hid [c Hc] Hd Hv.
  unfold load_master_data in Hload.
  destruct (load_products float_of_str (pre ++ row :: post) (product_master s))
    as [ok pm'] eqn:El.
  injection Hload as -> <-. simpl in *.
  apply load_products_app in El as (m1 & _ & El). simpl in El.
  destruct (product_of_row float_of_str row) as [p|] eqn:Ep; [|done].
  assert (Hp : p_price p = zero /\ p_product_id p = strip (pr_Product_ID row)).
  { unfold product_of_row in Ep. rewrite Hna in Ep. by simplify_eq. }
  destruct Hp as [Hprice Hkey].
  assert (Hlook : pm' !! product_id t = Some p).
  { rewrite Hid. rewrite (load_products_other _ _ _ _ El) by done.
    rewrite Hkey. apply lookup_insert_eq. }
  exists p. split; [done|]. split; [done|]. split; [done|].
  unfold join_record, join_chain, join_body, join_record, join_chain. simpl.
  rewrite Hc, Hlook, Hd. rewrite bool_decide_true by done.
  rewrite Hprice. unfold int_mul.
  destruct (of_int (quantity t)) as [qf|] eqn:Eq; simpl.
  - split; [done|]. split; [|by eauto].
    intros r [= <-]. simpl. split; [done|]. split; [by eapply of_int_mul_zero|].
    intros db_ok. eexists. split; [reflexivity|].
    match goal with |- context [flush_if_full db_ok ?x] =>
      pose proof (flush_if_full_effect db_ok x) as H end.
    simpl in H. destruct H as (_ & _ & _ & _ & -> & -> & _). done.
  - split; [done|]. split; [done|]. intros [? ?]; done.
Qed.

End MissingPrice.

(** * Examples, witnesses and counterexamples *)

Example of_int_3 : PyFloat.of_int 3 = Some (S754_finite false 6755399441055744 (-51)).
Proof. vm_compute. reflexivity. Qed.

Example of_int_big : PyFloat.of_int (2 ^ 1024) = None.
Proof. vm_compute. reflexivity. Qed.

Example of_int_max : PyFloat.of_int (2 ^ 1024 - 2 ^ 971) = Some (S754_finite false 9007199254740991 971).
Proof. vm_compute. reflexivity. Qed.

Example to_int_ex : PyFloat.to_int (S754_finite true 7 (-1)) = Some (-3).
Proof. vm_compute. reflexivity. Qed.

Example strptime_ok : date_id_of <$> strptime_ymd "2020-01-05" = Some 20200105.
Proof. vm_compute. reflexivity. Qed.
Example strptime_short : date_id_of <$> strptime_ymd "2020-1-5" = Some 20200105.
Proof. vm_compute. reflexivity. Qed.
Example strptime_bad : strptime_ymd "bad-date" = None.
Proof. vm_compute. reflexivity. Qed.
Example strptime_feb30 : strptime_ymd "2021-02-29" = None.
Proof. vm_compute. reflexivity. Qed.
Example strptime_leap : date_id_of <$> strptime_ymd "2020-02-29" = Some 20200229.
Proof. vm_compute. reflexivity. Qed.
Example strptime_left_over : strptime_ymd "2020-01-05 " = None.
Proof. vm_compute. reflexivity. Qed.
Example strptime_13 : strptime_ymd "2020-13-05" = None.
Proof. vm_compute. reflexivity. Qed.
Example strip_ex : strip "  P1 " = "P1"%string.
Proof. vm_compute. reflexivity. Qed.

Example of_int_int64 :
  is_Some (of_int (2 ^ 63 - 1)) /\ is_Some (of_int (- 2 ^ 63)).
Proof. split; vm_compute; eauto. Qed.

Example of_int_threshold :
  of_int (2 ^ 1024 - 2 ^ 970) = None /\ is_Some (of_int (2 ^ 1024 - 2 ^ 970 - 1)).
Proof. split; vm_compute; eauto. Qed.

Example strptime_padded_day : date_id_of <$> strptime_ymd "2020-01- 5" = Some 20200105.
Proof. vm_compute. reflexivity. Qed.
Example strptime_year_999 : date_id_of <$> strptime_ymd "0999-01-05" = Some 9990105.
Proof. vm_compute. reflexivity. Qed.
Example strptime_year_0 : strptime_ymd "0000-01-01" = None.
Proof. vm_compute. reflexivity. Qed.
Example strptime_day_32 : strptime_ymd "2020-01-32" = None.
Proof. vm_compute. reflexivity. Qed.

(** An instance of [int(text)] for the examples: it reads the unsigned
    decimal numerals, on which it agrees with Python, and nothing else. *)
Fixpoint decimal_digits (l : list ascii) (acc : Z) : option Z :=
  match l with
  | [] => Some acc
  | c :: l' =>
      match digit c with
      | Some d => decimal_digits l' (10 * acc + d)
      | None => None
      end
  end.

Definition decimal_int_of_str (s : string) : option Z :=
  match list_ascii_of_string s with
  | [] => None
  | l => decimal_digits l 0
  end.

Definition no_float_of_str (s : string) : option float := None.

Definition ex_customer (id : string) : CustomerRecord :=
  {| c_customer_id := id; c_gender := "F"; c_age := "26-35"; c_occupation := "7";
     c_city_category := "B"; c_stay_in_current_city_years := "2";
     c_marital_status := "0" |}.

(** 2.5 as a binary64 value. *)
Definition price_2_5 : float := Eval vm_compute in binary_normalize prec emax 5 (-1) false.
Definition float_10 : float := Eval vm_compute in binary_normalize prec emax 10 0 false.

Definition ex_product (id : string) (price : float) : ProductRecord :=
  {| p_product_id := id; p_product_category := "Grocery"; p_price := price;
     p_store_id := "S1"; p_supplier_id := "U1" |}.

Definition ex_customers : gmap string CustomerRecord :=
  {[ "C1"%string := ex_customer "C1" ]}.
Definition ex_products : gmap string ProductRecord :=
  {[ "P1"%string := ex_product "P1" price_2_5 ]}.
Definition ex_dates : gset Z := {[ 20200105 ]}.

Definition ex_object (bs : Z) : HybridJoinBatch :=
  new_HybridJoinBatch bs ex_customers ex_products ex_dates.

Definition ex_row (o c p : string) (q : cell) (d : string) : feed_row :=
  {| f_orderID := o; f_Customer_ID := c; f_Product_ID := p;
     f_quantity := q; f_date := d |}.

Definition ex_transaction (o : string) (q : Z) : Transaction :=
  {| order_id := o; customer_id := "C1"; product_id := "P1";
     quantity := q; date := "2020-01-05" |}.

Definition ex_joined (o : string) : JoinedRecord :=
  {| j_order_id := o; j_customer_id := "C1"; j_product_id := "P1";
     j_date_id := 20200105; j_store_id := "S1"; j_supplier_id := "U1";
     j_quantity := 4; j_unit_price := price_2_5; j_total_amount := float_10 |}.

Example join_ex :
  join_chain (ex_object 1000) (ex_transaction "1" 4) = (all_probes, Joined (ex_joined "1")).
Proof. vm_compute. reflexivity. Qed.

Example join_customer_miss :
  join_chain (ex_object 1000)
    {| order_id := "2"; customer_id := "C9"; product_id := "P9";
       quantity := 2 ^ 1024; date := "bad-date" |} = ([ProbeCustomer], Skipped).
Proof. vm_compute. reflexivity. Qed.

Example join_bad_date :
  join_chain (ex_object 1000)
    {| order_id := "3"; customer_id := "C1"; product_id := "P1";
       quantity := 1; date := "bad-date" |}
  = ([ProbeCustomer; ProbeProduct; ParseDate], Skipped).
Proof. vm_compute. reflexivity. Qed.

(** *** Concrete runs *)

(** Three rows: one that joins, one with an unknown customer, one with a
    date that does not parse. *)
Definition feed_a : feed :=
  Some [ChunkRows [ex_row "1" "C1" " P1 " (CInt 4) "2020-01-05";
                   ex_row "2" "C9" "P1" (CInt 1) "2020-01-05";
                   ex_row "3" "C1" "P1" (CInt 1) "bad-date"]].

(** The join thread runs dry once, before the reader has finished. *)
Definition sched_a : list action :=
  [Join true] ++ repeat Reader 5 ++ repeat (Join true) 5 ++ repeat Reader 6
  ++ repeat (Join true) 2 ++ [Reader] ++ repeat (Join true) 2 ++ repeat Reader 2
  ++ repeat (Join true) 5.

Definition final_a : System :=
  Eval vm_compute in
    default (start (ex_object 1000) feed_a)
            (run_schedule decimal_int_of_str sched_a (start (ex_object 1000) feed_a)).

Lemma final_a_reachable :
  reachable decimal_int_of_str 1000 ex_customers ex_products ex_dates feed_a final_a.
Proof. exists sched_a. vm_compute. reflexivity. Defined.

Example final_a_counters :
  (total_stream_tuples (self final_a), total_joined_tuples (self final_a),
   total_skipped (self final_a), total_loaded_tuples (self final_a)) = (3, 1, 2, 1)%nat /\
  fact_sales (db_conn (self final_a)) = [ex_joined "1"].
Proof. split; vm_compute; reflexivity. Qed.

(** Five rows that all join, in two chunks, with threshold 2; the first
    flush fails. *)
Definition feed_b : feed :=
  Some [ChunkRows [ex_row "1" "C1" "P1" (CInt 4) "2020-01-05";
                   ex_row "2" "C1" "P1" (CInt 4) "2020-01-05"];
        ChunkRows [ex_row "3" "C1" "P1" (CInt 4) "2020-01-05";
                   ex_row "4" "C1" "P1" (CInt 4) "2020-01-05";
                   ex_row "5" "C1" "P1" (CInt 4) "2020-01-05"]].

Definition sched_b : list action :=
  [Join true] ++ repeat Reader 22 ++ repeat (Join true) 3 ++ [Join false]
  ++ repeat (Join true) 11.

Definition final_b : System :=
  Eval vm_compute in
    default (start (ex_object 2) feed_b)
            (run_schedule decimal_int_of_str sched_b (start (ex_object 2) feed_b)).

Lemma final_b_reachable :
  reachable decimal_int_of_str 2 ex_customers ex_products ex_dates feed_b final_b.
Proof. exists sched_b. vm_compute. reflexivity. Defined.

Example final_b_log :
  db_conn (self final_b) =
    [RolledBack [ex_joined "1"; ex_joined "2"];
     Committed [ex_joined "3"; ex_joined "4"];
     Committed [ex_joined "5"]] /\
  (total_stream_tuples (self final_b), total_joined_tuples (self final_b),
   total_skipped (self final_b), total_loaded_tuples (self final_b)) = (5, 5, 0, 3)%nat.
Proof. split; vm_compute; reflexivity. Qed.

(** The same feed with every flush accepted: batches of 2, 2 and 1. *)
Example feed_b_all_committed :
  (fun σ => (map (fun e => length (event_batch e)) (db_conn (self σ)),
             total_loaded_tuples (self σ), joiner σ)) <$>
    run_schedule decimal_int_of_str ([Join true] ++ repeat Reader 22 ++ repeat (Join true) 15)
        (start (ex_object 2) feed_b)
  = Some ([2; 2; 1]%nat, 5%nat, JDone).
Proof. vm_compute. reflexivity. Qed.

(** A feed whose second row has no quantity. *)
Definition feed_c : feed :=
  Some [ChunkRows [ex_row "1" "C1" "P1" (CFloat float_10) "2020-01-05";
                   ex_row "2" "C1" "P1" (CFloat S754_nan) "2020-01-05";
                   ex_row "3" "C1" "P1" (CFloat float_10) "2020-01-05"]].

Definition sched_c : list action :=
  [Join true] ++ repeat Reader 7 ++ repeat (Join true) 7.

Definition final_c : System :=
  Eval vm_compute in
    default (start (ex_object 1000) feed_c)
            (run_schedule decimal_int_of_str sched_c (start (ex_object 1000) feed_c)).

Lemma final_c_reachable :
  reachable decimal_int_of_str 1000 ex_customers ex_products ex_dates feed_c final_c.
Proof. exists sched_c. vm_compute. reflexivity. Defined.

(** A feed whose quantity column came out as text and holds 2^1024. *)
Definition two_to_1024 : string :=
  "179769313486231590772930519078902473361797697894230657273430081157732675805500963132708477322407536021120113879871393357658789768814416622492847430639474124377767893424865485276302219601246094119453082952085005768838150682342462881473913110540827237163350510684586298239947245938479716304835356329624224137216".

Definition feed_d : feed :=
  Some [ChunkRows [ex_row "1" "C1" "P1" (CStr two_to_1024) "2020-01-05"]].

Example feed_d_row :
  transaction_of_row decimal_int_of_str
    (ex_row "1" "C1" "P1" (CStr two_to_1024) "2020-01-05")
  = Some (ex_transaction "1" (2 ^ 1024)).
Proof. vm_compute. reflexivity. Qed.

(** The join thread is about to pop that record. *)
Definition sched_d : list action :=
  [Join true] ++ repeat Reader 5 ++ [Join true].

Definition state_d : System :=
  Eval vm_compute in
    default (start (ex_object 1000) feed_d)
            (run_schedule decimal_int_of_str sched_d (start (ex_object 1000) feed_d)).

Lemma state_d_reachable :
  reachable decimal_int_of_str 1000 ex_customers ex_products ex_dates feed_d state_d.
Proof. exists sched_d. vm_compute. reflexivity. Defined.

Example state_d_shape :
  joiner state_d = JGet /\
  stream_buffer (self state_d) = [ex_transaction "1" (2 ^ 1024)].
Proof. split; vm_compute; reflexivity. Qed.

(** *** C1 *)

Lemma join_valid_transaction_witness :
  exists r, join_record (ex_object 1000) (ex_transaction "1" 4) = Joined r /\
            j_total_amount r = float_10.
Proof.
  destruct (join_valid_transaction (ex_object 1000) (ex_transaction "1" 4)
              (ex_product "P1" price_2_5) (2020, 1, 5) float_10)
    as (r & Hr & _ & Ht & _).
  - exists (ex_customer "C1"). vm_compute. reflexivity.
  - vm_compute. reflexivity.
  - vm_compute. reflexivity.
  - apply (bool_decide_unpack _). vm_compute. exact I.
  - vm_compute. reflexivity.
  - exists r. split; assumption.
Defined.

(** C1 as stated fails for a transaction whose three keys are present and
    whose quantity is 2^1024: the product [quantity * unit_price] raises
    [OverflowError] and no record is built. *)
Lemma overflowing_quantity_is_not_joined :
  ~ valid_transaction_joins (ex_object 1000) (ex_transaction "1" (2 ^ 1024)).
Proof.
  intros H.
  destruct (H (ex_product "P1" price_2_5) (2020, 1, 5)) as (r & Hr & _).
  - exists (ex_customer "C1"). vm_compute. reflexivity.
  - vm_compute. reflexivity.
  - vm_compute. reflexivity.
  - apply (bool_decide_unpack _). vm_compute. exact I.
  - vm_compute in Hr. discriminate Hr.
Qed.

(** *** C2 *)

Lemma reader_stops_at_malformed_row_witness :
  popped final_c ++ stream_buffer (self final_c) =
    [ex_transaction "1" 10] /\
  stream_complete (self final_c) = true /\
  total_stream_tuples (self final_c) = 1%nat.
Proof.
  destruct (reader_stops_at_malformed_row decimal_int_of_str 1000 ex_customers
              ex_products ex_dates feed_c final_c final_c_reachable)
    as (_ & _ & Hc & Hd).
  destruct (Hd eq_refl eq_refl) as [Hq Hn].
  split; [exact Hq|]. split; [|exact Hn].
  apply Hc. reflexivity.
Defined.

(** On [feed_c] the row after the malformed one parses, and is never
    enqueued. *)
Lemma malformed_row_ends_the_stream :
  ~ malformed_rows_are_skipped decimal_int_of_str (ex_object 1000) feed_c.
Proof.
  intros H.
  specialize (H sched_c final_c).
  assert (popped final_c ++ stream_buffer (self final_c) =
          skipping_transactions decimal_int_of_str feed_c) as E.
  { apply H; vm_compute; reflexivity. }
  vm_compute in E. discriminate E.
Qed.

(** *** C3 *)

(** The run on [feed_d] after the exception, with the reader left to
    finish: the stream is drained, the reader has returned and the channel
    is empty. *)
Definition final_d : System :=
  Eval vm_compute in
    default (start (ex_object 1000) feed_d)
            (run_schedule decimal_int_of_str (sched_d ++ [Join true] ++ repeat Reader 3)
               (start (ex_object 1000) feed_d)).

Lemma final_d_reachable :
  reachable decimal_int_of_str 1000 ex_customers ex_products ex_dates feed_d final_d.
Proof. exists (sched_d ++ [Join true] ++ repeat Reader 3). vm_compute. reflexivity. Defined.

Example final_d_shape :
  reader final_d = RDone /\ joiner final_d = JCrashed /\
  stream_buffer (self final_d) = [] /\ running (self final_d) = true /\
  (total_stream_tuples (self final_d), total_joined_tuples (self final_d),
   total_skipped (self final_d)) = (1, 0, 0)%nat.
Proof. vm_compute. repeat split. Qed.

(** On [final_a] the join thread has returned; on [final_d] it was ended by
    the exception. *)
Lemma popped_records_are_counted_once_witness :
  total_stream_tuples (self final_a) =
    (total_joined_tuples (self final_a) + total_skipped (self final_a))%nat /\
  total_skipped (self final_a) = 2%nat /\
  total_stream_tuples (self final_d) =
    (total_joined_tuples (self final_d) + total_skipped (self final_d) + 1)%nat.
Proof.
  destruct (popped_records_are_counted_once decimal_int_of_str 1000 ex_customers
              ex_products ex_dates feed_a final_a final_a_reachable)
    as (_ & _ & _ & Hd & Hs & _).
  destruct (Hd eq_refl eq_refl) as (_ & _ & Hn).
  split; [exact Hn|]. split; [rewrite Hs; vm_compute; reflexivity|].
  destruct (popped_records_are_counted_once decimal_int_of_str 1000 ex_customers
              ex_products ex_dates feed_d final_d final_d_reachable)
    as (_ & _ & Hdr & _).
  exact (proj2 (Hdr eq_refl eq_refl) eq_refl).
Defined.

(** In the reachable state [state_d] the record about to be popped joins on
    all three keys, its total overflows, and neither counter moves; in the
    drained run [final_d] that follows, read is 1 and joined + skipped is
    0. *)
Lemma overflowing_pop_is_not_counted :
  reachable decimal_int_of_str 1000 ex_customers ex_products ex_dates feed_d state_d /\
  ~ every_pop_is_counted state_d /\
  reachable decimal_int_of_str 1000 ex_customers ex_products ex_dates feed_d final_d /\
  ~ drained_run_is_counted final_d.
Proof.
  split; [exact state_d_reachable|].
  split; [|split; [exact final_d_reachable|
                   intros H; specialize (H eq_refl eq_refl (or_intror eq_refl));
                   vm_compute in H; discriminate H]].
  intros H.
  destruct (H true (ex_transaction "1" (2 ^ 1024)) []
              {| self := set_stream_buffer [] (self state_d);
                 reader := reader state_d; joiner := JCrashed;
                 popped := [ex_transaction "1" (2 ^ 1024)] |})
    as [[H1 _]|[_ H2]].
  - vm_compute. reflexivity.
  - vm_compute. reflexivity.
  - vm_compute. reflexivity.
  - vm_compute in H1. discriminate H1.
  - vm_compute in H2. discriminate H2.
Qed.

(** *** C4 *)

Lemma batch_stays_below_threshold_witness :
  Z.of_nat (length (insert_batch (self final_b))) < 2.
Proof.
  refine (proj1 (batch_stays_below_threshold decimal_int_of_str 2 ex_customers
                   ex_products ex_dates feed_b final_b _ final_b_reachable)).
  lia.
Defined.

(** *** C5 *)

Lemma flush_batch_failure_discards_witness :
  fst (flush_batch false (append_joined (ex_joined "1") (ex_object 1000))) = 0%nat /\
  insert_batch (snd (flush_batch false (append_joined (ex_joined "1") (ex_object 1000)))) = [].
Proof.
  destruct (flush_batch_failure_discards
              (append_joined (ex_joined "1") (ex_object 1000)))
    as (H1 & _ & H3 & _).
  - simpl. discriminate.
  - split; assumption.
Defined.

(** *** C7 *)

(** A feed of three rows whose quantity column came out as text; the
    second holds 2^1024. *)
Definition feed_e : feed :=
  Some [ChunkRows [ex_row "1" "C1" "P1" (CStr "4") "2020-01-05";
                   ex_row "2" "C1" "P1" (CStr two_to_1024) "2020-01-05";
                   ex_row "3" "C1" "P1" (CStr "4") "2020-01-05"]].

(** Two rows are enqueued, the first is popped and joined, and the join
    thread is about to pop the second. *)
Definition sched_e : list action :=
  [Join true] ++ repeat Reader 8 ++ repeat (Join true) 3.

Definition state_e : System :=
  Eval vm_compute in
    default (start (ex_object 1000) feed_e)
            (run_schedule decimal_int_of_str sched_e (start (ex_object 1000) feed_e)).

Lemma state_e_reachable :
  reachable decimal_int_of_str 1000 ex_customers ex_products ex_dates feed_e state_e.
Proof. exists sched_e. vm_compute. reflexivity. Defined.

(** The step that pops the second record. *)
Definition crashed_e : System :=
  Eval vm_compute in default state_e (hybridjoin_thread_step true state_e).

(** The same run with the reader left to finish: both threads have ended. *)
Definition final_e : System :=
  Eval vm_compute in
    default (start (ex_object 1000) feed_e)
            (run_schedule decimal_int_of_str (sched_e ++ [Join true] ++ repeat Reader 6)
               (start (ex_object 1000) feed_e)).

Lemma final_e_reachable :
  reachable decimal_int_of_str 1000 ex_customers ex_products ex_dates feed_e final_e.
Proof. exists (sched_e ++ [Join true] ++ repeat Reader 6). vm_compute. reflexivity. Defined.

Example final_e_shape :
  reader final_e = RDone /\ joiner final_e = JCrashed /\ running (self final_e) = true /\
  stream_complete (self final_e) = true /\
  popped final_e = [ex_transaction "1" 4; ex_transaction "2" (2 ^ 1024)] /\
  stream_buffer (self final_e) = [ex_transaction "3" 4] /\
  insert_batch (self final_e) = [ex_joined "1"] /\ db_conn (self final_e) = [] /\
  (total_stream_tuples (self final_e), total_joined_tuples (self final_e),
   total_skipped (self final_e)) = (3, 1, 0)%nat.
Proof. vm_compute. repeat split. Qed.

(** On [final_a] the thread has returned after the break and the final
    flush; on [final_e] the exception has ended it, and the joined record
    in the accumulator stays there whatever happens next. *)
Lemma loop_ends_only_when_drained_witness :
  insert_batch (self final_a) = [] /\
  flushed (db_conn (self final_a)) =
    joined_records (s0 1000 ex_customers ex_products ex_dates) (popped final_a) /\
  forall sched σ',
    run_schedule decimal_int_of_str sched final_e = Some σ' ->
    joiner σ' = JCrashed /\ insert_batch (self σ') = [ex_joined "1"] /\
    db_conn (self σ') = [].
Proof.
  destruct (proj1 (proj2 (proj2 (proj2
    (loop_ends_only_when_drained decimal_int_of_str 1000 ex_customers
       ex_products ex_dates feed_a final_a final_a_reachable)))) eq_refl) as [Ha Hb].
  split; [exact Ha|]. split; [exact Hb|].
  exact (proj2 (proj2 (proj2 (proj2 (proj2
    (loop_ends_only_when_drained decimal_int_of_str 1000 ex_customers
       ex_products ex_dates feed_e final_e final_e_reachable)))) eq_refl)).
Defined.

(** C7 as stated fails on [feed_e]: the step from [state_e] leaves the loop
    with the completion flag false and the channel not empty, nothing
    having been cancelled, and in [final_e] the thread has ended with a
    joined record left in the accumulator. *)
Lemma exception_ends_the_loop_undrained :
  reachable decimal_int_of_str 1000 ex_customers ex_products ex_dates feed_e state_e /\
  ~ loop_ends_at_a_drained_observation state_e /\
  reachable decimal_int_of_str 1000 ex_customers ex_products ex_dates feed_e final_e /\
  ~ nothing_left_unflushed final_e.
Proof.
  split; [exact state_e_reachable|]. split; [|split; [exact final_e_reachable|]].
  - intros H. destruct (H true crashed_e) as [Hc _].
    + vm_compute. reflexivity.
    + vm_compute. reflexivity.
    + vm_compute. reflexivity.
    + vm_compute. reflexivity.
    + vm_compute in Hc. discriminate Hc.
  - intros H. specialize (H (or_intror eq_refl)). vm_compute in H. discriminate H.
Qed.

(** *** C8 *)



Example flushed_final_b :
  flushed (db_conn (self final_b)) =
    [ex_joined "1"; ex_joined "2"; ex_joined "3"; ex_joined "4"; ex_joined "5"] /\
  fact_sales (db_conn (self final_b)) = [ex_joined "3"; ex_joined "4"; ex_joined "5"].
Proof. split; vm_compute; reflexivity. Qed.

(** *** C9 *)

Lemma flush_batch_empty_is_noop_witness :
  flush_batch true (ex_object 1000) = (0%nat, ex_object 1000).
Proof.
  refine (proj1 (flush_batch_empty_is_noop true (ex_object 1000) _)).
  reflexivity.
Defined.

(** *** C10 *)

Definition ex_product_row (id : string) (price : cell) : product_row :=
  {| pr_Product_ID := id; pr_Product_Category := "Grocery"; pr_price := price;
     pr_storeID := "S1"; pr_supplierID := "U1" |}.

Definition ex_product_rows_before : list product_row :=
  [ex_product_row "P7 " (CFloat price_2_5)].
Definition ex_product_rows_after : list product_row :=
  [ex_product_row "P2" (CInt 3)].

Definition loaded_object : HybridJoinBatch :=
  Eval vm_compute in
    snd (load_master_data no_float_of_str [ex_customer "C1"] [20200105]
           (Some (ex_product_rows_before ++ ex_product_row "P1" (CFloat S754_nan)
                    :: ex_product_rows_after))
           (new_HybridJoinBatch 1000 ∅ ∅ ∅)).

Lemma missing_price_joins_with_zero_total_witness :
  exists r, join_record loaded_object (ex_transaction "1" (-4)) = Joined r /\
            j_unit_price r = zero /\ eqb (j_total_amount r) zero = true.
Proof.
  destruct (missing_price_joins_with_zero_total no_float_of_str
              [ex_customer "C1"] [20200105]
              ex_product_rows_before (ex_product_row "P1" (CFloat S754_nan))
              ex_product_rows_after
              (new_HybridJoinBatch 1000 ∅ ∅ ∅) loaded_object
              (ex_transaction "1" (-4)) (2020, 1, 5))
    as (p & _ & _ & _ & _ & Hj & He).
  - reflexivity.
  - intros row' Hin. apply list_elem_of_singleton in Hin. subst row'.
    vm_compute. discriminate.
  - vm_compute. reflexivity.
  - vm_compute. reflexivity.
  - exists (ex_customer "C1"). vm_compute. reflexivity.
  - vm_compute. reflexivity.
  - apply (bool_decide_unpack _). vm_compute. exact I.
  - destruct He as [r Hr]; [vm_compute; eauto|].
    exists r. split; [exact Hr|]. destruct (Hj r Hr) as (H1 & H2 & _).
    split; assumption.
Defined.

Example missing_price_total :
  join_record loaded_object (ex_transaction "1" (-4)) =
  Joined {| j_order_id := "1"; j_customer_id := "C1"; j_product_id := "P1";
            j_date_id := 20200105; j_store_id := "S1"; j_supplier_id := "U1";
            j_quantity := -4; j_unit_price := S754_zero false;
            j_total_amount := S754_zero true |}.
Proof. vm_compute. reflexivity. Qed.

(** * Further properties of the threads *)

(** The records of the batches whose flush failed. *)
Definition rolled_back (log : list db_event) : list JoinedRecord :=
  concat (map (fun e => match e with Committed _ => [] | RolledBack b => b end) log).

(** The join thread has ended, by returning or by an exception. *)
Definition join_thread_ended (pc : join_pc) : bool :=
  match pc with
  | JDone | JCrashed => true
  | _ => false
  end.


Lemma flushed_length log :
  length (flushed log) = (length (fact_sales log) + length (rolled_back log))%nat.
Proof.
  induction log as [|e log IH]; [done|].
  unfold flushed, fact_sales, rolled_back in *. simpl.
  rewrite !length_app, IH. destruct e; simpl; lia.
Qed.

Section MoreRuns.

Variable int_of_str : string -> option Z.
Variable bs : Z.
Variable cm : gmap string CustomerRecord.
Variable pm : gmap string ProductRecord.
Variable vd : gset Z.
Variable f : feed.

Local Abbreviation reach := (reachable int_of_str bs cm pm vd f).
Local Abbreviation init := (s0 bs cm pm vd).

(** X1.  The channel never holds more than [maxsize] transactions, and a
    reader that stands at its [put] is blocked exactly when the channel
    holds [maxsize] of them. *)
Theorem channel_never_exceeds_maxsize (σ : System) :
  reach σ ->
  Z.of_nat (length (stream_buffer (self σ))) <= maxsize /\
  forall t rows cs,
    reader σ = RPut t rows cs ->
    (stream_reader_thread_step int_of_str σ = None <->
     Z.of_nat (length (stream_buffer (self σ))) = maxsize).
Proof.
  intros Hr. apply reachable_Inv in Hr. pose proof (inv_capacity _ _ _ _ _ _ _ Hr) as Hc.
  split; [done|]. intros t rows cs Hp.
  unfold stream_reader_thread_step. rewrite Hp.
  destruct (Z.of_nat (length (stream_buffer (self σ))) <? maxsize) eqn:E.
  - split; [done|]. lia.
  - split; [lia|done].
Qed.

(** X2.  Nothing in a run writes to the reference store or to the
    threshold: in every state the two maps, the set of dates and
    [batch_size] are the ones the threads were started with, so the join of
    a transaction comes out the same whenever it is popped. *)
Theorem reference_store_is_never_written (σ : System) :
  reach σ ->
  customer_master (self σ) = cm /\ product_master (self σ) = pm /\
  valid_dates (self σ) = vd /\ batch_size (self σ) = bs /\
  forall t, join_chain (self σ) t = join_chain init t.
Proof.
  intros Hr. apply reachable_Inv in Hr.
  destruct (inv_store _ _ _ _ _ _ _ Hr) as (Hb & Hc & Hp & Hv).
  repeat split; try done. intros t. by apply join_chain_store.
Qed.

(** X3.  Every record counted as joined is in exactly one of three places:
    committed to [fact_sales] (and counted as loaded), discarded by a flush
    that failed, or still in [insert_batch].  In particular the loaded
    counter is the number of committed rows and never exceeds the joined
    counter. *)
Theorem joined_is_loaded_lost_or_pending (σ : System) :
  reach σ ->
  total_joined_tuples (self σ) =
    (total_loaded_tuples (self σ) + length (rolled_back (db_conn (self σ)))
     + length (insert_batch (self σ)))%nat /\
  total_loaded_tuples (self σ) = length (fact_sales (db_conn (self σ))) /\
  (total_loaded_tuples (self σ) <= total_joined_tuples (self σ))%nat.
Proof.
  intros Hr. apply reachable_Inv in Hr. destruct Hr.
  assert (total_joined_tuples (self σ) =
          (total_loaded_tuples (self σ) + length (rolled_back (db_conn (self σ)))
           + length (insert_batch (self σ)))%nat) as E.
  { rewrite inv_joined0, <- joined_records_length, <- inv_output0.
    rewrite length_app, flushed_length, inv_loaded0. lia. }
  split; [exact E|]. split; [done|]. lia.
Qed.

(** Monotonicity of one step. *)
Lemma flush_batch_log db_ok s : db_conn s `prefix_of` db_conn (snd (flush_batch db_ok s)).
Proof.
  unfold flush_batch. destruct (insert_batch s); [done|].
  destruct db_ok; simpl; by eexists.
Qed.

Lemma flush_if_nonempty_log db_ok s : db_conn s `prefix_of` db_conn (flush_if_nonempty db_ok s).
Proof. rewrite flush_if_nonempty_eq. apply flush_batch_log. Qed.

Lemma flush_if_full_log db_ok s : db_conn s `prefix_of` db_conn (flush_if_full db_ok s).
Proof. unfold flush_if_full. case_match; [apply flush_batch_log|done]. Qed.

Lemma flush_if_full_loaded_mono db_ok s :
  (total_loaded_tuples s <= total_loaded_tuples (flush_if_full db_ok s))%nat.
Proof.
  unfold flush_if_full. case_match; [|done].
  pose proof (flush_batch_effect db_ok s) as H0. simpl in H0.
  destruct H0 as (_ & _ & -> & _). lia.
Qed.

Lemma flush_if_nonempty_loaded_mono db_ok s :
  (total_loaded_tuples s <= total_loaded_tuples (flush_if_nonempty db_ok s))%nat.
Proof.
  rewrite flush_if_nonempty_eq.
  pose proof (flush_batch_effect db_ok s) as H0. simpl in H0.
  destruct H0 as (_ & _ & -> & _). lia.
Qed.

(** What never goes back. *)
Record grows (σ σ' : System) : Prop := {
  grows_read : (total_stream_tuples (self σ) <= total_stream_tuples (self σ'))%nat;
  grows_joined : (total_joined_tuples (self σ) <= total_joined_tuples (self σ'))%nat;
  grows_skipped : (total_skipped (self σ) <= total_skipped (self σ'))%nat;
  grows_loaded : (total_loaded_tuples (self σ) <= total_loaded_tuples (self σ'))%nat;
  grows_log : db_conn (self σ) `prefix_of` db_conn (self σ');
  grows_popped : popped σ `prefix_of` popped σ';
  grows_complete : stream_complete (self σ) = true -> stream_complete (self σ') = true;
  grows_ready : join_ready (self σ) = true -> join_ready (self σ') = true;
  grows_stopped : running (self σ) = false -> running (self σ') = false
}.

Lemma grows_refl σ : grows σ σ.
Proof. constructor; done. Qed.

Lemma grows_trans σ1 σ2 σ3 : grows σ1 σ2 -> grows σ2 σ3 -> grows σ1 σ3.
Proof.
  intros [] []. constructor; try (etrans; eassumption); auto.
Qed.

Lemma grows_step a σ σ' : step int_of_str a σ = Some σ' -> grows σ σ'.
Proof.
  destruct σ as [s rpc jpc pop]. destruct a as [|db_ok|]; simpl.
  - unfold stream_reader_thread_step; simpl. intros H.
    repeat case_match; simplify_eq; constructor; simpl; try done; lia.
  - unfold hybridjoin_thread_step; simpl. intros H.
    destruct jpc; try done.
    + simplify_eq. constructor; simpl; done.
    + destruct (running s); simplify_eq; constructor; simpl; done.
    + destruct (stream_buffer s) as [|t q] eqn:Eq.
      { simplify_eq. constructor; simpl; done. }
      unfold join_body in H.
      destruct (join_record (set_stream_buffer q s) t) as [r| |] eqn:Ej; simplify_eq.
      * pose proof (flush_if_full_effect db_ok (append_joined r (set_stream_buffer q s))) as E.
        simpl in E. destruct E as (_ & _ & _ & E4 & E5 & E6 & E7 & E8 & E9 & _).
        constructor; simpl; rewrite ?E4, ?E5, ?E6, ?E7, ?E8, ?E9; simpl; try done; try lia.
        -- apply (flush_if_full_loaded_mono db_ok (append_joined r (set_stream_buffer q s))).
        -- apply (flush_if_full_log db_ok (append_joined r (set_stream_buffer q s))).
        -- by eexists.
      * constructor; simpl; try done; try lia. by eexists.
      * constructor; simpl; try done. by eexists.
    + destruct (stream_complete s) eqn:Ec; simplify_eq.
      * pose proof (flush_if_nonempty_effect db_ok s) as E.
        simpl in E. destruct E as (_ & _ & _ & E4 & E5 & E6 & E7 & E8 & E9 & _).
        constructor; simpl; rewrite ?E4, ?E5, ?E6, ?E7, ?E8, ?E9; simpl; try done.
        -- apply flush_if_nonempty_loaded_mono.
        -- apply flush_if_nonempty_log.
      * constructor; simpl; done.
    + destruct (stream_buffer s); simplify_eq; constructor; simpl; done.
    + simplify_eq.
      pose proof (flush_if_nonempty_effect db_ok s) as E.
      simpl in E. destruct E as (_ & _ & _ & E4 & E5 & E6 & E7 & E8 & E9 & _).
      constructor; simpl; rewrite ?E4, ?E5, ?E6, ?E7, ?E8, ?E9; simpl; try done.
      -- apply flush_if_nonempty_loaded_mono.
      -- apply flush_if_nonempty_log.
  - intros [= <-]. constructor; simpl; done.
Qed.

(** X5.  Along every run, from any state, the four counters never decrease,
    the history of the connection and the sequence of popped records only
    grow at the end, and the three flags move one way only: once
    [stream_complete] and [join_ready] are true they stay true, once
    [running] is false it stays false. *)
Theorem counters_and_flags_only_advance (sched : list action) (σ σ' : System) :
  run_schedule int_of_str sched σ = Some σ' ->
  (total_stream_tuples (self σ) <= total_stream_tuples (self σ'))%nat /\
  (total_joined_tuples (self σ) <= total_joined_tuples (self σ'))%nat /\
  (total_skipped (self σ) <= total_skipped (self σ'))%nat /\
  (total_loaded_tuples (self σ) <= total_loaded_tuples (self σ'))%nat /\
  db_conn (self σ) `prefix_of` db_conn (self σ') /\
  popped σ `prefix_of` popped σ' /\
  (stream_complete (self σ) = true -> stream_complete (self σ') = true) /\
  (join_ready (self σ) = true -> join_ready (self σ') = true) /\
  (running (self σ) = false -> running (self σ') = false).
Proof.
  intros H. assert (grows σ σ') as [].
  { revert σ H. induction sched as [|a sched IH]; simpl; intros σ H.
    - simplify_eq. apply grows_refl.
    - destruct (step int_of_str a σ) as [σ1|] eqn:Es; [|done].
      eapply grows_trans; [by eapply grows_step|by apply IH]. }
  repeat split; assumption.
Qed.

(** X4.  The reader does nothing before the join thread has set
    [join_ready]: as long as the flag is false the reader is still waiting
    with the whole feed unread, the channel is empty, nothing has been
    popped or counted, and the reader cannot take a step. *)
Theorem reader_waits_for_join_ready (σ : System) :
  reach σ ->
  join_ready (self σ) = false ->
  reader σ = RWait f /\ joiner σ = JStart /\
  stream_buffer (self σ) = [] /\ popped σ = [] /\
  total_stream_tuples (self σ) = 0%nat /\
  stream_reader_thread_step int_of_str σ = None.
Proof.
  intros [sched Hr] Hj.
  assert (exists r, σ = start (set_running r init) f) as [r ->].
  { revert σ Hr Hj. induction sched as [|a sched IH] using rev_ind; intros σ Hr Hj.
    - simpl in Hr. simplify_eq. by exists true.
    - rewrite run_app in Hr.
      destruct (run_schedule int_of_str sched (start init f)) as [σ1|] eqn:E1; [|done].
      simpl in Hr. destruct (step int_of_str a σ1) as [σ2|] eqn:E2; [|done].
      simplify_eq.
      assert (join_ready (self σ1) = false) as Hj1.
      { destruct (join_ready (self σ1)) eqn:E; [|done].
        pose proof (grows_step _ _ _ E2) as []. rewrite grows_ready0 in Hj; done. }
      destruct (IH σ1 eq_refl Hj1) as [r ->]. destruct a as [|db_ok|]; simpl in E2.
      + done.
      + unfold hybridjoin_thread_step, start in E2. simpl in E2.
        by simplify_eq.
      + simplify_eq. by exists false. }
  done.
Qed.







(** A reader that stands at its [put] with the channel full after the join
    thread has ended stays there for ever: no schedule lets either thread
    move, the reader never reaches its [finally], and [stream_complete]
    keeps the value it has. *)
Lemma blocked_reader_stays_blocked
    (sched : list action) (σ σ' : System) (t : Transaction)
    (rows : list feed_row) (cs : list chunk) :
  join_thread_ended (joiner σ) = true ->
  reader σ = RPut t rows cs ->
  maxsize <= Z.of_nat (length (stream_buffer (self σ))) ->
  run_schedule int_of_str sched σ = Some σ' ->
  Forall (fun a => a = Interrupt) sched /\
  reader σ' = RPut t rows cs /\ joiner σ' = joiner σ /\
  stream_buffer (self σ') = stream_buffer (self σ) /\
  stream_complete (self σ') = stream_complete (self σ) /\
  stream_reader_thread_step int_of_str σ' = None.
Proof.
  revert σ. induction sched as [|a sched IH]; simpl; intros σ Hj Hp Hfull Hs.
  - simplify_eq. repeat split; try done.
    unfold stream_reader_thread_step. rewrite Hp.
    destruct (Z.of_nat (length (stream_buffer (self σ'))) <? maxsize) eqn:E; [lia|done].
  - destruct (step int_of_str a σ) as [σ1|] eqn:Es; [|done].
    destruct a as [|db_ok|]; simpl in Es.
    + unfold stream_reader_thread_step in Es. rewrite Hp in Es.
      destruct (Z.of_nat (length (stream_buffer (self σ))) <? maxsize) eqn:E; [lia|done].
    + unfold hybridjoin_thread_step in Es. destruct (joiner σ); done.
    + simplify_eq.
      destruct (IH {| self := set_running false (self σ); reader := reader σ;
                      joiner := joiner σ; popped := popped σ |})
        as (H1 & H2 & H3 & H4 & H5 & H6); try done.
      repeat split; try done. by constructor.
Qed.

End MoreRuns.

(** The reader, left to run, enqueues rows that parse as long as the
    channel has room, whatever the join thread does not do meanwhile. *)
Lemma reader_fills_the_channel int_of_str rows1 rows2 cs σ :
  reader σ = RNextRow (rows1 ++ rows2) cs ->
  running (self σ) = true ->
  Forall (fun row => is_Some (transaction_of_row int_of_str row)) rows1 ->
  Z.of_nat (length (stream_buffer (self σ)) + length rows1) <= maxsize ->
  exists sched σ',
    run_schedule int_of_str sched σ = Some σ' /\
    reader σ' = RNextRow rows2 cs /\ joiner σ' = joiner σ /\
    running (self σ') = true /\
    stream_complete (self σ') = stream_complete (self σ) /\
    length (stream_buffer (self σ')) =
      (length (stream_buffer (self σ)) + length rows1)%nat.
Proof.
  revert σ. induction rows1 as [|row rows1 IH]; intros σ Hr Hrun Hp Hlen.
  - exists [], σ. simpl. split_and!; try done; lia.
  - apply Forall_cons in Hp as [[t Ht] Hp]. destruct σ as [s rpc jpc pop].
    simpl in *. subst rpc.
    set (s1 := set_total_stream_tuples (total_stream_tuples s + 1)
                 (set_stream_buffer (stream_buffer s ++ [t]) s)).
    destruct (IH {| self := s1; reader := RNextRow (rows1 ++ rows2) cs;
                    joiner := jpc; popped := pop |})
      as (sched & σ' & Hs & H1 & H2 & H3 & H4 & H5); try done.
    { simpl. rewrite length_app. simpl. lia. }
    exists ([Reader; Reader; Reader] ++ sched), σ'.
    rewrite run_app. simpl. unfold stream_reader_thread_step at 1. simpl.
    rewrite Hrun, Ht. unfold stream_reader_thread_step at 1. simpl.
    destruct (Z.of_nat (length (stream_buffer s)) <? maxsize) eqn:E; [|lia].
    unfold stream_reader_thread_step at 1. simpl. fold s1.
    split; [exact Hs|]. simpl in *. rewrite length_app in H5. simpl in H5.
    split_and!; try done. lia.
Qed.

(** X9.  An exception in the join thread hangs the run on a long feed.  If
    the first row of the feed makes [quantity * unit_price] raise and more
    than [maxsize] rows that parse follow it in its chunk, then the run can
    reach a state in which the join thread has died, the channel is full
    and the reader stands at its [put]; from there no thread can move under
    any schedule: the reader never reaches its [finally], [stream_complete]
    stays false, and an interrupt changes nothing, so [thread1.join()] never
    returns. *)
Theorem crashed_join_thread_hangs_the_run (int_of_str : string -> option Z)
    (bs : Z) (cm : gmap string CustomerRecord) (pm : gmap string ProductRecord)
    (vd : gset Z) (row0 : feed_row) (t0 : Transaction) (rows : list feed_row)
    (cs : list chunk) :
  transaction_of_row int_of_str row0 = Some t0 ->
  join_record (new_HybridJoinBatch bs cm pm vd) t0 = Raised ->
  Forall (fun row => is_Some (transaction_of_row int_of_str row)) rows ->
  (Z.to_nat maxsize < length rows)%nat ->
  exists sched σ,
    run_schedule int_of_str sched
      (start (new_HybridJoinBatch bs cm pm vd) (Some (ChunkRows (row0 :: rows) :: cs)))
      = Some σ /\
    joiner σ = JCrashed /\ running (self σ) = true /\
    stream_complete (self σ) = false /\
    Z.of_nat (length (stream_buffer (self σ))) = maxsize /\
    forall sched' σ',
      run_schedule int_of_str sched' σ = Some σ' ->
      Forall (fun a => a = Interrupt) sched' /\
      returned (reader σ') = false /\ stream_complete (self σ') = false /\
      joiner σ' = JCrashed.
Proof.
  intros Ht0 Hraise Hparse Hlen.
  assert (exists rows1 row rest,
            rows = rows1 ++ row :: rest /\ length rows1 = Z.to_nat maxsize)
    as (rows1 & row & rest & -> & Hl1).
  { exists (take (Z.to_nat maxsize) rows).
    destruct (drop (Z.to_nat maxsize) rows) as [|row rest] eqn:Ed.
    { apply (f_equal length) in Ed. rewrite length_drop in Ed. simpl in Ed. lia. }
    exists row, rest. rewrite <- Ed, take_drop. split; [done|].
    rewrite length_take. lia. }
  apply Forall_app in Hparse as [Hp1 Hp2].
  apply Forall_cons in Hp2 as [[t Ht] _].
  set (s := new_HybridJoinBatch bs cm pm vd).
  (* the join thread dies of the first record *)
  set (s1 := set_stream_buffer []
               (set_total_stream_tuples 1
                  (set_stream_buffer [t0] (set_join_ready true s)))).
  set (σ1 := {| self := s1; reader := RNextRow (rows1 ++ row :: rest) cs;
                joiner := JCrashed; popped := [t0] |}).
  assert (run_schedule int_of_str
            ([Join true] ++ repeat Reader 5 ++ [Join true; Join true])
            (start s (Some (ChunkRows (row0 :: rows1 ++ row :: rest) :: cs))) = Some σ1)
    as H1.
  { simpl. unfold stream_reader_thread_step, hybridjoin_thread_step. simpl.
    rewrite Ht0. simpl.
    unfold join_body. rewrite (join_record_store s) by done. unfold s.
    rewrite Hraise. done. }
  (* the reader fills the channel *)
  destruct (reader_fills_the_channel int_of_str rows1 (row :: rest) cs σ1)
    as (sched2 & σ2 & H2 & Hr2 & Hj2 & Hrun2 & Hc2 & Hb2); try done.
  { simpl. rewrite Hl1. unfold maxsize. lia. }
  simpl in Hj2, Hc2, Hb2. rewrite Hl1 in Hb2.
  (* and stands at its put *)
  set (σ3 := {| self := self σ2; reader := RPut t rest cs; joiner := joiner σ2;
                popped := popped σ2 |}).
  assert (step int_of_str Reader σ2 = Some σ3) as H3.
  { simpl. unfold stream_reader_thread_step. by rewrite Hr2, Hrun2, Ht. }
  exists (([Join true] ++ repeat Reader 5 ++ [Join true; Join true]) ++ sched2 ++ [Reader]),
    σ3.
  split.
  { rewrite run_app, H1, run_app, H2. simpl. simpl in H3. by rewrite H3. }
  simpl. split; [done|]. split; [done|]. split; [done|].
  split; [rewrite Hb2; unfold maxsize; lia|].
  intros sched' σ' Hs'.
  destruct (blocked_reader_stays_blocked int_of_str sched' σ3 σ' t rest cs)
    as (Hi & Hr & Hj & _ & Hc & _); try done.
  { simpl. by rewrite Hj2. }
  { simpl. rewrite Hb2. unfold maxsize. lia. }
  split; [done|]. rewrite Hr, Hj, Hc. simpl. by rewrite Hj2, Hc2.
Qed.

(** * Further properties of [load_master_data] *)

Lemma lstrip_suffix l : exists pre, l = pre ++ lstrip l.
Proof.
  induction l as [|c l [pre IH]]; [by exists []|].
  simpl. destruct (is_space c); [|by exists []].
  exists (c :: pre). simpl. by f_equal.
Qed.

Lemma lstrip_head l c l' : lstrip l = c :: l' -> is_space c = false.
Proof.
  induction l as [|c0 l IH]; simpl; [done|].
  destruct (is_space c0) eqn:E; [done|]. by intros [= -> _].
Qed.

Lemma lstrip_fixed c l : is_space c = false -> lstrip (c :: l) = c :: l.
Proof. intros H. simpl. by rewrite H. Qed.

Lemma strip_chars_fixed l :
  rev (lstrip (rev (lstrip (rev (lstrip (rev (lstrip l))))))) =
  rev (lstrip (rev (lstrip l))).
Proof.
  set (a := lstrip l).
  destruct (lstrip (rev a)) as [|c b] eqn:Eb; [done|].
  pose proof (lstrip_head _ _ _ Eb) as Hc.
  destruct (lstrip_suffix (rev a)) as [pre Hpre]. rewrite Eb in Hpre.
  assert (a = rev (c :: b) ++ rev pre) as Ha.
  { rewrite <- (rev_involutive a), Hpre, rev_app_distr. done. }
  destruct (rev (c :: b)) as [|d x] eqn:Ex.
  { apply (f_equal (@length _)) in Ex. rewrite length_rev in Ex. done. }
  assert (is_space d = false) as Hd.
  { apply (lstrip_head l d (x ++ rev pre)). fold a. by rewrite Ha. }
  rewrite (lstrip_fixed d x Hd), <- Ex, rev_involutive, (lstrip_fixed c b Hc). done.
Qed.

(** [strip] is idempotent. *)
Lemma strip_idempotent s : strip (strip s) = strip s.
Proof.
  unfold strip. rewrite list_ascii_of_string_of_list_ascii.
  by rewrite strip_chars_fixed.
Qed.

Section MoreLoading.

Variable int_of_str : string -> option Z.
Variable float_of_str : string -> option float.

Lemma load_customers_other rows m k :
  (forall row, row ∈ rows -> c_customer_id row <> k) ->
  load_customers rows m !! k = m !! k.
Proof.
  unfold load_customers. revert m.
  induction rows as [|row rows IH]; simpl; intros m Hk; [done|].
  rewrite IH by (intros; apply Hk; by right).
  apply lookup_insert_ne. apply Hk. by left.
Qed.

Lemma load_customers_app rows1 rows2 m :
  load_customers (rows1 ++ rows2) m = load_customers rows2 (load_customers rows1 m).
Proof. unfold load_customers. apply foldl_app. Qed.

(** X10.  [load_master_data] fills the customer map and the date set
    whether or not the products load: a customer id maps to the last row of
    [dim_customer] that carries it, an id no row carries keeps what the map
    held, the date set is replaced by exactly the ids read from [dim_date],
    and the channel, the accumulator, the counters, the flags and the
    connection are left as they were. *)
Theorem load_master_data_fills_customers_and_dates
    (customers : list CustomerRecord) (dates : list Z)
    (products : option (list product_row)) (s : HybridJoinBatch) :
  let s' := snd (load_master_data float_of_str customers dates products s) in
  (forall k, (forall row, row ∈ customers -> c_customer_id row <> k) ->
     customer_master s' !! k = customer_master s !! k) /\
  (forall pre row post,
     customers = pre ++ row :: post ->
     (forall row', row' ∈ post -> c_customer_id row' <> c_customer_id row) ->
     customer_master s' !! c_customer_id row = Some row) /\
  (forall d, d ∈ valid_dates s' <-> d ∈ dates) /\
  stream_buffer s' = stream_buffer s /\ insert_batch s' = insert_batch s /\
  (total_stream_tuples s', total_joined_tuples s', total_loaded_tuples s',
   total_skipped s') =
  (total_stream_tuples s, total_joined_tuples s, total_loaded_tuples s,
   total_skipped s) /\
  (stream_complete s', running s', join_ready s') =
  (stream_complete s, running s, join_ready s) /\
  batch_size s' = batch_size s /\ db_conn s' = db_conn s.
Proof.
  unfold load_master_data.
  destruct (match products with
            | Some rows => load_products float_of_str rows (product_master s)
            | None => (false, product_master s)
            end) as [ok pm'].
  simpl. split; [|split; [|split]].
  - intros k Hk. by apply load_customers_other.
  - intros pre row post -> Hpost.
    rewrite load_customers_app. simpl.
    change (foldl _ ?m post) with (load_customers post m).
    rewrite load_customers_other by done. apply lookup_insert_eq.
  - intros d. apply elem_of_list_to_set.
  - done.
Qed.

Lemma load_products_true_all rows m m' :
  load_products float_of_str rows m = (true, m') ->
  Forall (fun row => is_Some (product_of_row float_of_str row)) rows.
Proof.
  revert m. induction rows as [|row rows IH]; simpl; intros m H; [done|].
  destruct (product_of_row float_of_str row) as [p|] eqn:Ep; [|done].
  constructor; [by rewrite Ep|by eapply IH].
Qed.

Lemma load_products_false rows m m' :
  load_products float_of_str rows m = (false, m') ->
  exists pre row post,
    rows = pre ++ row :: post /\
    product_of_row float_of_str row = None /\
    load_products float_of_str pre m = (true, m').
Proof.
  revert m. induction rows as [|row rows IH]; simpl; intros m H; [done|].
  destruct (product_of_row float_of_str row) as [p|] eqn:Ep.
  - destruct (IH _ H) as (pre & row' & post & -> & Hn & Hl).
    exists (row :: pre), row', post. simpl. by rewrite Ep.
  - simplify_eq. by exists [], row, rows.
Qed.

Lemma product_of_row_none row :
  product_of_row float_of_str row = None <->
  pd_notna (pr_price row) = true /\ py_float float_of_str (pr_price row) = None.
Proof.
  unfold product_of_row. destruct (pd_notna (pr_price row)).
  - destruct (py_float float_of_str (pr_price row)); split; try done. by intros [_ ?].
  - split; [done|]. by intros [? _].
Qed.

(** X11.  The product load is all or nothing only in its result, not in its
    effect: it returns [True] exactly when every row's price converts, and
    otherwise stops at the first row whose price is present but cannot be
    converted by [float], returning [False] with the product map holding
    the rows read before that one. *)
Theorem load_master_data_stops_at_first_bad_price
    (customers : list CustomerRecord) (dates : list Z)
    (rows : list product_row) (s : HybridJoinBatch) :
  let r := load_master_data float_of_str customers dates (Some rows) s in
  if fst r then
    Forall (fun row => is_Some (product_of_row float_of_str row)) rows
  else
    exists pre row post,
      rows = pre ++ row :: post /\
      Forall (fun row => is_Some (product_of_row float_of_str row)) pre /\
      pd_notna (pr_price row) = true /\
      py_float float_of_str (pr_price row) = None /\
      load_products float_of_str pre (product_master s) = (true, product_master (snd r)).
Proof.
  unfold load_master_data.
  destruct (load_products float_of_str rows (product_master s)) as [[|] pm'] eqn:El; simpl.
  - by eapply load_products_true_all.
  - destruct (load_products_false _ _ _ El) as (pre & row & post & -> & Hn & Hl).
    exists pre, row, post. apply product_of_row_none in Hn as [Hn1 Hn2].
    split; [done|]. split; [by eapply load_products_true_all|]. done.
Qed.

Lemma product_of_row_id row p :
  product_of_row float_of_str row = Some p ->
  p_product_id p = strip (pr_Product_ID row).
Proof.
  unfold product_of_row.
  destruct (if pd_notna (pr_price row) then _ else _); intros; by simplify_eq.
Qed.

Lemma load_products_found rows m m' k :
  load_products float_of_str rows m = (true, m') ->
  (exists row, row ∈ rows /\ strip (pr_Product_ID row) = k) ->
  exists row p, row ∈ rows /\ strip (pr_Product_ID row) = k /\
                product_of_row float_of_str row = Some p /\ m' !! k = Some p.
Proof.
  revert m. induction rows as [|row rows IH]; simpl; intros m H Hex.
  - destruct Hex as (? & Hin & _). by apply elem_of_nil in Hin.
  - destruct (product_of_row float_of_str row) as [p|] eqn:Ep; [|done].
    destruct (decide (Exists (fun row' => strip (pr_Product_ID row') = k) rows)) as [He|Hne].
    + apply Exists_exists in He.
      destruct (IH _ H He) as (row' & p' & Hin & Hk & Hp & Hl).
      exists row', p'. split; [by right|done].
    + assert (strip (pr_Product_ID row) = k) as Hk.
      { destruct Hex as (row' & Hin & Hk). apply elem_of_cons in Hin as [->|Hin]; [done|].
        destruct Hne. apply Exists_exists. eauto. }
      exists row, p. split; [by left|]. split; [done|]. split; [done|].
      rewrite (load_products_other _ _ _ _ k H).
      * rewrite (product_of_row_id _ _ Ep), Hk. apply lookup_insert_eq.
      * intros row' Hin Hk'. destruct Hne. apply Exists_exists. eauto.
Qed.

Lemma load_products_origin rows m m' k p :
  load_products float_of_str rows m = (true, m') ->
  m' !! k = Some p ->
  m !! k = Some p \/
  exists row, row ∈ rows /\ product_of_row float_of_str row = Some p /\
              k = strip (pr_Product_ID row).
Proof.
  revert m. induction rows as [|row rows IH]; simpl; intros m H Hl.
  - simplify_eq. by left.
  - destruct (product_of_row float_of_str row) as [p0|] eqn:Ep; [|done].
    destruct (IH _ H Hl) as [Hm|(row' & Hin & Hp & Hk)].
    + rewrite (product_of_row_id _ _ Ep) in Hm.
      apply lookup_insert_Some in Hm as [[<- <-]|[_ Hm]]; [|by left].
      right. exists row. split; [by left|done].
    + right. exists row'. split; [by right|done].
Qed.

(** X12.  Product ids are compared stripped on both sides.  After a
    successful load, a feed row whose product id, stripped, is that of some
    product row finds a product: the record of a product row with the same
    stripped id, stored under the transaction's product id, which is also
    the record's own [product_id].  Conversely every binding of the product
    map was there before the load or comes from a product row, under that
    row's stripped id, which stripping leaves unchanged. *)
Theorem loaded_products_are_found_by_stripped_id
    (customers : list CustomerRecord) (dates : list Z)
    (rows : list product_row) (s s' : HybridJoinBatch) :
  load_master_data float_of_str customers dates (Some rows) s = (true, s') ->
  (forall prow row t,
     prow ∈ rows ->
     strip (f_Product_ID row) = strip (pr_Product_ID prow) ->
     transaction_of_row int_of_str row = Some t ->
     exists prow' p,
       prow' ∈ rows /\ strip (pr_Product_ID prow') = product_id t /\
       product_of_row float_of_str prow' = Some p /\
       product_master s' !! product_id t = Some p /\
       p_product_id p = product_id t) /\
  (forall k p,
     product_master s' !! k = Some p ->
     product_master s !! k = Some p \/
     exists prow, prow ∈ rows /\ product_of_row float_of_str prow = Some p /\
                  k = strip (pr_Product_ID prow) /\ strip k = k /\
                  p_product_id p = k).
Proof.
  unfold load_master_data.
  destruct (load_products float_of_str rows (product_master s)) as [ok pm'] eqn:El.
  intros [= -> <-]. simpl. split.
  - intros prow row t Hin Hid Ht.
    assert (product_id t = strip (f_Product_ID row)) as Hp.
    { unfold transaction_of_row in Ht.
      destruct (py_int int_of_str (f_quantity row)); by simplify_eq. }
    destruct (load_products_found _ _ _ (product_id t) El) as (prow' & p & H1 & H2 & H3 & H4).
    { exists prow. split; [done|]. by rewrite Hp, Hid. }
    exists prow', p. repeat split; try done.
    by rewrite (product_of_row_id _ _ H3).
  - intros k p Hl.
    destruct (load_products_origin _ _ _ _ _ El Hl) as [Hm|(prow & Hin & Hp & ->)];
      [by left|].
    right. exists prow. repeat split; try done.
    + apply strip_idempotent.
    + by apply product_of_row_id.
Qed.

End MoreLoading.

(** * The set-up of [run] *)

(** What [mysql.connector.connect] does: raise [Error], or return a
    connection that [is_connected()] reports alive or not. *)
Inductive connect_env :=
| ConnectError
| Connection (alive : bool).

(** [connect_to_database]; [None] is Python's [None], which the method
    returns by falling off its end when the connection is not alive. *)
Definition connect_to_database (e : connect_env) : option bool :=
  match e with
  | ConnectError => Some false
  | Connection true => Some true
  | Connection false => None
  end.

(** The truth value of a result in [if not ...]. *)
Definition truthy (r : option bool) : bool :=
  match r with
  | Some true => true
  | _ => false
  end.

(** [s.lower()] on ASCII text. *)
Definition lower_char (c : ascii) : ascii :=
  if (65 <=? code c) && (code c <=? 90)
  then ascii_of_N (N_of_ascii c + 32) else c.

Definition lower (s : string) : string :=
  string_of_list_ascii (map lower_char (list_ascii_of_string s)).

(** Which call on the connection raises during [truncate_fact_table], if
    any. *)
Inductive db_fault :=
| NoFault
| CursorFails      (* self.db_conn.cursor() *)
| CountFails       (* SELECT COUNT( * ) FROM fact_sales *)
| TruncateFails    (* TRUNCATE TABLE fact_sales *)
| CommitFails.     (* self.db_conn.commit() *)

(** [truncate_fact_table] on the rows [fact_sales] holds.  [answer] is what
    [input] returns ([None] when it raises).  Gives the method's result, the
    rows of the table afterwards and whether the question was asked.
    [TRUNCATE TABLE] takes effect when it is executed: MySQL commits it
    implicitly, so a [commit] that raises afterwards leaves the table
    empty. *)
Definition truncate_fact_table (fault : db_fault) (answer : option string)
    (table : list JoinedRecord) : bool * list JoinedRecord * bool :=
  match fault with
  | CursorFails => (false, table, false)
  | CountFails => (false, table, false)
  | _ =>
      let existing_count := Z.of_nat (length table) in
      if 0 <? existing_count then
        match answer with
        | None => (false, table, true)
        | Some a =>
            let confirm := lower (strip a) in
            if bool_decide (confirm <> "yes"%string) then (false, table, true)
            else
              match fault with
              | TruncateFails => (false, table, true)
              | CommitFails => (false, [], true)
              | _ => (true, [], true)
              end
        end
      else (true, table, false)
  end.

(** What [run] is given: the database it connects to, the answer typed at
    the prompt, the rows of the three sources, the feed, and the schedule
    along which the two threads and the interrupt interleave. *)
Record run_env := {
  env_connect : connect_env;
  env_fault : db_fault;
  env_answer : option string;
  env_table : list JoinedRecord;
  env_customers : list CustomerRecord;
  env_dates : list Z;
  env_products : option (list product_row);
  env_feed : feed;
  env_sched : list action
}.

(** How [run] returns: [False] before any thread exists, or [True] after
    both threads have ended. *)
Inductive run_result :=
| SetupFailed (s : HybridJoinBatch) (table : list JoinedRecord)
| Completed (σ : System) (table : list JoinedRecord).

Section Run.

Variable int_of_str : string -> option Z.
Variable float_of_str : string -> option float.

(** [run]; [None] when, along the schedule, a thread has not ended, so that
    [thread1.join()] or [thread2.join()] has not returned. *)
Definition run (env : run_env) (s : HybridJoinBatch) : option run_result :=
  if negb (truthy (connect_to_database (env_connect env))) then
    Some (SetupFailed s (env_table env))
  else
    let '(ok, table, _) :=
      truncate_fact_table (env_fault env) (env_answer env) (env_table env) in
    if negb ok then Some (SetupFailed s table)
    else
      let '(ok, s1) :=
        load_master_data float_of_str (env_customers env) (env_dates env)
          (env_products env) s in
      if negb ok then Some (SetupFailed s1 table)
      else
        match run_schedule int_of_str (env_sched env) (start s1 (env_feed env)) with
        | Some σ =>
            if returned (reader σ) && join_thread_ended (joiner σ)
            then Some (Completed σ (table ++ fact_sales (db_conn (self σ))))
            else None
        | None => None
        end.

End Run.

(** Lines 221-222, 227 and 281-287 of [hybridjoin_thread]: the values of
    [processed] at which a progress line is printed, given the outcomes of
    the records popped so far.  The test is reached only by a record that
    joins; a skipped record has taken [continue]. *)
Fixpoint progress_reports (processed last_report : Z) (outs : list join_outcome)
    : list Z :=
  match outs with
  | [] => []
  | o :: outs' =>
      let processed := processed + 1 in
      match o with
      | Joined _ =>
          if 10000 <=? processed - last_report
          then processed :: progress_reports processed processed outs'
          else progress_reports processed last_report outs'
      | Skipped => progress_reports processed last_report outs'
      | Raised => []
      end
  end.

Lemma lower_yes_example : lower (strip "  YeS ") = "yes"%string.
Proof. vm_compute. reflexivity. Qed.

Lemma truncate_fact_table_table fault answer table :
  let '(ok, table', _) := truncate_fact_table fault answer table in
  (ok = true -> table' = []) /\
  (table' <> table ->
     table' = [] /\ exists a, answer = Some a /\ lower (strip a) = "yes"%string).
Proof.
  unfold truncate_fact_table.
  destruct table as [|r table]; simpl.
  - destruct fault; simpl; split; done.
  - destruct fault; simpl; try (split; done);
      (destruct answer as [a|]; [|split; done]);
      (case_bool_decide as Hy; [split; done|]);
      repeat split; try done; eauto.
Qed.

(** X13.  [truncate_fact_table] deletes rows only on an explicit yes: the
    table changes only when the answer, stripped and lowered, is "yes", and
    then it is emptied; a result of [True] means the table is empty
    afterwards; an empty table is never asked about; and any other answer
    to a non-empty table gives [False] with the table untouched. *)
Theorem truncate_fact_table_needs_a_yes (fault : db_fault)
    (answer : option string) (table : list JoinedRecord) :
  let '(ok, table', asked) := truncate_fact_table fault answer table in
  (ok = true -> table' = []) /\
  (table' <> table ->
     table' = [] /\ exists a, answer = Some a /\ lower (strip a) = "yes"%string) /\
  (table = [] -> asked = false /\
     (ok = true <-> fault <> CursorFails /\ fault <> CountFails)) /\
  (asked = true -> table <> []) /\
  (forall a, answer = Some a -> lower (strip a) <> "yes"%string -> table <> [] ->
     ok = false /\ table' = table).
Proof.
  unfold truncate_fact_table.
  destruct table as [|r table]; simpl.
  - destruct fault; simpl; repeat split; try done; try (intros [? ?]; done);
      try (intros; done).
  - destruct fault; simpl; try (repeat split; done);
      (destruct answer as [a|]; [|repeat split; try done; intros ? [=]; done]);
      (case_bool_decide as Hy; [repeat split; try done; by intros a' [= <-]|]);
      repeat split; try done; eauto; intros; congruence.
Qed.

Section RunProperties.

Variable int_of_str : string -> option Z.
Variable float_of_str : string -> option float.

Lemma load_master_data_new customers dates products bs cm pm vd :
  let s1 := snd (load_master_data float_of_str customers dates products
                   (new_HybridJoinBatch bs cm pm vd)) in
  s1 = new_HybridJoinBatch bs (customer_master s1) (product_master s1) (valid_dates s1).
Proof.
  unfold load_master_data. simpl.
  by destruct (match products with Some _ => _ | None => _ end).
Qed.

Lemma joined_records_store s s' ts :
  customer_master s' = customer_master s ->
  product_master s' = product_master s ->
  valid_dates s' = valid_dates s ->
  joined_records s' ts = joined_records s ts.
Proof.
  intros. unfold joined_records. apply flat_map_ext. intros t.
  by rewrite (join_record_store s s').
Qed.

Lemma count_outcome_store p s s' ts :
  customer_master s' = customer_master s ->
  product_master s' = product_master s ->
  valid_dates s' = valid_dates s ->
  count_outcome p s' ts = count_outcome p s ts.
Proof.
  intros. unfold count_outcome. f_equal.
  induction ts as [|t ts IH]; [done|].
  rewrite !filter_cons, IH, (join_record_store s s') by done. done.
Qed.

(** X14.  [run] on a fresh object.  When it returns [False] no thread was
    started: nothing was read, joined or handed to the connection, and rows
    of [fact_sales] were deleted only if the prompt was answered yes.  When
    it returns [True] the connection was alive, the reader has returned with
    [stream_complete] set, and [fact_sales] holds exactly the rows committed
    by this run: as many as [total_loaded_tuples] says, and a subsequence,
    in feed order, of the joins of the transactions of the feed.  If moreover
    the join thread returned and nothing interrupted the run, the channel is
    empty, every transaction read was counted as joined or skipped, and the
    batches handed to the connection are the joins of the whole feed. *)
Theorem run_result_accounts_for_fact_sales (env : run_env) (bs : Z)
    (r : run_result) :
  run int_of_str float_of_str env (new_HybridJoinBatch bs ∅ ∅ ∅) = Some r ->
  match r with
  | SetupFailed s table =>
      stream_buffer s = [] /\ insert_batch s = [] /\ db_conn s = [] /\
      (total_stream_tuples s, total_joined_tuples s, total_loaded_tuples s,
       total_skipped s) = (0, 0, 0, 0)%nat /\
      stream_complete s = false /\
      (table <> env_table env ->
         table = [] /\
         exists a, env_answer env = Some a /\ lower (strip a) = "yes"%string)
  | Completed σ table =>
      env_connect env = Connection true /\
      reader σ = RDone /\ stream_complete (self σ) = true /\
      table = fact_sales (db_conn (self σ)) /\
      length table = total_loaded_tuples (self σ) /\
      table `sublist_of`
        joined_records (self σ) (reader_transactions int_of_str (env_feed env)) /\
      (joiner σ = JDone -> running (self σ) = true ->
         stream_buffer (self σ) = [] /\ insert_batch (self σ) = [] /\
         total_stream_tuples (self σ) =
           (total_joined_tuples (self σ) + total_skipped (self σ))%nat /\
         flushed (db_conn (self σ)) =
           joined_records (self σ) (reader_transactions int_of_str (env_feed env)))
  end.
Proof.
  unfold run.
  destruct (truthy (connect_to_database (env_connect env))) eqn:Ec; simpl.
  2:{ intros [= <-]. repeat split; done. }
  pose proof (truncate_fact_table_table (env_fault env) (env_answer env)
                (env_table env)) as Ht.
  destruct (truncate_fact_table (env_fault env) (env_answer env) (env_table env))
    as [[ok table] asked].
  destruct Ht as (Ht1 & Ht2).
  destruct ok; simpl.
  2:{ intros [= <-]. repeat split; try done; apply Ht2; done. }
  specialize (Ht1 eq_refl). subst table.
  pose proof (load_master_data_new (env_customers env) (env_dates env)
                (env_products env) bs ∅ ∅ ∅) as Hnew. simpl in Hnew.
  destruct (load_master_data float_of_str (env_customers env) (env_dates env)
              (env_products env) (new_HybridJoinBatch bs ∅ ∅ ∅)) as [ok s1].
  simpl in Hnew. destruct ok; simpl.
  2:{ intros [= <-]. rewrite Hnew. repeat split; try done; apply Ht2; done. }
  destruct (run_schedule int_of_str (env_sched env) (start s1 (env_feed env)))
    as [σ|] eqn:Er; [|done].
  destruct (returned (reader σ)) eqn:Ed; [|done].
  destruct (join_thread_ended (joiner σ)) eqn:Ee; [|done].
  intros [= <-].
  assert (Inv int_of_str bs (customer_master s1) (product_master s1)
            (valid_dates s1) (env_feed env) σ) as I.
  { apply reachable_Inv. exists (env_sched env). unfold s0. by rewrite <- Hnew. }
  destruct I as [Hst Hpre Hpend Hj Hsk Hra Hout Hload Hread Hcomp _ Hexit _ _ _].
  destruct Hst as (_ & Hcm & Hpm & Hvd).
  assert (reader σ = RDone) as Hd by (destruct (reader σ); done).
  set (s00 := s0 bs (customer_master s1) (product_master s1) (valid_dates s1)) in *.
  assert (forall ts, joined_records (self σ) ts = joined_records s00 ts) as Ejr.
  { intros ts. by apply joined_records_store. }
  assert (forall p ts, count_outcome p (self σ) ts = count_outcome p s00 ts) as Eco.
  { intros p ts. by apply count_outcome_store. }
  split.
  { destruct (env_connect env) as [|[|]]; done. }
  split; [done|]. split; [by rewrite Hcomp, Hd|].
  split; [done|]. split; [by rewrite Hload|]. split.
  - etrans; [apply fact_sales_sublist|].
    destruct Hpre as [rest Hrest].
    rewrite <- Hrest, Ejr, joined_records_app, <- Hout.
    do 2 apply sublist_inserts_r. done.
  - intros Hjd Hrun.
    destruct (Hexit (or_intror Hjd) Hrun) as (_ & Hbuf & Hib).
    specialize (Hpend Hrun). rewrite Hbuf, Hd in Hpend. simpl in Hpend.
    rewrite app_nil_r in Hpend.
    rewrite Hbuf, Hd, app_nil_r in Hread. simpl in Hread.
    rewrite Hjd in Hra. simpl in Hra.
    rewrite Hib, app_nil_r in Hout.
    pose proof (count_outcome_total s00 (popped σ)) as Htot.
    repeat split; try done.
    + rewrite Hj, Hsk. lia.
    + by rewrite Ejr, <- Hpend.
Qed.

End RunProperties.

(** * Runs in which the database accepts every batch, and runs to the end *)

Lemma rolled_back_app l1 l2 : rolled_back (l1 ++ l2) = rolled_back l1 ++ rolled_back l2.
Proof. unfold rolled_back. by rewrite map_app, concat_app. Qed.

Lemma flush_batch_rolled_back db_ok s :
  rolled_back (db_conn (snd (flush_batch db_ok s))) =
  rolled_back (db_conn s) ++ (if db_ok then [] else insert_batch s).
Proof.
  unfold flush_batch. destruct (insert_batch s) as [|r b] eqn:Eb.
  - simpl. by destruct db_ok; rewrite app_nil_r.
  - destruct db_ok; simpl; rewrite rolled_back_app; unfold rolled_back; simpl;
      by rewrite ?app_nil_r.
Qed.

Lemma fact_sales_flushed log : rolled_back log = [] -> fact_sales log = flushed log.
Proof.
  induction log as [|e log IH]; [done|].
  unfold rolled_back, fact_sales, flushed in *. simpl. intros H.
  apply app_eq_nil in H as [H1 H2]. rewrite IH by done.
  destruct e; simpl in *; [done|]. by rewrite H1.
Qed.

(** The database does not refuse a batch during this action. *)
Definition accepts (a : action) : bool :=
  match a with
  | Join false => false
  | _ => true
  end.

Section CleanRuns.

Variable int_of_str : string -> option Z.

Lemma accepted_step a σ σ' :
  accepts a = true -> step int_of_str a σ = Some σ' ->
  rolled_back (db_conn (self σ')) = rolled_back (db_conn (self σ)).
Proof.
  intros Ha Hs. destruct σ as [s rpc jpc pop]. destruct a as [|[|]|]; try done; simpl in Hs.
  - unfold stream_reader_thread_step in Hs; simpl in Hs.
    repeat case_match; by simplify_eq.
  - unfold hybridjoin_thread_step in Hs; simpl in Hs.
    destruct jpc; try done.
    + by simplify_eq.
    + destruct (running s); by simplify_eq.
    + destruct (stream_buffer s) as [|t q]; [by simplify_eq|].
      unfold join_body in Hs.
      destruct (join_record (set_stream_buffer q s) t) as [r| |]; simplify_eq; simpl;
        try done.
      unfold flush_if_full. case_match; [|done].
      by rewrite flush_batch_rolled_back, app_nil_r.
    + destruct (stream_complete s); simplify_eq; simpl; [|done].
      by rewrite flush_if_nonempty_eq, flush_batch_rolled_back, app_nil_r.
    + destruct (stream_buffer s); by simplify_eq.
    + simplify_eq. simpl.
      by rewrite flush_if_nonempty_eq, flush_batch_rolled_back, app_nil_r.
  - by simplify_eq.
Qed.

Lemma accepted_run sched σ σ' :
  forallb accepts sched = true -> run_schedule int_of_str sched σ = Some σ' ->
  rolled_back (db_conn (self σ')) = rolled_back (db_conn (self σ)).
Proof.
  revert σ. induction sched as [|a sched IH]; simpl; intros σ Ha Hs.
  - by simplify_eq.
  - apply andb_prop in Ha as [Ha1 Ha2].
    destruct (step int_of_str a σ) as [σ1|] eqn:Es; [|done].
    rewrite (IH σ1 Ha2 Hs). by eapply accepted_step.
Qed.

(** X16.  A record is lost only by a flush that the database refuses: in a
    run in which no flush fails nothing is rolled back, [fact_sales] holds
    every record handed to the connection, in pop order, the records joined
    are the records loaded plus those still in [insert_batch], and when the
    join thread has returned the two counters agree. *)
Theorem no_failed_flush_no_lost_record (bs : Z) (cm : gmap string CustomerRecord)
    (pm : gmap string ProductRecord) (vd : gset Z) (f : feed)
    (sched : list action) (σ : System) :
  forallb accepts sched = true ->
  run_schedule int_of_str sched (start (new_HybridJoinBatch bs cm pm vd) f) = Some σ ->
  rolled_back (db_conn (self σ)) = [] /\
  fact_sales (db_conn (self σ)) ++ insert_batch (self σ) =
    joined_records (new_HybridJoinBatch bs cm pm vd) (popped σ) /\
  total_joined_tuples (self σ) =
    (total_loaded_tuples (self σ) + length (insert_batch (self σ)))%nat /\
  (joiner σ = JDone -> total_loaded_tuples (self σ) = total_joined_tuples (self σ)).
Proof.
  intros Ha Hs.
  pose proof (accepted_run _ _ _ Ha Hs) as Hrb. simpl in Hrb.
  assert (Inv int_of_str bs cm pm vd f σ) as I by (apply reachable_Inv; by exists sched).
  destruct I as [_ _ _ Hj _ _ Hout Hload _ _ _ _ Hdone _ _].
  pose proof (fact_sales_flushed _ Hrb) as Hfs.
  assert (total_joined_tuples (self σ) =
          (total_loaded_tuples (self σ) + length (insert_batch (self σ)))%nat) as E.
  { rewrite Hj, <- joined_records_length, <- Hout, length_app.
    rewrite Hload, Hfs. done. }
  split; [done|]. split; [by rewrite Hfs|]. split; [done|].
  intros Hd. rewrite E, (Hdone Hd). simpl. lia.
Qed.


End CleanRuns.

(** * The progress lines of [hybridjoin_thread] *)

(** Each value is at least 10000 above the one before it, [last] first. *)
Fixpoint apart (last : Z) (rs : list Z) : Prop :=
  match rs with
  | [] => True
  | v :: rs' => last + 10000 <= v /\ apart v rs'
  end.

Lemma progress_reports_spec processed last outs :
  last <= processed ->
  let rs := progress_reports processed last outs in
  Forall (fun v =>
            processed < v <= processed + Z.of_nat (length outs) /\
            is_joined <$> outs !! Z.to_nat (v - processed - 1) = Some true) rs /\
  apart last rs /\
  10000 * Z.of_nat (length rs) <= processed + Z.of_nat (length outs) - last.
Proof.
  revert processed last. induction outs as [|o outs IH]; intros p l Hl; simpl.
  - repeat split; [constructor|lia].
  - assert (forall rs l',
      l' <= p + 1 ->
      Forall (fun v => p + 1 < v <= p + 1 + Z.of_nat (length outs) /\
                is_joined <$> outs !! Z.to_nat (v - (p + 1) - 1) = Some true) rs /\
      apart l' rs /\
      10000 * Z.of_nat (length rs) <= p + 1 + Z.of_nat (length outs) - l' ->
      Forall (fun v => p < v <= p + Z.pos (Pos.of_succ_nat (length outs)) /\
                is_joined <$> (o :: outs) !! Z.to_nat (v - p - 1) = Some true) rs /\
      apart l' rs /\
      10000 * Z.of_nat (length rs) <= p + Z.pos (Pos.of_succ_nat (length outs)) - l')
      as Hshift.
    { intros rs l' Hl' (H1 & H2 & H3). repeat split; [|done|lia].
      eapply Forall_impl; [exact H1|]. intros v [Hv1 Hv2]. simpl. split; [lia|].
      replace (Z.to_nat (v - p - 1)) with (S (Z.to_nat (v - (p + 1) - 1))) by lia.
      done. }
    destruct o as [r| |]; simpl.
    + destruct (10000 <=? p + 1 - l) eqn:E.
      * destruct (IH (p + 1) (p + 1) ltac:(lia)) as (H1 & H2 & H3).
        destruct (Hshift _ (p + 1) ltac:(lia) (conj H1 (conj H2 H3))) as (G1 & G2 & G3).
        repeat split.
        -- constructor; [|done]. split; [lia|].
           replace (Z.to_nat (p + 1 - p - 1)) with 0%nat by lia. done.
        -- lia.
        -- done.
        -- simpl length. lia.
      * apply Hshift; [lia|]. apply IH. lia.
    + apply Hshift; [lia|]. apply IH. lia.
    + split_and!; [constructor|done|lia].
Qed.

(** X15.  The progress lines of a run of the loop over the popped records:
    a line is printed only right after a record that joined, consecutive
    lines are at least 10000 popped records apart (the first at least 10000
    from the start), there are at most a ten-thousandth as many lines as
    records, and a stretch of records that are all skipped prints none,
    however long it is. *)
Theorem progress_lines_are_spaced_and_follow_a_join (outs : list join_outcome) :
  let rs := progress_reports 0 0 outs in
  Forall (fun v =>
            0 < v <= Z.of_nat (length outs) /\
            is_joined <$> outs !! Z.to_nat (v - 1) = Some true) rs /\
  apart 0 rs /\
  10000 * Z.of_nat (length rs) <= Z.of_nat (length outs) /\
  (forall n processed last, progress_reports processed last (repeat Skipped n) = []).
Proof.
  destruct (progress_reports_spec 0 0 outs ltac:(lia)) as (H1 & H2 & H3).
  simpl. repeat split.
  - eapply Forall_impl; [exact H1|]. intros v [Hv1 Hv2]. split; [lia|].
    by replace (v - 1) with (v - 0 - 1) by lia.
  - done.
  - lia.
  - induction n as [|n IH]; intros p l; simpl; [done|apply IH].
Qed.

(** * The master-data loader ([Load-Master-Data.py]) *)

Module LoadMasterData.

(** A parameter bound to a [%s] of an [INSERT]. *)
Inductive value :=
| VStr (s : string)
| VFloat (x : float).

(** The statements the loader passes to [cursor.execute]. *)
Inductive statement :=
| SetForeignKeyChecks (on : bool)    (* SET FOREIGN_KEY_CHECKS = 0 / = 1 *)
| TruncateTable (table : string)     (* TRUNCATE TABLE <table> *)
| InsertInto (table : string) (values : list value)
| SelectCount (table : string).      (* SELECT COUNT( * ) FROM <table> *)

(** What the connection and its cursor were asked to do, in call order;
    [ok] is false when [execute] raised.  A [commit] that raises leaves no
    event; [rollback] and the two [close] calls are taken not to raise. *)
Inductive event :=
| Executed (st : statement) (ok : bool)
| Commit
| Rollback
| CursorClosed
| ConnectionClosed.

(** How a call ends: it returns, or an [Exception] leaves it. *)
Inductive outcome (A : Type) :=
| Returned (a : A)
| Raises.
Arguments Returned {A} a.
Arguments Raises {A}.

(** What [pd.read_csv] makes of a file: an exception, or a frame with its
    column names and its rows. *)
Inductive csv (row : Type) :=
| FileNotFound
| ReadFails
| Frame (columns : list string) (rows : list row).
Arguments FileNotFound {row}.
Arguments ReadFails {row}.
Arguments Frame {row} columns rows.

(** A row of the customer file; the fields hold what [str] makes of the
    cells, and a field whose column the frame does not have is not looked
    at. *)
Record customer_row := {
  cr_Customer_ID : string;
  cr_Gender : string;
  cr_Age : string;
  cr_Occupation : string;
  cr_City_Category : string;
  cr_Stay_In_Current_City_Years : string;
  cr_Marital_Status : string
}.

(** A row of the product file.  [storeID] and [supplierID] are kept as
    cells: [drop_duplicates] compares them before [str] is applied. *)
Record product_file_row := {
  pf_Product_ID : string;
  pf_Product_Category : string;
  pf_price : cell;
  pf_storeID : cell;
  pf_storeName : string;
  pf_supplierID : cell;
  pf_supplierName : string
}.

Definition tables_to_truncate : list string :=
  ["fact_sales"; "dim_customer"; "dim_product"; "dim_store"; "dim_supplier"]%string.

(** Lines 91-92 and 155-156: the columns after the index column that an
    earlier [to_csv] left is dropped; [None] is the [IndexError] of
    [columns[0]] on a frame without columns. *)
Definition drop_unnamed (columns : list string) : option (list string) :=
  match columns with
  | [] => None
  | c :: cs => Some (if String.prefix "Unnamed" c then cs else columns)
  end.

(** Whether [row[name]] finds each of the names; it raises [KeyError]
    otherwise. *)
Definition has_columns (columns names : list string) : bool :=
  forallb (fun name => bool_decide (name ∈ columns)) names.
Arguments has_columns : simpl never.

(** [x or default] on text. *)
Definition py_or (x default : string) : string :=
  match x with
  | EmptyString => default
  | _ => x
  end.

Definition statement_of (ev : event) : option statement :=
  match ev with
  | Executed st _ => Some st
  | _ => None
  end.

(** The statements that were executed without raising. *)
Definition succeeded (log : list event) : list statement :=
  omap (fun ev => match ev with Executed st true => Some st | _ => None end) log.

(** The statements that raised. *)
Definition failed (log : list event) : list statement :=
  omap (fun ev => match ev with Executed st false => Some st | _ => None end) log.

(** The successful statements a [commit] has made permanent: those not
    followed by a [rollback] before the next [commit]. *)
Fixpoint committed_from (pending : list statement) (log : list event) : list statement :=
  match log with
  | [] => []
  | Executed st true :: log' => committed_from (pending ++ [st]) log'
  | Commit :: log' => pending ++ committed_from [] log'
  | Rollback :: log' => committed_from [] log'
  | _ :: log' => committed_from pending log'
  end.

Definition committed (log : list event) : list statement := committed_from [] log.

Section Cursor.

(** Whether [cursor.execute] raises on a statement, given what the
    connection has been asked before. *)
Variable raises : list event -> statement -> bool.
(** Python's [float(text)] and [str(cell)]. *)
Variable float_of_str : string -> option float.
Variable py_str : cell -> string.
(** The test by which [drop_duplicates] takes two cells of the key column
    for the same key. *)
Variable duplicate : cell -> cell -> bool.

(** [cursor.execute(st)] *)
Definition execute (st : statement) (log : list event) : bool * list event :=
  let ok := negb (raises log st) in
  (ok, log ++ [Executed st ok]).

(** The [except] clause of [truncate_tables] (lines 73-76). *)
Definition truncate_handler (log : list event) : outcome bool * list event :=
  let '(ok, log) := execute (SetForeignKeyChecks true) log in
  if ok then (Returned false, log) else (Raises, log).

(** [truncate_tables]; [answer] is what [input] returns, [None] when it
    raises. *)
Definition truncate_tables (answer : option string) (log : list event)
    : outcome bool * list event :=
  match answer with
  | None => (Raises, log)
  | Some a =>
      let confirm := lower (strip a) in
      if bool_decide (confirm <> "yes"%string) then (Returned false, log)
      else
        let '(ok, log) := execute (SetForeignKeyChecks false) log in
        if ok then
          let log :=
            foldl (fun log table => snd (execute (TruncateTable table) log))
              log tables_to_truncate in
          let '(ok, log) := execute (SetForeignKeyChecks true) log in
          if ok then (Returned true, log) else truncate_handler log
        else truncate_handler log
  end.

(** The loop shared by the four loads: one [INSERT] per row, [inserted]
    counted when it succeeds, [errors] when building the parameters or the
    [execute] raises. *)
Fixpoint insert_rows {row : Type} (table : string)
    (values_of : row -> option (list value)) (rows : list row)
    (inserted errors : nat) (log : list event) : nat * nat * list event :=
  match rows with
  | [] => (inserted, errors, log)
  | r :: rows' =>
      match values_of r with
      | Some values =>
          let '(ok, log) := execute (InsertInto table values) log in
          if ok then insert_rows table values_of rows' (S inserted) errors log
          else insert_rows table values_of rows' inserted (S errors) log
      | None => insert_rows table values_of rows' inserted (S errors) log
      end
  end.

Definition customer_columns : list string :=
  ["Customer_ID"; "Gender"; "Age"; "Occupation"; "City_Category";
   "Stay_In_Current_City_Years"; "Marital_Status"]%string.

(** The parameters of the [INSERT] of a customer row (lines 106-114). *)
Definition customer_values (columns : list string) (row : customer_row)
    : option (list value) :=
  if has_columns columns customer_columns then
    Some [VStr (strip (cr_Customer_ID row)); VStr (strip (cr_Gender row));
          VStr (strip (cr_Age row)); VStr (strip (cr_Occupation row));
          VStr (strip (cr_City_Category row));
          VStr (strip (cr_Stay_In_Current_City_Years row));
          VStr (strip (cr_Marital_Status row))]
  else None.

(** [load_customer_data] on what [read_csv] made of the file: the result,
    the two counts of the summary, and the history of the connection. *)
Definition load_customer_data (file : csv customer_row) (log : list event)
    : bool * (nat * nat) * list event :=
  match file with
  | Frame columns customers =>
      match drop_unnamed columns with
      | Some columns =>
          let '(inserted, errors, log) :=
            insert_rows "dim_customer" (customer_values columns) customers 0 0 log in
          (true, (inserted, errors), log)
      | None => (false, (0, 0)%nat, log)
      end
  | _ => (false, (0, 0)%nat, log)
  end.

(** Lines 165-176. *)
Definition product_values (columns : list string) (row : product_file_row)
    : option (list value) :=
  if has_columns columns ["price$"; "Product_ID"; "Product_Category"]%string then
    match (if pd_notna (pf_price row) then py_float float_of_str (pf_price row)
           else Some zero) with
    | Some price_value =>
        Some [VStr (strip (pf_Product_ID row));
              VStr (strip (pf_Product_Category row)); VFloat price_value]
    | None => None
    end
  else None.

Definition store_values (row : product_file_row) : option (list value) :=
  Some [VStr (strip (py_str (pf_storeID row))); VStr (strip (pf_storeName row))].

Definition supplier_values (row : product_file_row) : option (list value) :=
  Some [VStr (strip (py_str (pf_supplierID row))); VStr (strip (pf_supplierName row))].

(** [df.drop_duplicates(key)]: a row stays unless its key duplicates the
    key of a row that stayed before it. *)
Fixpoint drop_duplicates_from {row : Type} (key : row -> cell) (seen : list cell)
    (rows : list row) : list row :=
  match rows with
  | [] => []
  | r :: rows' =>
      if existsb (duplicate (key r)) seen
      then drop_duplicates_from key seen rows'
      else r :: drop_duplicates_from key (seen ++ [key r]) rows'
  end.

Definition drop_duplicates {row : Type} (key : row -> cell) (rows : list row)
    : list row :=
  drop_duplicates_from key [] rows.

(** [load_product_data]: the result, the six counts it prints (products,
    stores, suppliers; those of a loop it did not reach are 0), and the
    history of the connection.  A frame without the store or the supplier
    columns raises [KeyError] at the selection, after the loops before
    it. *)
Definition load_product_data (file : csv product_file_row) (log : list event)
    : bool * ((nat * nat) * (nat * nat) * (nat * nat)) * list event :=
  match file with
  | Frame columns products =>
      match drop_unnamed columns with
      | Some columns =>
          let '(product_inserted, product_errors, log) :=
            insert_rows "dim_product" (product_values columns) products 0 0 log in
          if negb (has_columns columns ["storeID"; "storeName"]%string) then
            (false, ((product_inserted, product_errors), (0, 0), (0, 0))%nat, log)
          else
            let stores := drop_duplicates pf_storeID products in
            let '(store_inserted, store_errors, log) :=
              insert_rows "dim_store" store_values stores 0 0 log in
            if negb (has_columns columns ["supplierID"; "supplierName"]%string) then
              (false,
               ((product_inserted, product_errors), (store_inserted, store_errors),
                (0, 0))%nat, log)
            else
              let suppliers := drop_duplicates pf_supplierID products in
              let '(supplier_inserted, supplier_errors, log) :=
                insert_rows "dim_supplier" supplier_values suppliers 0 0 log in
              (true,
               ((product_inserted, product_errors), (store_inserted, store_errors),
                (supplier_inserted, supplier_errors)), log)
      | None => (false, ((0, 0), (0, 0), (0, 0))%nat, log)
      end
  | _ => (false, ((0, 0), (0, 0), (0, 0))%nat, log)
  end.

(** [verify_data]: one count per table, each in its own [try]. *)
Definition verify_data (log : list event) : list event :=
  foldl (fun log table => snd (execute (SelectCount table) log)) log
    ["dim_customer"; "dim_product"; "dim_store"; "dim_supplier"; "dim_date"]%string.

End Cursor.

(** The arguments of [mysql.connector.connect]. *)
Record db_config := {
  host : string;
  database : string;
  user : string;
  password : string
}.

(** The configuration built from the lines typed at the four connection
    prompts. *)
Definition config_of_prompts (h d u p : string) : db_config :=
  {| host := py_or (strip h) "localhost";
     database := py_or (strip d) "walmart_dw";
     user := py_or (strip u) "root";
     password := strip p |}.

(** What lines 21-29 of [get_db_connection] meet: [connect] or
    [get_server_info] raises [mysql.connector.Error], which the function
    catches; one of them raises another exception (a [UnicodeError] for a
    host name that cannot be encoded, say), which nothing catches; or there
    is a connection, which [is_connected()] reports alive or not. *)
Inductive connection :=
| Refused
| Fails
| Opened (alive : bool).

(** What the loader is run against: the lines typed at its prompts (a
    prompt past the last one raises [EOFError]), what [connect] does with a
    configuration, whether [conn.cursor()] raises, whether a [commit]
    raises given what the connection has been asked before, what
    [read_csv] makes of a file name, and the behaviour of the cursor. *)
Record main_env := {
  me_inputs : list string;
  me_connect : db_config -> connection;
  me_cursor_raises : bool;
  me_commit_raises : list event -> bool;
  me_customer_file : string -> csv customer_row;
  me_product_file : string -> csv product_file_row;
  me_raises : list event -> statement -> bool;
  me_float_of_str : string -> option float;
  me_py_str : cell -> string;
  me_duplicate : cell -> cell -> bool
}.

(** [get_db_connection]: the configuration it connects with and whether it
    returns a connection ([None] otherwise); [Raises] when a prompt does,
    or when [connect] or [get_server_info] raises something that is not an
    [Error]. *)
Definition get_db_connection (connect : db_config -> connection)
    (inputs : list string) : outcome (db_config * bool) * list string :=
  match inputs with
  | h :: d :: u :: p :: rest =>
      let config := config_of_prompts h d u p in
      match connect config with
      | Fails => (Raises, rest)
      | Opened true => (Returned (config, true), rest)
      | Opened false => (Returned (config, false), rest)
      | Refused => (Returned (config, false), rest)
      end
  | _ => (Raises, [])
  end.

(** [conn.commit()]; [None] when it raises. *)
Definition commit (commit_raises : list event -> bool) (log : list event)
    : option (list event) :=
  if commit_raises log then None else Some (log ++ [Commit]).

(** How the process ends. *)
Inductive exit_status :=
| FallsOffTheEnd     (* [main] returns: status 0 *)
| SysExit1           (* [sys.exit(1)] *)
| Traceback.         (* an exception leaves [main] *)

(** The [try] block of [main] (lines 295-337) up to the point where it is
    left, with what is typed at its prompts.  [Raises] is an [Exception]:
    a prompt at the end of the input, a [commit] that raises, or what
    [truncate_tables] lets through. *)
Definition main_body (env : main_env) (inputs : list string)
    : outcome exit_status * list event :=
  let raises := me_raises env in
  match truncate_tables raises (head inputs) [] with
  | (Raises, log) => (Raises, log)
  | (Returned false, log) => (Returned SysExit1, log)
  | (Returned true, log) =>
      match commit (me_commit_raises env) log with
      | None => (Raises, log)
      | Some log =>
          match tail inputs with
          | [] => (Raises, log)
          | c :: inputs =>
              let customer_file := py_or (strip c) "customer_master_data.csv" in
              let '(ok, _, log) :=
                load_customer_data raises (me_customer_file env customer_file) log in
              if negb ok then (Returned SysExit1, log ++ [Rollback])
              else
                match commit (me_commit_raises env) log with
                | None => (Raises, log)
                | Some log =>
                    match inputs with
                    | [] => (Raises, log)
                    | p :: _ =>
                        let product_file :=
                          py_or (strip p) "product_master_data.csv" in
                        let '(ok, _, log) :=
                          load_product_data raises (me_float_of_str env)
                            (me_py_str env) (me_duplicate env)
                            (me_product_file env product_file) log in
                        if negb ok then (Returned SysExit1, log ++ [Rollback])
                        else
                          match commit (me_commit_raises env) log with
                          | None => (Raises, log)
                          | Some log =>
                              (Returned FallsOffTheEnd, verify_data raises log)
                          end
                    end
                end
          end
      end
  end.

(** [main]: the exit status and the history of the connection.  An
    exception of [get_db_connection] or of [conn.cursor()] (line 292) is
    outside the [try] and leaves [main]; an [Exception] inside it is caught
    and followed by [rollback]; [sys.exit] is not caught; the [finally]
    closes the cursor and the connection in each case. *)
Definition main (env : main_env) : exit_status * list event :=
  match get_db_connection (me_connect env) (me_inputs env) with
  | (Raises, _) => (Traceback, [])
  | (Returned (_, false), _) => (SysExit1, [])
  | (Returned (_, true), inputs) =>
      if me_cursor_raises env then (Traceback, [])
      else
        let '(r, log) := main_body env inputs in
        let '(status, log) :=
          match r with
          | Returned status => (status, log)
          | Raises => (FallsOffTheEnd, log ++ [Rollback])   (* [except Exception] *)
          end in
        (status, log ++ [CursorClosed; ConnectionClosed])
  end.

End LoadMasterData.

Import LoadMasterData.

(** ** Properties of the loader *)

Lemma succeeded_app l1 l2 : succeeded (l1 ++ l2) = succeeded l1 ++ succeeded l2.
Proof. unfold succeeded. apply omap_app. Qed.

Lemma failed_app l1 l2 : failed (l1 ++ l2) = failed l1 ++ failed l2.
Proof. unfold failed. apply omap_app. Qed.

(** The events of a stretch of [execute] calls. *)
Definition executions (evs : list event) : Prop :=
  Forall (fun ev => exists st ok, ev = Executed st ok) evs.

Lemma executions_nil : executions [].
Proof. by apply Forall_nil. Qed.

Lemma executions_app evs1 evs2 :
  executions evs1 -> executions evs2 -> executions (evs1 ++ evs2).
Proof. apply Forall_app_2. Qed.

Lemma executions_length evs :
  executions evs ->
  length evs = (length (succeeded evs) + length (failed evs))%nat.
Proof.
  induction 1 as [|ev evs (st & ok & ->) _ IH]; [done|].
  unfold succeeded, failed in *. destruct ok; csimpl; simpl; lia.
Qed.

(** Dropping the index column does not hide a column the loader reads:
    none of their names starts with "Unnamed". *)
Lemma has_columns_drop_unnamed columns columns' names :
  drop_unnamed columns = Some columns' ->
  forallb (fun name => negb (String.prefix "Unnamed" name)) names = true ->
  has_columns columns' names = has_columns columns names.
Proof.
  destruct columns as [|c cs]; simpl; [done|]. intros [= <-] Hn.
  destruct (String.prefix "Unnamed" c) eqn:Ec; [|done].
  unfold has_columns. induction names as [|n names IH]; [done|].
  simpl in *. apply andb_prop in Hn as [Hn1 Hn2]. rewrite IH by done. f_equal.
  apply bool_decide_ext. rewrite elem_of_cons.
  split; [by right|]. intros [->|]; [|done].
  by rewrite Ec in Hn1.
Qed.

(** A parameter that is a text without white space around it. *)
Definition stripped (v : value) : Prop :=
  exists s, v = VStr s /\ strip s = s.

Lemma stripped_strip s : stripped (VStr (strip s)).
Proof. exists (strip s). split; [done|apply strip_idempotent]. Qed.

Lemma omap_Some_eq {A B : Type} (f : A -> B) (l : list A) :
  omap (fun x => Some (f x)) l = map f l.
Proof. induction l as [|x l IH]; [done|]. csimpl. by rewrite IH. Qed.

Lemma omap_None_eq {A B : Type} (l : list A) :
  omap (fun _ : A => @None B) l = [].
Proof. induction l as [|x l IH]; [done|]. csimpl. by rewrite IH. Qed.

Lemma omap_total_length {A B : Type} (f : A -> option B) (l : list A) :
  (forall x, is_Some (f x)) -> length (omap f l) = length l.
Proof.
  intros Hf. induction l as [|x l IH]; [done|]. csimpl.
  destruct (Hf x) as [y ->]. simpl. by rewrite IH.
Qed.

Lemma omap_statement_of_length evs :
  executions evs -> length (omap statement_of evs) = length evs.
Proof.
  induction 1 as [|ev evs (st & ok & ->) _ IH]; [done|]. csimpl. simpl. by rewrite IH.
Qed.

Lemma omap_statement_of_nil evs :
  executions evs -> omap statement_of evs = [] -> evs = [].
Proof.
  intros He Hn. apply omap_statement_of_length in He. rewrite Hn in He.
  by destruct evs.
Qed.

(** An [INSERT] into the given table. *)
Definition inserts_into (table : string) (st : statement) : Prop :=
  exists values, st = InsertInto table values.

Lemma inserts_into_omap {row : Type} table (values_of : row -> option (list value)) rows :
  Forall (inserts_into table) (omap (fun r => InsertInto table <$> values_of r) rows).
Proof.
  induction rows as [|r rows IH]; [constructor|]. csimpl.
  destruct (values_of r); simpl; [|done]. constructor; [by eexists|done].
Qed.

Section DropDuplicates.

Variable duplicate : cell -> cell -> bool.
Context {row : Type}.
Variable key : row -> cell.

Lemma drop_duplicates_from_sublist seen rows :
  drop_duplicates_from duplicate key seen rows `sublist_of` rows.
Proof.
  revert seen. induction rows as [|r rows IH]; intros seen; simpl; [done|].
  destruct (existsb (duplicate (key r)) seen).
  - by apply sublist_cons.
  - by apply sublist_skip.
Qed.

Lemma drop_duplicates_from_fresh seen rows r :
  r ∈ drop_duplicates_from duplicate key seen rows ->
  existsb (duplicate (key r)) seen = false.
Proof.
  revert seen. induction rows as [|r0 rows IH]; intros seen; simpl.
  - by intros ?%elem_of_nil.
  - destruct (existsb (duplicate (key r0)) seen) eqn:E; [apply IH|].
    intros [->|Hin]%elem_of_cons; [done|].
    apply IH in Hin. rewrite existsb_app in Hin. by apply orb_false_elim in Hin as [? _].
Qed.

Lemma drop_duplicates_from_apart seen rows pre r1 mid r2 post :
  drop_duplicates_from duplicate key seen rows = pre ++ r1 :: mid ++ r2 :: post ->
  duplicate (key r2) (key r1) = false.
Proof.
  revert seen pre. induction rows as [|r0 rows IH]; intros seen pre; simpl.
  - by destruct pre.
  - destruct (existsb (duplicate (key r0)) seen) eqn:E; [apply IH|].
    destruct pre as [|r pre]; simpl.
    + intros [= <- Hrest].
      assert (r2 ∈ drop_duplicates_from duplicate key (seen ++ [key r0]) rows) as Hin.
      { rewrite Hrest. apply elem_of_app. right. by left. }
      apply drop_duplicates_from_fresh in Hin. rewrite existsb_app in Hin.
      apply orb_false_elim in Hin as [_ Hin]. simpl in Hin.
      by rewrite orb_false_r in Hin.
    + intros [= <- Hrest]. by eapply IH.
Qed.

Lemma drop_duplicates_from_covers seen rows r :
  r ∈ rows ->
  r ∈ drop_duplicates_from duplicate key seen rows \/
  existsb (duplicate (key r))
    (seen ++ map key (drop_duplicates_from duplicate key seen rows)) = true.
Proof.
  revert seen. induction rows as [|r0 rows IH]; intros seen; simpl.
  - by intros ?%elem_of_nil.
  - destruct (existsb (duplicate (key r0)) seen) eqn:E.
    + intros [->|Hin]%elem_of_cons; [|by apply IH].
      right. rewrite existsb_app, E. done.
    + intros [->|Hin]%elem_of_cons; [left; by left|].
      destruct (IH (seen ++ [key r0]) Hin) as [H|H]; [left; by right|].
      right. simpl. by rewrite <- app_assoc in H.
Qed.

End DropDuplicates.

(** X20.  The rows [drop_duplicates] keeps for the store and the supplier
    loops, whatever test for duplicate keys pandas applies: they are rows
    of the file in file order, the first row of the file is among them, no
    kept row duplicates the key of a kept row before it, and every row of
    the file is kept or duplicates the key of a kept row. *)
Theorem drop_duplicates_keeps_first_occurrences (duplicate : cell -> cell -> bool)
    {row : Type} (key : row -> cell) (rows : list row) :
  let kept := drop_duplicates duplicate key rows in
  kept `sublist_of` rows /\
  head kept = head rows /\
  (forall pre r1 mid r2 post,
     kept = pre ++ r1 :: mid ++ r2 :: post -> duplicate (key r2) (key r1) = false) /\
  (forall r, r ∈ rows ->
     r ∈ kept \/ exists r', r' ∈ kept /\ duplicate (key r) (key r') = true).
Proof.
  unfold drop_duplicates. split_and!.
  - apply drop_duplicates_from_sublist.
  - by destruct rows.
  - intros pre r1 mid r2 post. apply drop_duplicates_from_apart.
  - intros r Hin.
    destruct (drop_duplicates_from_covers duplicate key [] rows r Hin) as [H|H];
      [by left|right].
    simpl in H. apply existsb_exists in H as (k & Hk & Hd).
    apply (proj1 (in_map_iff _ _ _)) in Hk as (r' & <- & Hr').
    exists r'. split; [by apply list_elem_of_In|done].
Qed.

Section LoaderProperties.

Variable raises : list event -> statement -> bool.

Lemma insert_rows_spec {row : Type} table (values_of : row -> option (list value))
    rows inserted errors log :
  let R := insert_rows raises table values_of rows inserted errors log in
  exists evs,
    R.2 = log ++ evs /\
    R.1.1 = (inserted + length (succeeded evs))%nat /\
    (R.1.1 + R.1.2 = inserted + errors + length rows)%nat /\
    executions evs /\
    omap statement_of evs = omap (fun r => InsertInto table <$> values_of r) rows.
Proof.
  revert inserted errors log.
  induction rows as [|r rows IH]; intros inserted errors log; simpl.
  - exists []. rewrite app_nil_r. split_and!; try done; [simpl; lia..|constructor].
  - destruct (values_of r) as [values|] eqn:Ev; simpl.
    + destruct (negb (raises log (InsertInto table values))) eqn:Eok.
      * destruct (IH (S inserted) errors
                    (log ++ [Executed (InsertInto table values) true]))
          as (evs & H1 & H2 & H3 & He & Hs).
        exists (Executed (InsertInto table values) true :: evs).
        rewrite H1, H2, <- app_assoc. split_and!; try done.
        -- unfold succeeded. csimpl. simpl. lia.
        -- lia.
        -- constructor; [by eexists _, _|done].
        -- csimpl. by rewrite Hs.
      * destruct (IH inserted (S errors)
                    (log ++ [Executed (InsertInto table values) false]))
          as (evs & H1 & H2 & H3 & He & Hs).
        exists (Executed (InsertInto table values) false :: evs).
        rewrite H1, H2, <- app_assoc. split_and!; try done.
        -- lia.
        -- constructor; [by eexists _, _|done].
        -- csimpl. by rewrite Hs.
    + destruct (IH inserted (S errors) log) as (evs & H1 & H2 & H3 & He & Hs).
      exists evs. split_and!; try done. lia.
Qed.

(** X17.  [truncate_tables] touches the database only on an explicit yes,
    and re-enables the foreign key checks on every path on which it
    returns: whenever it has executed anything and returns, the last
    statement is a successful [SET FOREIGN_KEY_CHECKS = 1], and when it
    raises after a yes that statement has just failed.  A result of [True]
    says that the two [SET] statements succeeded, not that any table was
    emptied: each [TRUNCATE] was attempted once, in the order of the list,
    whatever became of the one before, and when only [TRUNCATE] statements
    fail the result is [True]. *)
Theorem truncate_tables_reenables_foreign_key_checks (answer : option string)
    (log : list event) :
  let '(r, log') := truncate_tables raises answer log in
  log `prefix_of` log' /\
  (log' <> log ->
     exists a, answer = Some a /\ lower (strip a) = "yes"%string) /\
  (r = Returned true ->
     exists oks,
       log' = log ++ Executed (SetForeignKeyChecks false) true ::
                zip_with (fun table ok => Executed (TruncateTable table) ok)
                  tables_to_truncate oks ++
                [Executed (SetForeignKeyChecks true) true] /\
       length oks = length tables_to_truncate) /\
  (forall b, r = Returned b -> log' <> log ->
     last log' = Some (Executed (SetForeignKeyChecks true) true)) /\
  (r = Raises ->
     answer = None \/ last log' = Some (Executed (SetForeignKeyChecks true) false)) /\
  ((forall h st, raises h st = true -> exists table, st = TruncateTable table) ->
   forall a, answer = Some a -> lower (strip a) = "yes"%string ->
   r = Returned true).
Proof.
  unfold truncate_tables.
  destruct answer as [a|].
  2:{ split_and!; try done. by left. }
  case_bool_decide as Hy.
  { split_and!; try done. intros _ a' [= <-] Hyes. done. }
  assert (lower (strip a) = "yes"%string) as Hyes.
  { destruct (decide (lower (strip a) = "yes"%string)); done. }
  unfold truncate_handler, execute. simpl.
  destruct (raises log (SetForeignKeyChecks false)) eqn:E0; simpl.
  - (* the first SET raises *)
    destruct (raises _ (SetForeignKeyChecks true)) eqn:E1; simpl.
    + split_and!; try done.
      * rewrite <- !app_assoc. by eexists.
      * intros _. by exists a.
      * intros _. right. by rewrite last_snoc.
      * intros Honly. destruct (Honly _ _ E0) as [? [=]].
    + split_and!; try done.
      * rewrite <- !app_assoc. by eexists.
      * intros _. by exists a.
      * intros b _ _. by rewrite last_snoc.
      * intros Honly. destruct (Honly _ _ E0) as [? [=]].
  - destruct (raises _ (SetForeignKeyChecks true)) eqn:E1; simpl.
    + (* the second SET raises: the handler tries it again *)
      destruct (raises _ (SetForeignKeyChecks true)) eqn:E2 in |- *; simpl.
      * split_and!; try done.
        -- rewrite <- !app_assoc. by eexists.
        -- intros _. by exists a.
        -- intros _. right. by rewrite last_snoc.
        -- intros Honly. destruct (Honly _ _ E1) as [? [=]].
      * split_and!; try done.
        -- rewrite <- !app_assoc. by eexists.
        -- intros _. by exists a.
        -- intros b _ _. by rewrite last_snoc.
        -- intros Honly. destruct (Honly _ _ E1) as [? [=]].
    + split_and!; try done.
      * rewrite <- !app_assoc. by eexists.
      * intros _. by exists a.
      * intros _. eexists [_; _; _; _; _]. split; [|done].
        rewrite <- !app_assoc. simpl. reflexivity.
      * intros b _ _. by rewrite last_snoc.
Qed.

(** The [INSERT] of a customer row: its seven fields, stripped, in the
    order of the columns of [dim_customer]. *)
Definition customer_insert (row : customer_row) : statement :=
  InsertInto "dim_customer"
    [VStr (strip (cr_Customer_ID row)); VStr (strip (cr_Gender row));
     VStr (strip (cr_Age row)); VStr (strip (cr_Occupation row));
     VStr (strip (cr_City_Category row));
     VStr (strip (cr_Stay_In_Current_City_Years row));
     VStr (strip (cr_Marital_Status row))].

Lemma succeeded_sublist evs : succeeded evs `sublist_of` omap statement_of evs.
Proof.
  induction evs as [|ev evs IH]; [done|]. unfold succeeded in *. csimpl.
  destruct ev as [st [|]| | | |]; simpl; try done.
  - by apply sublist_skip.
  - by apply sublist_cons.
Qed.

(** X18.  [load_customer_data] returns [True] whenever the file could be
    read, however many rows were refused: every row is counted once, as
    inserted or as an error; the statements sent to the cursor are, row by
    row and in file order, the [INSERT] into [dim_customer] of the row's
    seven fields, stripped, one per row; a failed [INSERT] does not stop the
    rows after it, so the rows inserted are a subsequence of the file.  A
    frame that lacks one of the seven columns executes nothing and counts
    every row as an error, still with the result [True].  With the result
    [False] nothing was executed. *)
Theorem load_customer_data_counts_every_row (file : csv customer_row)
    (log : list event) :
  let '(ok, (inserted, errors), log') := load_customer_data raises file log in
  (ok = true <->
     exists columns rows, file = Frame columns rows /\ columns <> []) /\
  (ok = false -> log' = log /\ inserted = 0%nat /\ errors = 0%nat) /\
  (forall columns rows,
     file = Frame columns rows -> columns <> [] ->
     (inserted + errors = length rows)%nat /\
     exists evs,
       log' = log ++ evs /\ executions evs /\
       inserted = length (succeeded evs) /\
       Forall (fun st => exists values,
                 st = InsertInto "dim_customer" values /\
                 length values = 7%nat /\ Forall stripped values)
         (omap statement_of evs) /\
       (has_columns columns customer_columns = true ->
          length evs = length rows /\ errors = length (failed evs) /\
          omap statement_of evs = map customer_insert rows /\
          succeeded evs `sublist_of` map customer_insert rows) /\
       (has_columns columns customer_columns = false ->
          evs = [] /\ errors = length rows)).
Proof.
  unfold load_customer_data.
  destruct file as [| |columns rows].
  1,2: split_and!; try done; [split; [done|]; by intros (? & ? & ? & ?)].
  destruct (drop_unnamed columns) as [columns'|] eqn:Ed.
  2:{ destruct columns; [|done]. split_and!; try done.
      - split; [done|]. by intros (? & ? & [= <- <-] & ?).
      - by intros ? ? [= <- <-]. }
  pose proof (has_columns_drop_unnamed _ _ customer_columns Ed eq_refl) as Hc.
  pose proof (insert_rows_spec "dim_customer" (customer_values columns') rows 0 0 log)
    as (evs & H1 & H2 & H3 & He & Hs).
  destruct (insert_rows raises "dim_customer" (customer_values columns') rows 0 0 log)
    as [[inserted errors] log'].
  simpl in H1, H2, H3. subst log' inserted.
  split_and!; try done.
  { split; [|done]. intros _. exists columns, rows. split; [done|]. by destruct columns. }
  intros ? ? [= <- <-] Hne. split; [lia|].
  exists evs. split_and!; try done.
  - rewrite Hs. clear. induction rows as [|r rows IH]; [constructor|].
    csimpl. unfold customer_values at 1.
    destruct (has_columns columns' customer_columns); simpl; [|done].
    constructor; [|done]. eexists. split; [done|]. split; [done|].
    repeat (constructor; [apply stripped_strip|]). constructor.
  - intros Hh. rewrite <- Hc in Hh.
    assert (length evs = length rows) as Hl.
    { rewrite <- (omap_statement_of_length evs He), Hs.
      unfold customer_values. rewrite Hh. simpl.
      by rewrite omap_Some_eq, length_map. }
    assert (omap statement_of evs = map customer_insert rows) as Hm.
    { rewrite Hs. unfold customer_values. rewrite Hh. simpl.
      by rewrite omap_Some_eq. }
    split; [done|]. split; [rewrite (executions_length evs He) in Hl; lia|].
    split; [done|]. rewrite <- Hm. apply succeeded_sublist.
  - intros Hh. rewrite <- Hc in Hh.
    assert (evs = []) as ->.
    { apply omap_statement_of_nil; [done|]. rewrite Hs.
      unfold customer_values. rewrite Hh. simpl. apply omap_None_eq. }
    split; [done|]. simpl in *. lia.
Qed.

Variable float_of_str : string -> option float.
Variable py_str : cell -> string.
Variable duplicate : cell -> cell -> bool.

Definition product_columns : list string := ["price$"; "Product_ID"; "Product_Category"]%string.
Definition store_columns : list string := ["storeID"; "storeName"]%string.
Definition supplier_columns : list string := ["supplierID"; "supplierName"]%string.

(** The rows of the product file whose [INSERT] reaches the cursor: the
    price is missing, or [float] accepts it. *)
Definition priced (r : product_file_row) : bool :=
  negb (pd_notna (pf_price r)) || bool_decide (is_Some (py_float float_of_str (pf_price r))).

Lemma product_values_statements columns rows :
  has_columns columns product_columns = true ->
  length (omap (fun r => InsertInto "dim_product" <$>
                           product_values float_of_str columns r) rows) =
  length (List.filter priced rows).
Proof.
  intros Hc. induction rows as [|r rows IH]; [done|].
  csimpl. unfold product_values at 1, priced at 1.
  fold product_columns. rewrite Hc.
  destruct (pd_notna (pf_price r)); simpl.
  - destruct (py_float float_of_str (pf_price r)) eqn:E; simpl.
    + by rewrite IH.
    + done.
  - by rewrite IH.
Qed.

Lemma product_values_missing_price columns (rows : list product_file_row) r :
  has_columns columns product_columns = true ->
  r ∈ rows -> pd_notna (pf_price r) = false ->
  InsertInto "dim_product"
    [VStr (strip (pf_Product_ID r)); VStr (strip (pf_Product_Category r));
     VFloat zero]
  ∈ omap (fun r => InsertInto "dim_product" <$>
                     product_values float_of_str columns r) rows.
Proof.
  intros Hc Hin Hp. apply list_elem_of_omap. exists r. split; [done|].
  unfold product_values. fold product_columns. by rewrite Hc, Hp.
Qed.

(** X19.  [load_product_data] loads in three passes, products, then
    stores, then suppliers, each [INSERT] in its own [try]: every row of
    the file is counted once as an inserted product or as an error, a row
    whose price is missing is sent with the price 0.0, a row whose price
    [float] refuses is counted as an error without reaching the cursor and
    does not stop the rows after it.  The result is [True] exactly when the
    file was read and has the store and the supplier columns; when one of
    these is missing the passes before it have already been executed and
    the result is [False].  When the file cannot be read, nothing is
    executed. *)
Theorem load_product_data_loads_in_three_passes (file : csv product_file_row)
    (log : list event) :
  let '(ok, (products, stores, suppliers), log') :=
    load_product_data raises float_of_str py_str duplicate file log in
  (ok = true <->
     exists columns rows,
       file = Frame columns rows /\ columns <> [] /\
       has_columns columns store_columns = true /\
       has_columns columns supplier_columns = true) /\
  ((forall columns rows, file = Frame columns rows -> columns = []) -> log' = log) /\
  (forall columns rows,
     file = Frame columns rows -> columns <> [] ->
     exists evs_p evs_s evs_u,
       log' = log ++ evs_p ++ evs_s ++ evs_u /\
       executions evs_p /\ executions evs_s /\ executions evs_u /\
       Forall (inserts_into "dim_product") (omap statement_of evs_p) /\
       Forall (inserts_into "dim_store") (omap statement_of evs_s) /\
       Forall (inserts_into "dim_supplier") (omap statement_of evs_u) /\
       (products.1 + products.2 = length rows)%nat /\
       products.1 = length (succeeded evs_p) /\
       stores.1 = length (succeeded evs_s) /\
       suppliers.1 = length (succeeded evs_u) /\
       (has_columns columns product_columns = true ->
          length evs_p = length (List.filter priced rows) /\
          forall r, r ∈ rows -> pd_notna (pf_price r) = false ->
            InsertInto "dim_product"
              [VStr (strip (pf_Product_ID r)); VStr (strip (pf_Product_Category r));
               VFloat zero] ∈ omap statement_of evs_p) /\
       (if has_columns columns store_columns then
          length evs_s = length (drop_duplicates duplicate pf_storeID rows) /\
          (stores.1 + stores.2 = length evs_s)%nat
        else evs_s = [] /\ evs_u = [] /\ stores = (0, 0)%nat) /\
       (if has_columns columns store_columns && has_columns columns supplier_columns then
          length evs_u = length (drop_duplicates duplicate pf_supplierID rows) /\
          (suppliers.1 + suppliers.2 = length evs_u)%nat
        else evs_u = [] /\ suppliers = (0, 0)%nat)).
Proof.
  unfold load_product_data.
  destruct file as [| |columns rows].
  1,2: split_and!; try done; split; [done|]; by intros (? & ? & ? & ?).
  destruct (drop_unnamed columns) as [columns'|] eqn:Ed.
  2:{ destruct columns; [|done]. split_and!; try done.
      - split; [done|]. by intros (? & ? & [= <- <-] & ? & ?).
      - by intros ? ? [= <- <-]. }
  pose proof (has_columns_drop_unnamed _ _ product_columns Ed eq_refl) as Hcp.
  pose proof (has_columns_drop_unnamed _ _ store_columns Ed eq_refl) as Hcs.
  pose proof (has_columns_drop_unnamed _ _ supplier_columns Ed eq_refl) as Hcu.
  fold store_columns supplier_columns.
  assert (columns <> []) as Hne by (by destruct columns).
  pose proof (insert_rows_spec "dim_product" (product_values float_of_str columns')
                rows 0 0 log) as (evs_p & P1 & P2 & P3 & Pe & Ps).
  destruct (insert_rows raises "dim_product" (product_values float_of_str columns')
              rows 0 0 log) as [[pi pe] log1].
  simpl in P1, P2, P3. subst log1 pi.
  assert (has_columns columns product_columns = true ->
          length evs_p = length (List.filter priced rows) /\
          forall r, r ∈ rows -> pd_notna (pf_price r) = false ->
            InsertInto "dim_product"
              [VStr (strip (pf_Product_ID r)); VStr (strip (pf_Product_Category r));
               VFloat zero] ∈ omap statement_of evs_p) as Hprice.
  { intros Hc. rewrite <- Hcp in Hc. split.
    - rewrite <- (omap_statement_of_length evs_p Pe), Ps.
      by apply product_values_statements.
    - intros r Hin Hp. rewrite Ps. by apply product_values_missing_price. }
  assert (Forall (inserts_into "dim_product") (omap statement_of evs_p)) as Hip.
  { rewrite Ps. apply inserts_into_omap. }
  rewrite Hcs, Hcu.
  destruct (has_columns columns store_columns) eqn:Es; simpl.
  2:{ split_and!; try done.
      - split; [done|]. intros (? & ? & [= <- <-] & ? & ? & ?). congruence.
      - intros H. by destruct (Hne (H _ _ eq_refl)).
      - intros ? ? [= <- <-] _. exists evs_p, [], []. rewrite Es. simpl.
        rewrite !app_nil_r.
        split_and!; try done; try apply executions_nil; try apply Forall_nil_2. }
  pose proof (insert_rows_spec "dim_store" (store_values py_str)
                (drop_duplicates duplicate pf_storeID rows) 0 0 (log ++ evs_p))
    as (evs_s & S1 & S2 & S3 & Se & Ss).
  destruct (insert_rows raises "dim_store" (store_values py_str)
              (drop_duplicates duplicate pf_storeID rows) 0 0 (log ++ evs_p))
    as [[si se] log2].
  simpl in S1, S2, S3. subst log2 si.
  assert (length evs_s = length (drop_duplicates duplicate pf_storeID rows)) as Hls.
  { rewrite <- (omap_statement_of_length evs_s Se), Ss.
    apply omap_total_length. intros r. by eexists. }
  assert (Forall (inserts_into "dim_store") (omap statement_of evs_s)) as His.
  { rewrite Ss. apply inserts_into_omap. }
  destruct (has_columns columns supplier_columns) eqn:Eu; simpl.
  2:{ split_and!; try done.
      - split; [done|]. intros (? & ? & [= <- <-] & ? & ? & ?). congruence.
      - intros H. by destruct (Hne (H _ _ eq_refl)).
      - intros ? ? [= <- <-] _. exists evs_p, evs_s, []. rewrite Es, Eu. simpl.
        rewrite !app_nil_r, <- app_assoc.
        split_and!; try done; try apply executions_nil; try apply Forall_nil_2;
          try lia. }
  pose proof (insert_rows_spec "dim_supplier" (supplier_values py_str)
                (drop_duplicates duplicate pf_supplierID rows) 0 0
                ((log ++ evs_p) ++ evs_s))
    as (evs_u & U1 & U2 & U3 & Ue & Us).
  destruct (insert_rows raises "dim_supplier" (supplier_values py_str)
              (drop_duplicates duplicate pf_supplierID rows) 0 0
              ((log ++ evs_p) ++ evs_s))
    as [[ui ue] log3].
  simpl in U1, U2, U3. subst log3 ui.
  assert (length evs_u = length (drop_duplicates duplicate pf_supplierID rows)) as Hlu.
  { rewrite <- (omap_statement_of_length evs_u Ue), Us.
    apply omap_total_length. intros r. by eexists. }
  assert (Forall (inserts_into "dim_supplier") (omap statement_of evs_u)) as Hiu.
  { rewrite Us. apply inserts_into_omap. }
  split_and!; try done.
  - split; [|done]. intros _. by exists columns, rows.
  - intros H. by destruct (Hne (H _ _ eq_refl)).
  - intros ? ? [= <- <-] _. exists evs_p, evs_s, evs_u. rewrite Es, Eu. simpl.
    rewrite <- !app_assoc. split_and!; try done; lia.
Qed.

End LoaderProperties.

(** ** The loader's [main] *)

Lemma committed_from_executions pending evs rest :
  executions evs ->
  committed_from pending (evs ++ rest) = committed_from (pending ++ succeeded evs) rest.
Proof.
  intros He. revert pending.
  induction He as [|ev evs (st & ok & ->) _ IH]; intros pending; simpl.
  - by rewrite app_nil_r.
  - destruct ok; simpl.
    + rewrite IH. unfold succeeded. csimpl. by rewrite <- app_assoc.
    + rewrite IH. done.
Qed.

Lemma succeeded_statement st evs : st ∈ succeeded evs -> st ∈ omap statement_of evs.
Proof.
  unfold succeeded. rewrite !list_elem_of_omap.
  intros (ev & Hin & Hev). exists ev. split; [done|].
  destruct ev as [st' [|]| | | |]; simplify_eq. done.
Qed.

(** No statement of the stretch is an [INSERT]. *)
Definition no_insert (evs : list event) : Prop :=
  forall table values, InsertInto table values ∉ omap statement_of evs.

Section MainProperties.

Variable raises : list event -> statement -> bool.

Lemma truncate_tables_shape answer log :
  exists evs,
    (truncate_tables raises answer log).2 = log ++ evs /\
    executions evs /\ no_insert evs /\
    (evs <> [] \/ (truncate_tables raises answer log).1 = Returned true ->
     exists a, answer = Some a /\ lower (strip a) = "yes"%string).
Proof.
  unfold truncate_tables.
  destruct answer as [a|].
  2:{ exists []. rewrite app_nil_r. split_and!; try done; [apply executions_nil| |].
      - intros ? ? ?%elem_of_nil. done.
      - by intros [|]. }
  case_bool_decide as Hy.
  { exists []. rewrite app_nil_r. split_and!; try done; [apply executions_nil| |].
    - intros ? ? ?%elem_of_nil. done.
    - by intros [|]. }
  assert (lower (strip a) = "yes"%string) as Hyes.
  { destruct (decide (lower (strip a) = "yes"%string)); done. }
  assert (forall evs,
            Forall (fun ev => exists st ok, ev = Executed st ok /\
                      forall table values, st <> InsertInto table values) evs ->
            executions evs /\ no_insert evs) as Hok.
  { intros evs H. split.
    - eapply Forall_impl; [exact H|]. intros ev (st & ok & -> & _). by eexists _, _.
    - intros table values Hin. apply list_elem_of_omap in Hin as (ev & Hin & Hev).
      rewrite Forall_forall in H. destruct (H _ Hin) as (st & ok & -> & Hst).
      simpl in Hev. simplify_eq. by eapply Hst. }
  unfold truncate_handler, execute. simpl.
  repeat match goal with
         | |- context [negb (raises ?h ?st)] => destruct (raises h st); simpl
         end;
    rewrite <- ?app_assoc; simpl; eexists; (split; [reflexivity|]);
    (split_and!; [apply Hok|apply Hok|by exists a]);
    repeat (constructor; [by eexists _, _|]); constructor.
Qed.

Lemma load_customer_data_shape file log :
  exists evs,
    (load_customer_data raises file log).2 = log ++ evs /\
    executions evs /\
    Forall (inserts_into "dim_customer") (omap statement_of evs) /\
    ((load_customer_data raises file log).1.1 = false -> evs = []).
Proof.
  unfold load_customer_data.
  destruct file as [| |columns rows].
  1,2: exists []; simpl; rewrite app_nil_r; split_and!; try done;
         try apply executions_nil; try apply Forall_nil_2.
  destruct (drop_unnamed columns) as [columns'|].
  2:{ exists []. simpl. rewrite app_nil_r. split_and!; try done;
        try apply executions_nil; try apply Forall_nil_2. }
  pose proof (insert_rows_spec raises "dim_customer" (customer_values columns') rows 0 0 log)
    as (evs & H1 & _ & _ & He & Hs).
  destruct (insert_rows raises "dim_customer" (customer_values columns') rows 0 0 log)
    as [[inserted errors] log'].
  simpl in *. exists evs. split_and!; try done.
  rewrite Hs. apply inserts_into_omap.
Qed.

Variable float_of_str : string -> option float.
Variable py_str : cell -> string.
Variable duplicate : cell -> cell -> bool.

Lemma load_product_data_shape file log :
  exists evs,
    (load_product_data raises float_of_str py_str duplicate file log).2 = log ++ evs /\
    executions evs /\
    Forall (fun st => inserts_into "dim_product" st \/ inserts_into "dim_store" st \/
                      inserts_into "dim_supplier" st) (omap statement_of evs) /\
    ((load_product_data raises float_of_str py_str duplicate file log).1.1 = false ->
     Forall (fun st => inserts_into "dim_product" st \/ inserts_into "dim_store" st)
       (omap statement_of evs)).
Proof.
  unfold load_product_data.
  destruct file as [| |columns rows].
  1,2: exists []; simpl; rewrite app_nil_r; split_and!; try done;
         try apply executions_nil; try apply Forall_nil_2; try (intros _; apply Forall_nil_2).
  destruct (drop_unnamed columns) as [columns'|].
  2:{ exists []. simpl. rewrite app_nil_r. split_and!; try done;
        try apply executions_nil; try apply Forall_nil_2;
        try (intros _; apply Forall_nil_2). }
  pose proof (insert_rows_spec raises "dim_product" (product_values float_of_str columns')
                rows 0 0 log) as (evs_p & P1 & _ & _ & Pe & Ps).
  destruct (insert_rows raises "dim_product" (product_values float_of_str columns')
              rows 0 0 log) as [[pi pe] log1].
  simpl in P1. subst log1.
  assert (Forall (inserts_into "dim_product") (omap statement_of evs_p)) as Hip.
  { rewrite Ps. apply inserts_into_omap. }
  destruct (has_columns columns' ["storeID"; "storeName"]%string); simpl.
  2:{ exists evs_p. split_and!; try done.
      - eapply Forall_impl; [exact Hip|]. tauto.
      - intros _. eapply Forall_impl; [exact Hip|]. tauto. }
  pose proof (insert_rows_spec raises "dim_store" (store_values py_str)
                (drop_duplicates duplicate pf_storeID rows) 0 0 (log ++ evs_p))
    as (evs_s & S1 & _ & _ & Se & Ss).
  destruct (insert_rows raises "dim_store" (store_values py_str)
              (drop_duplicates duplicate pf_storeID rows) 0 0 (log ++ evs_p))
    as [[si se] log2].
  simpl in S1. subst log2.
  assert (Forall (inserts_into "dim_store") (omap statement_of evs_s)) as His.
  { rewrite Ss. apply inserts_into_omap. }
  destruct (has_columns columns' ["supplierID"; "supplierName"]%string); simpl.
  2:{ exists (evs_p ++ evs_s). rewrite <- app_assoc. split_and!; try done.
      - by apply executions_app.
      - rewrite omap_app. apply Forall_app_2; (eapply Forall_impl; [eassumption|]); tauto.
      - intros _. rewrite omap_app.
        apply Forall_app_2; (eapply Forall_impl; [eassumption|]); tauto. }
  pose proof (insert_rows_spec raises "dim_supplier" (supplier_values py_str)
                (drop_duplicates duplicate pf_supplierID rows) 0 0
                ((log ++ evs_p) ++ evs_s))
    as (evs_u & U1 & _ & _ & Ue & Us).
  destruct (insert_rows raises "dim_supplier" (supplier_values py_str)
              (drop_duplicates duplicate pf_supplierID rows) 0 0
              ((log ++ evs_p) ++ evs_s))
    as [[ui ue] log3].
  simpl in U1. subst log3.
  assert (Forall (inserts_into "dim_supplier") (omap statement_of evs_u)) as Hiu.
  { rewrite Us. apply inserts_into_omap. }
  exists (evs_p ++ evs_s ++ evs_u). rewrite <- !app_assoc. split_and!; try done.
  - by repeat apply executions_app.
  - rewrite !omap_app. repeat apply Forall_app_2;
      (eapply Forall_impl; [eassumption|]); tauto.
Qed.

Lemma verify_data_shape log :
  exists evs,
    verify_data raises log = log ++ evs /\ executions evs /\ no_insert evs /\
    SelectCount "dim_date" ∈ omap statement_of evs.
Proof.
  unfold verify_data, execute. simpl. rewrite <- !app_assoc. simpl.
  eexists. split; [reflexivity|]. split_and!.
  - repeat (constructor; [by eexists _, _|]). constructor.
  - intros table values Hin. csimpl in Hin.
    repeat (apply elem_of_cons in Hin as [[=]|Hin]). by apply elem_of_nil in Hin.
  - csimpl. do 4 right. left.
Qed.

End MainProperties.

Lemma executions_not_closed evs :
  executions evs -> Forall (fun ev => ev <> CursorClosed /\ ev <> ConnectionClosed) evs.
Proof.
  intros He. eapply Forall_impl; [exact He|]. by intros ev (st & ok & ->).
Qed.

Lemma no_insert_succeeded evs table values :
  no_insert evs -> InsertInto table values ∉ succeeded evs.
Proof. intros Hn Hin. by apply succeeded_statement, Hn in Hin. Qed.

Lemma succeeded_inserts_into (P : statement -> Prop) evs st :
  Forall P (omap statement_of evs) -> st ∈ succeeded evs -> P st.
Proof.
  intros HP Hin. apply succeeded_statement in Hin.
  rewrite Forall_forall in HP. by apply HP.
Qed.

(** What the [try] block of [main] leaves behind: [done] is committed
    whatever follows, [pending] waits for the next [commit]. *)
Lemma main_body_spec (env : main_env) (inputs : list string) :
  let '(r, log) := main_body env inputs in
  Forall (fun ev => ev <> CursorClosed /\ ev <> ConnectionClosed) log /\
  (forall st, st ∈ omap statement_of log ->
     exists a, head inputs = Some a /\ lower (strip a) = "yes"%string) /\
  (r = Returned FallsOffTheEnd -> SelectCount "dim_date" ∈ omap statement_of log) /\
  r <> Returned Traceback /\
  exists done pending,
    (forall rest, committed_from [] (log ++ rest) = done ++ committed_from pending rest) /\
    (forall table values,
       InsertInto table values ∈ pending ->
       r = Raises /\ exists h, me_commit_raises env h = true) /\
    (forall table values,
       InsertInto table values ∈ succeeded log ->
       InsertInto table values ∈ done \/ InsertInto table values ∈ pending \/
       (r = Returned SysExit1 /\ (table = "dim_product" \/ table = "dim_store")%string)).
Proof.
  unfold main_body, commit.
  pose proof (truncate_tables_shape (me_raises env) (head inputs) [])
    as (T & HT & HTe & HTn & HTy).
  destruct (truncate_tables (me_raises env) (head inputs) []) as [r logT].
  simpl in HT, HTy. subst logT.
  assert (forall st, st ∈ omap statement_of T ->
            exists a, head inputs = Some a /\ lower (strip a) = "yes"%string) as HTy'.
  { intros st Hin. apply HTy. left. intros ->. by apply elem_of_nil in Hin. }
  assert (forall table values, InsertInto table values ∉ succeeded T) as HTs.
  { intros. by apply no_insert_succeeded. }
  pose proof (executions_not_closed T HTe) as HTo.
  assert (forall r' : outcome exit_status,
            exists done pending : list statement,
              (forall rest, committed_from [] (T ++ rest) =
                            done ++ committed_from pending rest) /\
              (forall table values,
                 InsertInto table values ∈ pending ->
                 r' = Raises /\ exists h, me_commit_raises env h = true) /\
              (forall table values,
                 InsertInto table values ∈ succeeded T ->
                 InsertInto table values ∈ done \/ InsertInto table values ∈ pending \/
                 (r' = Returned SysExit1 /\
                  (table = "dim_product" \/ table = "dim_store")%string))) as HTend.
  { intros r'. exists [], (succeeded T). split_and!.
    - intros rest. by rewrite committed_from_executions.
    - intros ? ? Hin. by apply HTs in Hin.
    - intros ? ? Hin. by apply HTs in Hin. }
  destruct r as [[|]|].
  3:{ (* [truncate_tables] raised *) split_and!; try done. }
  2:{ (* the user declined, or the first [SET] failed *) split_and!; try done. }
  assert (exists a, head inputs = Some a /\ lower (strip a) = "yes"%string) as Hyes.
  { apply HTy. by right. }
  destruct (me_commit_raises env T) eqn:Ec1.
  { (* the first [commit] raises *) split_and!; try done. }
  assert (forall rest,
            committed_from [] ((T ++ [Commit]) ++ rest) =
            succeeded T ++ committed_from [] rest) as HTc.
  { intros rest. rewrite <- app_assoc, committed_from_executions by done. done. }
  destruct (tail inputs) as [|c inputs1].
  { (* no customer file name *)
    split_and!; try done.
    - apply Forall_app_2; [done|]. by repeat constructor.
    - exists (succeeded T), []. split_and!; try done.
      + by intros ? ? ?%elem_of_nil.
      + intros ? ? Hin. rewrite succeeded_app in Hin.
        apply elem_of_app in Hin as [Hin|Hin]; [by apply HTs in Hin|].
        by apply elem_of_nil in Hin. }
  pose proof (load_customer_data_shape (me_raises env)
                (me_customer_file env (py_or (strip c) "customer_master_data.csv"))
                (T ++ [Commit])) as (C & HC & HCe & HCi & HCf).
  destruct (load_customer_data (me_raises env)
              (me_customer_file env (py_or (strip c) "customer_master_data.csv"))
              (T ++ [Commit])) as [[ok counts] logC].
  simpl in HC, HCf. subst logC.
  pose proof (executions_not_closed C HCe) as HCo.
  destruct ok; simpl.
  2:{ (* the customer file could not be read *)
      rewrite (HCf eq_refl), app_nil_r.
      split_and!; try done.
      - repeat apply Forall_app_2; try done; by repeat constructor.
      - exists (succeeded T), []. split_and!; try done.
        + intros rest. rewrite <- app_assoc. by rewrite HTc.
        + by intros ? ? ?%elem_of_nil.
        + intros ? ? Hin. rewrite !succeeded_app in Hin.
          set_unfold in Hin. destruct Hin as [[Hin|Hin]|Hin]; try done.
          by apply HTs in Hin. }
  assert (forall table values,
            InsertInto table values ∈ succeeded ((T ++ [Commit]) ++ C) ->
            InsertInto table values ∈ succeeded C) as HCs0.
  { intros ? ? Hin. rewrite !succeeded_app in Hin. set_unfold in Hin.
    destruct Hin as [[Hin|Hin]|Hin]; try done. by apply HTs in Hin. }
  destruct (me_commit_raises env ((T ++ [Commit]) ++ C)) eqn:Ec2.
  { (* the [commit] of the customers raises *)
    split_and!; try done.
    - repeat apply Forall_app_2; try done; by repeat constructor.
    - exists (succeeded T), (succeeded C). split_and!.
      + intros rest. rewrite <- !app_assoc, (app_assoc T), HTc.
        by rewrite committed_from_executions.
      + intros ? ? _. split; [done|]. by eexists.
      + intros ? ? Hin. right. left. by apply HCs0. }
  assert (forall rest,
            committed_from [] ((((T ++ [Commit]) ++ C) ++ [Commit]) ++ rest) =
            (succeeded T ++ succeeded C) ++ committed_from [] rest) as HCc.
  { intros rest. rewrite <- !app_assoc, (app_assoc T), HTc.
    rewrite committed_from_executions by done. simpl. by rewrite app_assoc. }
  assert (Forall (fun ev => ev <> CursorClosed /\ ev <> ConnectionClosed)
            (((T ++ [Commit]) ++ C) ++ [Commit])) as HCo'.
  { repeat apply Forall_app_2; try done; by repeat constructor. }
  assert (forall table values,
            InsertInto table values ∈ succeeded (((T ++ [Commit]) ++ C) ++ [Commit]) ->
            InsertInto table values ∈ succeeded T ++ succeeded C) as HCs.
  { intros ? ? Hin. rewrite (succeeded_app _ [Commit]) in Hin.
    apply elem_of_app in Hin as [Hin|Hin]; [|by apply elem_of_nil in Hin].
    apply elem_of_app. right. by apply HCs0. }
  set (X := ((T ++ [Commit]) ++ C) ++ [Commit]) in *.
  destruct inputs1 as [|p _].
  { (* no product file name *)
    split_and!; try done.
    exists (succeeded T ++ succeeded C), []. split_and!; try done.
    - by intros ? ? ?%elem_of_nil.
    - intros ? ? Hin. left. by apply HCs. }
  pose proof (load_product_data_shape (me_raises env) (me_float_of_str env)
                (me_py_str env) (me_duplicate env)
                (me_product_file env (py_or (strip p) "product_master_data.csv"))
                X) as (P & HP & HPe & HPi & HPf).
  destruct (load_product_data (me_raises env) (me_float_of_str env)
              (me_py_str env) (me_duplicate env)
              (me_product_file env (py_or (strip p) "product_master_data.csv"))
              X) as [[ok counts'] logP].
  simpl in HP, HPf. subst logP.
  pose proof (executions_not_closed P HPe) as HPo.
  destruct ok; simpl.
  2:{ (* the product file could not be loaded: its rows are rolled back *)
      split_and!; try done.
      - repeat apply Forall_app_2; try done; by repeat constructor.
      - exists (succeeded T ++ succeeded C), []. split_and!; try done.
        + intros rest. rewrite <- !app_assoc, HCc.
          rewrite committed_from_executions by done. simpl. by rewrite <- app_assoc.
        + by intros ? ? ?%elem_of_nil.
        + intros table values Hin. rewrite !succeeded_app in Hin.
          apply elem_of_app in Hin as [Hin|Hin]; [|by apply elem_of_nil in Hin].
          apply elem_of_app in Hin as [Hin|Hin]; [left; by apply HCs|].
          right. right. split; [done|].
          destruct (succeeded_inserts_into _ _ _ (HPf eq_refl) Hin) as [[? [=]]|[? [=]]];
            first [by left|by right]. }
  destruct (me_commit_raises env (X ++ P)) eqn:Ec3.
  { (* the [commit] of the products raises *)
    split_and!; try done.
    - by apply Forall_app_2.
    - exists (succeeded T ++ succeeded C), (succeeded P). split_and!.
      + intros rest. rewrite <- !app_assoc, HCc.
        rewrite committed_from_executions by done. simpl. by rewrite <- app_assoc.
      + intros ? ? _. split; [done|]. by eexists.
      + intros table values Hin. rewrite succeeded_app in Hin.
        apply elem_of_app in Hin as [Hin|Hin]; [left; by apply HCs|by right; left]. }
  pose proof (verify_data_shape (me_raises env) ((X ++ P) ++ [Commit]))
    as (V & -> & HVe & HVn & HVd).
  pose proof (executions_not_closed V HVe) as HVo.
  split_and!; try done.
  - repeat apply Forall_app_2; try done; by repeat constructor.
  - intros _. rewrite omap_app. apply elem_of_app. by right.
  - exists ((succeeded T ++ succeeded C) ++ succeeded P), (succeeded V).
    split_and!.
    + intros rest. rewrite <- !app_assoc, HCc.
      rewrite committed_from_executions by done. simpl.
      rewrite committed_from_executions by done. simpl. by rewrite !app_assoc.
    + intros ? ? Hin. by apply no_insert_succeeded in Hin.
    + intros table values Hin. left.
      rewrite !succeeded_app in Hin.
      apply elem_of_app in Hin as [Hin|Hin]; [|by apply no_insert_succeeded in Hin].
      apply elem_of_app in Hin as [Hin|Hin]; [|by apply elem_of_nil in Hin].
      apply elem_of_app. apply elem_of_app in Hin as [Hin|Hin]; [left; by apply HCs|by right].
Qed.

(** X21.  The loader's [main], [rollback] and the two [close] calls being
    taken not to raise.  An exception leaves it exactly when
    [get_db_connection] raises or, with a connection, [conn.cursor()]
    does; then nothing was executed and nothing is closed.  Otherwise, when
    a connection was opened, the cursor and the connection are closed last,
    on every path, and nowhere before.  Nothing is executed unless the
    prompt of [truncate_tables] was answered yes.  An inserted row is left
    uncommitted in two cases only: on the exit with status 1 after the
    product file lacked a store or supplier column, and then it is a row of
    [dim_product] or [dim_store]; or when an exception was caught and rolled
    back, and then, if it is a row of a table, a [commit] had raised.  So
    when no [commit] raises every customer row that was inserted is
    committed, also when the product file fails afterwards.  Falling off
    the end, with status 0, covers two ends: the verification was reached,
    or an exception was caught and rolled back. *)
Theorem loader_main_commits_and_closes (env : main_env) :
  let '(status, log) := main env in
  (status = Traceback <->
     (get_db_connection (me_connect env) (me_inputs env)).1 = Raises \/
     (exists config,
        (get_db_connection (me_connect env) (me_inputs env)).1 = Returned (config, true)) /\
     me_cursor_raises env = true) /\
  (status = Traceback -> log = []) /\
  (log = [] \/
   exists body,
     log = body ++ [CursorClosed; ConnectionClosed] /\
     Forall (fun ev => ev <> CursorClosed /\ ev <> ConnectionClosed) body) /\
  (forall st, st ∈ omap statement_of log ->
     exists a, me_inputs env !! 4%nat = Some a /\ lower (strip a) = "yes"%string) /\
  (forall table values,
     InsertInto table values ∈ succeeded log ->
     InsertInto table values ∉ committed log ->
     (status = SysExit1 /\ (table = "dim_product" \/ table = "dim_store")%string) \/
     (status = FallsOffTheEnd /\ Rollback ∈ log /\
      exists h, me_commit_raises env h = true)) /\
  ((forall h, me_commit_raises env h = false) ->
   forall values,
     InsertInto "dim_customer" values ∈ succeeded log ->
     InsertInto "dim_customer" values ∈ committed log) /\
  (status = FallsOffTheEnd ->
     Rollback ∈ log \/ SelectCount "dim_date" ∈ omap statement_of log).
Proof.
  unfold main.
  destruct (get_db_connection (me_connect env) (me_inputs env)) as [[[config [|]]|] inputs]
    eqn:Eg; simpl.
  3:{ split_and!; try done; try (by left); try (by intros ? ?%elem_of_nil);
        try (by intros ? ? ?%elem_of_nil). split; [by left|done]. }
  2:{ split_and!; try done; try (by left); try (by intros ? ?%elem_of_nil);
        try (by intros ? ? ?%elem_of_nil); try (by intros _ ? ?%elem_of_nil).
      split; [done|]. by intros [|[[? [=]] _]]. }
  destruct (me_cursor_raises env) eqn:Ecur.
  { split_and!; try done; try (by left); try (by intros ? ?%elem_of_nil);
      try (by intros ? ? ?%elem_of_nil); try (by intros _ ? ?%elem_of_nil).
    split; [|done]. intros _. right. split; [by exists config|done]. }
  assert (head inputs = me_inputs env !! 4%nat) as Hh.
  { unfold get_db_connection in Eg.
    destruct (me_inputs env) as [|h [|d [|u [|p rest]]]]; try done.
    destruct (me_connect env _) as [| |[|]]; simplify_eq. by destruct inputs. }
  pose proof (main_body_spec env inputs) as Hb.
  destruct (main_body env inputs) as [r body].
  destruct Hb as (Ho & Hy & Hv & Hnt & done & pending & Hc & Hp & Hs).
  rewrite <- Hh.
  assert (forall tail,
            tail = [CursorClosed; ConnectionClosed] \/
            tail = [Rollback; CursorClosed; ConnectionClosed] ->
            committed (body ++ tail) = done /\
            succeeded (body ++ tail) = succeeded body /\
            omap statement_of (body ++ tail) = omap statement_of body) as Htail.
  { intros tail Ht. unfold committed. rewrite Hc, succeeded_app, omap_app.
    destruct Ht as [-> | ->]; simpl; rewrite !app_nil_r; done. }
  assert (forall table values,
            InsertInto table values ∈ succeeded body ->
            InsertInto table values ∉ done ->
            (r = Returned SysExit1 /\ (table = "dim_product" \/ table = "dim_store")%string) \/
            (r = Raises /\ exists h, me_commit_raises env h = true)) as Hlost.
  { intros table values Hin Hnot.
    destruct (Hs _ _ Hin) as [?|[Hpe|?]]; [done|right; by eapply Hp|by left]. }
  destruct r as [status|].
  - (* the [try] block was left by [sys.exit] or at its end *)
    destruct (Htail _ (or_introl eq_refl)) as (Hd & Hsu & Hst).
    rewrite Hd, Hsu, Hst.
    split_and!.
    + split; [by intros ->|]. intros [[=]|[_ [=]]].
    + by intros ->.
    + right. by exists body.
    + done.
    + intros table values Hin Hnot.
      destruct (Hlost _ _ Hin Hnot) as [[[= ->] ?]|[[=] _]]. by left.
    + intros Hnc values Hin.
      destruct (Hs _ _ Hin) as [?|[Hpe|[_ [[=]|[=]]]]]; [done|].
      destruct (Hp _ _ Hpe) as (_ & h & Hh'). by rewrite Hnc in Hh'.
    + intros ->. right. by apply Hv.
  - (* an exception was caught: [rollback] *)
    rewrite <- app_assoc. simpl.
    destruct (Htail _ (or_intror eq_refl)) as (Hd & Hsu & Hst).
    rewrite Hd, Hsu, Hst.
    assert (Rollback ∈ body ++ [Rollback; CursorClosed; ConnectionClosed]) as Hrb.
    { apply elem_of_app. right. by left. }
    split_and!.
    + split; [done|]. intros [[=]|[_ [=]]].
    + done.
    + right. exists (body ++ [Rollback]). rewrite <- app_assoc. split; [done|].
      apply Forall_app_2; [done|]. by repeat constructor.
    + done.
    + intros table values Hin Hnot.
      destruct (Hlost _ _ Hin Hnot) as [[[=] _]|[_ Hex]]. by right.
    + intros Hnc values Hin.
      destruct (Hs _ _ Hin) as [?|[Hpe|[[=] _]]]; [done|].
      destruct (Hp _ _ Hpe) as (_ & h & Hh'). by rewrite Hnc in Hh'.
    + intros _. by left.
Qed.

(** X23.  [get_db_connection]: it raises when one of its four prompts
    does, or when [connect] or [get_server_info] raises something other
    than [mysql.connector.Error], and in no other case.  When it returns,
    the host, the database and the user it connected with are never empty
    and carry no white space around them, the default is taken exactly when
    the line typed is blank, the password is the line stripped, and a
    connection is returned only when [connect] gave one that reports itself
    connected. *)
Theorem get_db_connection_defaults (connect : db_config -> connection)
    (inputs : list string) :
  match get_db_connection connect inputs with
  | (Raises, _) =>
      (length inputs < 4)%nat \/
      exists h d u p rest,
        inputs = h :: d :: u :: p :: rest /\
        connect (config_of_prompts h d u p) = Fails
  | (Returned (config, connected), rest) =>
      exists h d u p,
        inputs = h :: d :: u :: p :: rest /\
        config = config_of_prompts h d u p /\
        host config = (if decide (strip h = EmptyString) then "localhost" else strip h)%string /\
        database config = (if decide (strip d = EmptyString) then "walmart_dw" else strip d)%string /\
        user config = (if decide (strip u = EmptyString) then "root" else strip u)%string /\
        password config = strip p /\
        host config <> EmptyString /\ database config <> EmptyString /\
        user config <> EmptyString /\
        strip (host config) = host config /\
        strip (database config) = database config /\
        strip (user config) = user config /\
        connect config <> Fails /\
        (connected = true <-> connect config = Opened true)
  end.
Proof.
  unfold get_db_connection.
  destruct inputs as [|h [|d [|u [|p rest]]]]; simpl; try (left; lia).
  assert (forall x default,
            default <> EmptyString -> strip default = default ->
            py_or (strip x) default =
              (if decide (strip x = EmptyString) then default else strip x) /\
            py_or (strip x) default <> EmptyString /\
            strip (py_or (strip x) default) = py_or (strip x) default) as Hor.
  { intros x default Hd Hs. pose proof (strip_idempotent x) as Hi.
    destruct (strip x) eqn:E; simpl; [done|]. split_and!; try done. }
  destruct (Hor h "localhost"%string) as (Hh & ? & ?); [done|by vm_compute|].
  destruct (Hor d "walmart_dw"%string) as (Hd & ? & ?); [done|by vm_compute|].
  destruct (Hor u "root"%string) as (Hu & ? & ?); [done|by vm_compute|].
  destruct (connect (config_of_prompts h d u p)) as [| |[|]] eqn:Ec.
  - exists h, d, u, p. split_and!; try done; by rewrite Ec.
  - right. by exists h, d, u, p, rest.
  - exists h, d, u, p. split_and!; try done; by rewrite Ec.
  - exists h, d, u, p. split_and!; try done; by rewrite Ec.
Qed.

(** * White space around the keys *)

(** X22.  The loader strips the customer id it stores and the join engine
    strips the product id of a feed row, but not its customer id: against a
    customer map whose keys carry no white space around them, a row whose
    customer id does is skipped at the first probe, whatever its other
    fields, while white space around its product id changes nothing. *)
Theorem customer_id_with_blanks_is_skipped (int_of_str : string -> option Z)
    (s : HybridJoinBatch) (row : feed_row) (t : Transaction) :
  map_Forall (fun k _ => strip k = k) (customer_master s) ->
  transaction_of_row int_of_str row = Some t ->
  strip (f_Customer_ID row) <> f_Customer_ID row ->
  join_chain s t = ([ProbeCustomer], Skipped) /\
  transaction_of_row int_of_str
    {| f_orderID := f_orderID row; f_Customer_ID := f_Customer_ID row;
       f_Product_ID := strip (f_Product_ID row); f_quantity := f_quantity row;
       f_date := f_date row |} = Some t.
Proof.
  intros Hkeys Ht Hc. unfold transaction_of_row in *. simpl.
  destruct (py_int int_of_str (f_quantity row)) as [q|]; [|done].
  simplify_eq. rewrite strip_idempotent. split; [|done].
  unfold join_chain. simpl.
  destruct (customer_master s !! f_Customer_ID row) as [c|] eqn:E; [|done].
  by destruct (Hc (Hkeys _ _ E)).
Qed.

(** * [main] of [Hybrid-Join.py] *)

(** An exception that neither [run] nor [main] catches: [connect] raising
    something that is not a [mysql.connector.Error] (line 54), or one of the
    calls of lines 104-115 of [load_master_data], which are made before its
    [try]. *)
Inductive uncaught :=
| NoException
| ConnectRaises
| SelectRaises.

(** Whether the exception is reached: the one of [connect] at once, the one
    of [load_master_data] when [connect_to_database] and
    [truncate_fact_table] have returned [True]. *)
Definition reached (env : run_env) (exc : uncaught) : bool :=
  match exc with
  | NoException => false
  | ConnectRaises => true
  | SelectRaises =>
      truthy (connect_to_database (env_connect env)) &&
      (truncate_fact_table (env_fault env) (env_answer env) (env_table env)).1.1
  end.

(** [main] (lines 375-417): the five prompts, the object built with
    [batch_size=1000], and the exit status after [run].  [world] tells what
    [run] meets for a configuration and a feed file name, and the exception
    the set-up raises, if any; [None] when a thread does not end along the
    schedule, so that [run] does not return.  The calls of [run] after the
    threads have ended and the arithmetic on the two clock readings are
    taken not to raise. *)
Definition hybrid_join_main (int_of_str : string -> option Z)
    (float_of_str : string -> option float)
    (world : db_config -> string -> run_env * uncaught) (inputs : list string)
    : option (exit_status * option System) :=
  match inputs with
  | h :: d :: u :: p :: c :: _ =>
      let db_config := config_of_prompts h d u p in
      let csv_file := py_or (strip c) "transactional_data.csv" in
      let '(env, exc) := world db_config csv_file in
      let hybrid_join := new_HybridJoinBatch 1000 ∅ ∅ ∅ in
      if reached env exc then Some (Traceback, None)
      else
        match run int_of_str float_of_str env hybrid_join with
        | Some (Completed σ _) => Some (FallsOffTheEnd, Some σ)
        | Some (SetupFailed _ _) => Some (SysExit1, None)
        | None => None
        end
  | _ => Some (Traceback, None)
  end.

Lemma run_completed_reachable int_of_str float_of_str env bs σ table :
  run int_of_str float_of_str env (new_HybridJoinBatch bs ∅ ∅ ∅) =
    Some (Completed σ table) ->
  exists cm pm vd,
    reachable int_of_str bs cm pm vd (env_feed env) σ /\
    returned (reader σ) = true /\ join_thread_ended (joiner σ) = true.
Proof.
  unfold run.
  destruct (truthy (connect_to_database (env_connect env))); simpl; [|done].
  destruct (truncate_fact_table (env_fault env) (env_answer env) (env_table env))
    as [[ok table'] asked].
  destruct ok; simpl; [|done].
  pose proof (load_master_data_new float_of_str (env_customers env) (env_dates env)
                (env_products env) bs ∅ ∅ ∅) as Hnew. simpl in Hnew.
  destruct (load_master_data float_of_str (env_customers env) (env_dates env)
              (env_products env) (new_HybridJoinBatch bs ∅ ∅ ∅)) as [ok s1].
  simpl in Hnew. destruct ok; simpl; [|done].
  destruct (run_schedule int_of_str (env_sched env) (start s1 (env_feed env)))
    as [σ'|] eqn:Er; [|done].
  destruct (returned (reader σ')) eqn:Ed; [|done].
  destruct (join_thread_ended (joiner σ')) eqn:Ee; [|done].
  intros [= <- _].
  exists (customer_master s1), (product_master s1), (valid_dates s1).
  split; [|done]. exists (env_sched env). unfold s0. by rewrite <- Hnew.
Qed.

(** X24.  The program as [main] starts it.  It ends with a traceback when
    one of its five prompts fails and, with all five answered, only when
    [connect] or a call of [load_master_data] made before its [try] raises
    what nothing catches; it ends with status 1 only when [run] gave up
    before starting the threads.  The object always has [batch_size] 1000,
    so when [run] has returned [True] the threshold is still 1000, the
    accumulator holds fewer than 1000 records, the reader has set
    [stream_complete], and [total_loaded_tuples] counts the rows of
    [fact_sales]. *)
Theorem hybrid_join_main_runs_with_batch_size_1000
    (int_of_str : string -> option Z) (float_of_str : string -> option float)
    (world : db_config -> string -> run_env * uncaught) (inputs : list string) :
  ((length inputs < 5)%nat ->
   hybrid_join_main int_of_str float_of_str world inputs = Some (Traceback, None)) /\
  match hybrid_join_main int_of_str float_of_str world inputs with
  | Some (Traceback, after) =>
      after = None /\
      ((length inputs < 5)%nat \/
       exists h d u p c rest,
         inputs = h :: d :: u :: p :: c :: rest /\
         let '(env, exc) :=
           world (config_of_prompts h d u p)
             (py_or (strip c) "transactional_data.csv") in
         exc <> NoException /\ reached env exc = true)
  | Some (SysExit1, after) => (5 <= length inputs)%nat /\ after = None
  | Some (FallsOffTheEnd, after) =>
      (5 <= length inputs)%nat /\
      exists σ,
        after = Some σ /\
        batch_size (self σ) = 1000 /\
        Z.of_nat (length (insert_batch (self σ))) < 1000 /\
        stream_complete (self σ) = true /\
        total_loaded_tuples (self σ) = length (fact_sales (db_conn (self σ)))
  | None => (5 <= length inputs)%nat
  end.
Proof.
  unfold hybrid_join_main.
  destruct inputs as [|h [|d [|u [|p [|c inputs]]]]]; simpl;
    try (split; [done|]; split; [done|]; left; lia).
  split; [lia|].
  destruct (world _ _) as [env exc] eqn:Ew.
  destruct (reached env exc) eqn:Ere.
  { split; [done|]. right. exists h, d, u, p, c, inputs. split; [done|].
    rewrite Ew. split; [|done]. by intros ->. }
  destruct (run int_of_str float_of_str env (new_HybridJoinBatch 1000 ∅ ∅ ∅))
    as [[s table|σ table]|] eqn:Er; [split; [lia|done]| |lia].
  split; [lia|]. exists σ. split; [done|].
  destruct (run_completed_reachable _ _ _ _ _ _ Er) as (cm & pm & vd & Hr & Hd & _).
  apply reachable_Inv in Hr.
  destruct Hr as [(Hbs & _) _ _ _ _ _ _ Hload _ Hcomp _ _ _ Hbound _].
  split; [done|]. split; [apply Hbound; lia|]. split; [by rewrite Hcomp|done].
Qed.

(** * The further properties on the example runs *)

Lemma channel_never_exceeds_maxsize_witness :
  Z.of_nat (length (stream_buffer (self final_a))) <= maxsize.
Proof.
  exact (proj1 (channel_never_exceeds_maxsize decimal_int_of_str 1000 ex_customers
                  ex_products ex_dates feed_a final_a final_a_reachable)).
Defined.

Lemma reference_store_is_never_written_witness :
  customer_master (self final_b) = ex_customers /\
  product_master (self final_b) = ex_products.
Proof.
  destruct (reference_store_is_never_written decimal_int_of_str 2 ex_customers
              ex_products ex_dates feed_b final_b final_b_reachable)
    as (Hc & Hp & _).
  split; assumption.
Defined.

(** On [final_b] five records joined: three are loaded, two were lost with
    the batch whose flush failed. *)
Lemma joined_is_loaded_lost_or_pending_witness :
  total_joined_tuples (self final_b) =
    (total_loaded_tuples (self final_b) + 2 + 0)%nat.
Proof.
  exact (proj1 (joined_is_loaded_lost_or_pending decimal_int_of_str 2 ex_customers
                  ex_products ex_dates feed_b final_b final_b_reachable)).
Defined.

Lemma reader_waits_for_join_ready_witness :
  stream_reader_thread_step decimal_int_of_str (start (ex_object 1000) feed_a) = None.
Proof.
  refine (proj2 (proj2 (proj2 (proj2 (proj2
    (reader_waits_for_join_ready decimal_int_of_str 1000 ex_customers ex_products
       ex_dates feed_a (start (ex_object 1000) feed_a) _ _)))))).
  - exists []. reflexivity.
  - reflexivity.
Defined.

Lemma counters_and_flags_only_advance_witness :
  db_conn (start (ex_object 1000) feed_a).(self) `prefix_of` db_conn (self final_a) /\
  (join_ready (self (start (ex_object 1000) feed_a)) = true ->
   join_ready (self final_a) = true).
Proof.
  destruct (counters_and_flags_only_advance decimal_int_of_str sched_a
              (start (ex_object 1000) feed_a) final_a)
    as (_ & _ & _ & _ & Hl & _ & _ & Hr & _).
  - vm_compute. reflexivity.
  - split; assumption.
Defined.

(** The interrupt arrives while the reader stands at its [put] and the join
    thread at its [get]. *)
Definition interrupted_a : System :=
  Eval vm_compute in
    default (start (ex_object 1000) feed_a)
            (run_schedule decimal_int_of_str
               ([Join true] ++ repeat Reader 3 ++ [Join true; Interrupt])
               (start (ex_object 1000) feed_a)).

Definition wound_down_a : System :=
  Eval vm_compute in
    default interrupted_a
            (run_schedule decimal_int_of_str
               (repeat Reader 5 ++ repeat (Join true) 3) interrupted_a).


Example wound_down_a_shape :
  reader wound_down_a = RDone /\ joiner wound_down_a = JDone /\
  popped wound_down_a = [ex_transaction "1" 4] /\
  total_stream_tuples (self wound_down_a) = 1%nat.
Proof. vm_compute. repeat split. Qed.



(** A feed whose first row overflows, followed by 10001 ordinary rows. *)
Definition feed_long : list feed_row :=
  repeat (ex_row "2" "C1" "P1" (CInt 4) "2020-01-05") (S (Z.to_nat maxsize)).

Lemma crashed_join_thread_hangs_the_run_witness :
  exists sched σ,
    run_schedule decimal_int_of_str sched
      (start (ex_object 1000)
         (Some [ChunkRows (ex_row "1" "C1" "P1" (CStr two_to_1024) "2020-01-05"
                             :: feed_long)])) = Some σ /\
    joiner σ = JCrashed /\
    forall sched' σ',
      run_schedule decimal_int_of_str sched' σ = Some σ' ->
      returned (reader σ') = false.
Proof.
  destruct (crashed_join_thread_hangs_the_run decimal_int_of_str 1000 ex_customers
              ex_products ex_dates
              (ex_row "1" "C1" "P1" (CStr two_to_1024) "2020-01-05")
              (ex_transaction "1" (2 ^ 1024)) feed_long [])
    as (sched & σ & Hs & Hj & _ & _ & _ & Hall).
  - vm_compute. reflexivity.
  - vm_compute. reflexivity.
  - apply Forall_forall. intros row Hin. apply list_elem_of_In in Hin.
    apply repeat_spec in Hin. subst row. vm_compute. eexists. reflexivity.
  - unfold feed_long. rewrite repeat_length. lia.
  - exists sched, σ. split; [exact Hs|]. split; [exact Hj|].
    intros sched' σ' Hs'. exact (proj1 (proj2 (Hall sched' σ' Hs'))).
Defined.

Lemma loaded_products_are_found_by_stripped_id_witness :
  exists p, product_master loaded_object !! "P7"%string = Some p /\
            p_product_id p = "P7"%string.
Proof.
  destruct (loaded_products_are_found_by_stripped_id decimal_int_of_str no_float_of_str
              [ex_customer "C1"] [20200105]
              (ex_product_rows_before ++ ex_product_row "P1" (CFloat S754_nan)
                 :: ex_product_rows_after)
              (new_HybridJoinBatch 1000 ∅ ∅ ∅) loaded_object) as [H _].
  - vm_compute. reflexivity.
  - destruct (H (ex_product_row "P7 " (CFloat price_2_5))
                (ex_row "1" "C1" "  P7" (CInt 1) "2020-01-05")
                {| order_id := "1"; customer_id := "C1"; product_id := "P7";
                   quantity := 1; date := "2020-01-05" |})
      as (prow & p & _ & _ & _ & Hl & Hp).
    + by left.
    + vm_compute. reflexivity.
    + vm_compute. reflexivity.
    + exists p. split; assumption.
Defined.

(** A run of [run]: the table holds one old row, the prompt is answered
    yes, and the feed is [feed_a] under the schedule [sched_a]. *)
Definition ex_run_env : run_env :=
  {| env_connect := Connection true; env_fault := NoFault;
     env_answer := Some " YES "%string; env_table := [ex_joined "0"];
     env_customers := [ex_customer "C1"]; env_dates := [20200105];
     env_products := Some [ex_product_row "P1" (CFloat price_2_5)];
     env_feed := feed_a; env_sched := sched_a |}.

Definition ex_run_result : run_result :=
  Eval vm_compute in
    default (SetupFailed (ex_object 1000) [])
      (run decimal_int_of_str no_float_of_str ex_run_env (new_HybridJoinBatch 1000 ∅ ∅ ∅)).

Lemma run_result_accounts_for_fact_sales_witness :
  match ex_run_result with
  | Completed σ table =>
      table = fact_sales (db_conn (self σ)) /\ length table = total_loaded_tuples (self σ)
  | SetupFailed _ _ => False
  end.
Proof.
  pose proof (run_result_accounts_for_fact_sales decimal_int_of_str no_float_of_str
                ex_run_env 1000 ex_run_result) as H.
  assert (run decimal_int_of_str no_float_of_str ex_run_env
            (new_HybridJoinBatch 1000 ∅ ∅ ∅) = Some ex_run_result) as Hrun.
  { vm_compute. reflexivity. }
  specialize (H Hrun). unfold ex_run_result in *.
  destruct H as (_ & _ & _ & Ht & Hl & _). split; assumption.
Defined.

Example ex_run_table :
  match ex_run_result with
  | Completed σ table => table = [ex_joined "1"]
  | SetupFailed _ _ => False
  end.
Proof. vm_compute. reflexivity. Qed.

Lemma no_failed_flush_no_lost_record_witness :
  rolled_back (db_conn (self final_a)) = [] /\
  total_loaded_tuples (self final_a) = total_joined_tuples (self final_a).
Proof.
  destruct (no_failed_flush_no_lost_record decimal_int_of_str 1000 ex_customers
              ex_products ex_dates feed_a sched_a final_a)
    as (H1 & _ & _ & H4).
  - vm_compute. reflexivity.
  - vm_compute. reflexivity.
  - split; [exact H1|]. apply H4. reflexivity.
Defined.

Lemma customer_id_with_blanks_is_skipped_witness :
  join_chain (ex_object 1000)
    {| order_id := "1"; customer_id := " C1"; product_id := "P1";
       quantity := 4; date := "2020-01-05" |} = ([ProbeCustomer], Skipped).
Proof.
  refine (proj1 (customer_id_with_blanks_is_skipped decimal_int_of_str (ex_object 1000)
                   (ex_row "1" " C1" " P1 " (CInt 4) "2020-01-05") _ _ _ _)).
  - intros k c Hk.
    change (customer_master (ex_object 1000)) with ({[ "C1"%string := ex_customer "C1" ]}
      : gmap string CustomerRecord) in Hk.
    apply lookup_singleton_Some in Hk as [<- _]. vm_compute. reflexivity.
  - vm_compute. reflexivity.
  - vm_compute. discriminate.
Defined.

(** ** The loader on example files *)

Definition ex_customer_row : customer_row :=
  {| cr_Customer_ID := " 1000001 "; cr_Gender := "F"; cr_Age := "26-35";
     cr_Occupation := "7"; cr_City_Category := "B";
     cr_Stay_In_Current_City_Years := "2"; cr_Marital_Status := "0" |}.

Definition ex_product_file_row : product_file_row :=
  {| pf_Product_ID := "P1"; pf_Product_Category := "Grocery";
     pf_price := CFloat S754_nan; pf_storeID := CInt 1; pf_storeName := "Store A";
     pf_supplierID := CInt 7; pf_supplierName := "Supplier G" |}.

(** The product file has no supplier columns. *)
Definition ex_loader_env : main_env :=
  {| me_inputs :=
       [EmptyString; EmptyString; EmptyString; "secret"; " Yes"; EmptyString;
        EmptyString]%string;
     me_connect := fun _ => Opened true;
     me_cursor_raises := false;
     me_commit_raises := fun _ => false;
     me_customer_file := fun _ =>
       Frame ("Unnamed: 0"%string :: customer_columns) [ex_customer_row];
     me_product_file := fun _ =>
       Frame ["Product_ID"; "Product_Category"; "price$"; "storeID"; "storeName"]%string
             [ex_product_file_row; ex_product_file_row];
     me_raises := fun _ st =>
       match st with TruncateTable _ => true | _ => false end;
     me_float_of_str := no_float_of_str;
     me_py_str := fun _ => "1"%string;
     me_duplicate := fun a b =>
       match a, b with CInt x, CInt y => x =? y | _, _ => false end |}.

Definition ex_customer_insert : statement :=
  InsertInto "dim_customer"
    [VStr "1000001"; VStr "F"; VStr "26-35"; VStr "7"; VStr "B"; VStr "2"; VStr "0"].

Definition ex_product_insert : statement :=
  InsertInto "dim_product" [VStr "P1"; VStr "Grocery"; VFloat zero].

Definition ex_store_insert : statement :=
  InsertInto "dim_store" [VStr "1"; VStr "Store A"].

(** No table could be truncated, the customer row is committed, the two
    product rows and the one store row are rolled back, and the process
    exits with status 1. *)
Example ex_loader_run :
  (main ex_loader_env).1 = SysExit1 /\
  succeeded (main ex_loader_env).2 =
    [SetForeignKeyChecks false; SetForeignKeyChecks true; ex_customer_insert;
     ex_product_insert; ex_product_insert; ex_store_insert] /\
  committed (main ex_loader_env).2 =
    [SetForeignKeyChecks false; SetForeignKeyChecks true; ex_customer_insert] /\
  length (failed (main ex_loader_env).2) = 5%nat.
Proof. vm_compute. repeat split. Qed.
